(** * SCP03 (GlobalPlatform Amendment D) host-side session: a shallow embedding
    of [asterix/SCP03.py] and the properties its specification states.

    Byte strings (Python 2 [str]) and lists of u8 are both [list Z]; Python
    integers are [Z]; an object's [__dict__] is a [gmap string pyval]; a
    raised exception is the [Raise] branch of [result]. *)

From stdpp Require Import base option list gmap strings.
From Stdlib Require Import ZArith Lia Btauto.

Local Open Scope Z_scope.

(** ** Python values, exceptions and the two monads *)

Abbreviation bytes := (list Z).

Inductive exn : Type :=
  | AssertionError (msg : string)
  | AttributeError (name : string)
  | TypeError
  | ValueError
  | IndexError
  | StructError.

Inductive result (A : Type) : Type :=
  | Ok (a : A)
  | Raise (e : exn).
Arguments Ok {A} a.
Arguments Raise {A} e.

Definition is_Ok {A} (r : result A) : bool :=
  match r with Ok _ => true | Raise _ => false end.

#[global] Instance result_ret : MRet result := fun A a => Ok a.
#[global] Instance result_bind : MBind result := fun A B f r =>
  match r with Ok a => f a | Raise e => Raise e end.

(** [assert cond, msg] *)
Definition assert (b : bool) (msg : string) : result unit :=
  if b then Ok tt else Raise (AssertionError msg).

(** A value stored in an attribute or passed as an argument. *)
Inductive pyval : Type :=
  | VInt (n : Z)
  | VStr (s : bytes)
  | VNone.

#[global] Instance pyval_eq_dec : EqDecision pyval.
Proof. solve_decision. Defined.

Definition as_int (v : pyval) : result Z :=
  match v with VInt n => Ok n | _ => Raise TypeError end.
Definition as_str (v : pyval) : result bytes :=
  match v with VStr s => Ok s | _ => Raise TypeError end.

(** [len(x)] of a string or list, as a Python integer. *)
Definition len {A} (l : list A) : Z := Z.of_nat (length l).

Definition is_u8 (x : Z) : bool := (0 <=? x) && (x <? 256).

(** [chr(x)]: a one-character string; [ValueError] outside [range(256)]. *)
Definition chr (x : Z) : result bytes :=
  if is_u8 x then Ok [x] else Raise ValueError.

(** [l[k]] for a non-negative index. *)
Definition index {A} (l : list A) (k : nat) : result A :=
  match l !! k with Some x => Ok x | None => Raise IndexError end.

(** [s[-n:]] and [s[:-n]]. *)
Definition last_n {A} (n : nat) (l : list A) : list A := drop (length l - n) l.
Definition but_last_n {A} (n : nat) (l : list A) : list A := take (length l - n) l.

Definition xor_bytes (a b : bytes) : bytes := zip_with Z.lxor a b.

(** ** [struct.pack] / [struct.unpack], big-endian *)

Fixpoint be_encode (n : nat) (v : Z) : bytes :=
  match n with
  | O => []
  | S n' => be_encode n' (v / 256) ++ [v mod 256]
  end.

Definition be_decode (l : bytes) : Z := foldl (fun acc b => acc * 256 + b) 0 l.

Definition pack_uint (n : nat) (v : Z) : result bytes :=
  if (0 <=? v) && (v <? 2 ^ (8 * Z.of_nat n)) then Ok (be_encode n v)
  else Raise StructError.

Definition pack_B := pack_uint 1.
Definition pack_H := pack_uint 2.
Definition pack_L := pack_uint 4.
Definition pack_Q := pack_uint 8.

(** [pack(">QQ", hi, lo)] *)
Definition pack_QQ (hi lo : Z) : result bytes :=
  h ← pack_Q hi; l ← pack_Q lo; Ok (h ++ l).

(** [pack(">BBHB", a, b, c, d)] *)
Definition pack_BBHB (a b c d : Z) : result bytes :=
  a' ← pack_B a; b' ← pack_B b; c' ← pack_H c; d' ← pack_B d;
  Ok (a' ++ b' ++ c' ++ d').

Fixpoint pack_Bs (l : list Z) : result bytes :=
  match l with
  | [] => Ok []
  | x :: l' => x' ← pack_B x; r ← pack_Bs l'; Ok (x' ++ r)
  end.

(** one ["q"] field: a signed 64-bit integer *)
Definition signed64 (u : Z) : Z := if u <? 2 ^ 63 then u else u - 2 ^ 64.

(** [unpack(">qq", s)] *)
Definition unpack_qq (s : bytes) : result (Z * Z) :=
  if len s =? 16
  then Ok (signed64 (be_decode (take 8 s)), signed64 (be_decode (drop 8 s)))
  else Raise StructError.

(** ** AES as provided by PyCrypto ([Crypto.Cipher.AES], FIPS-197)

    The state is the 16-byte block in input order, i.e. column by column. *)
Module AES.

Definition block_size : nat := 16.

(** multiplication by x in GF(2^8) modulo x^8 + x^4 + x^3 + x + 1 *)
Definition xtime (x : Z) : Z :=
  if x <? 128 then 2 * x else Z.lxor (2 * x - 256) 27.

Definition mul2 (x : Z) : Z := xtime x.
Definition mul3 (x : Z) : Z := Z.lxor (xtime x) x.
Definition mul9 (x : Z) : Z := Z.lxor (xtime (xtime (xtime x))) x.
Definition mul11 (x : Z) : Z :=
  Z.lxor (Z.lxor (xtime (xtime (xtime x))) (xtime x)) x.
Definition mul13 (x : Z) : Z :=
  Z.lxor (Z.lxor (xtime (xtime (xtime x))) (xtime (xtime x))) x.
Definition mul14 (x : Z) : Z :=
  Z.lxor (Z.lxor (xtime (xtime (xtime x))) (xtime (xtime x))) (xtime x).

Fixpoint gmul_aux (n : nat) (a b : Z) : Z :=
  match n with
  | O => 0
  | S n' =>
      Z.lxor (if Z.odd b then a else 0) (gmul_aux n' (xtime a) (Z.shiftr b 1))
  end.
Definition gmul (a b : Z) : Z := gmul_aux 8 a b.
Definition gsq (a : Z) : Z := gmul a a.

(** the multiplicative inverse, x^254 (0 is mapped to 0) *)
Definition ginv (x : Z) : Z :=
  let x2 := gsq x in let x4 := gsq x2 in let x8 := gsq x4 in
  let x16 := gsq x8 in let x32 := gsq x16 in let x64 := gsq x32 in
  let x128 := gsq x64 in
  gmul x128 (gmul x64 (gmul x32 (gmul x16 (gmul x8 (gmul x4 x2))))).

Definition rotl8 (x n : Z) : Z :=
  Z.land (Z.lor (Z.shiftl x n) (Z.shiftr x (8 - n))) 255.

Definition affine (s : Z) : Z :=
  Z.lxor (Z.lxor (Z.lxor (Z.lxor (Z.lxor s (rotl8 s 1)) (rotl8 s 2))
                    (rotl8 s 3)) (rotl8 s 4)) 99.

Definition sbox_table : list Z :=
  Eval vm_compute in map (fun n => affine (ginv (Z.of_nat n))) (seq 0 256).

Definition find_index (y : Z) (t : list Z) : Z :=
  match list_find (fun v => v = y) t with
  | Some (k, _) => Z.of_nat k
  | None => 0
  end.

Definition inv_sbox_table : list Z :=
  Eval vm_compute in
    map (fun n => find_index (Z.of_nat n) sbox_table) (seq 0 256).

Definition sbox (x : Z) : Z := nth (Z.to_nat x) sbox_table 0.
Definition inv_sbox (x : Z) : Z := nth (Z.to_nat x) inv_sbox_table 0.

Definition SubBytes (st : bytes) : bytes := map sbox st.
Definition InvSubBytes (st : bytes) : bytes := map inv_sbox st.

Definition ShiftRows (st : bytes) : bytes :=
  match st with
  | [s0; s1; s2; s3; s4; s5; s6; s7; s8; s9; s10; s11; s12; s13; s14; s15] =>
      [s0; s5; s10; s15; s4; s9; s14; s3; s8; s13; s2; s7; s12; s1; s6; s11]
  | _ => st
  end.

Definition InvShiftRows (st : bytes) : bytes :=
  match st with
  | [s0; s1; s2; s3; s4; s5; s6; s7; s8; s9; s10; s11; s12; s13; s14; s15] =>
      [s0; s13; s10; s7; s4; s1; s14; s11; s8; s5; s2; s15; s12; s9; s6; s3]
  | _ => st
  end.

Definition mix_column (a b c d : Z) : bytes :=
  [ Z.lxor (Z.lxor (Z.lxor (mul2 a) (mul3 b)) c) d;
    Z.lxor (Z.lxor (Z.lxor a (mul2 b)) (mul3 c)) d;
    Z.lxor (Z.lxor (Z.lxor a b) (mul2 c)) (mul3 d);
    Z.lxor (Z.lxor (Z.lxor (mul3 a) b) c) (mul2 d) ].

Definition inv_mix_column (a b c d : Z) : bytes :=
  [ Z.lxor (Z.lxor (Z.lxor (mul14 a) (mul11 b)) (mul13 c)) (mul9 d);
    Z.lxor (Z.lxor (Z.lxor (mul9 a) (mul14 b)) (mul11 c)) (mul13 d);
    Z.lxor (Z.lxor (Z.lxor (mul13 a) (mul9 b)) (mul14 c)) (mul11 d);
    Z.lxor (Z.lxor (Z.lxor (mul11 a) (mul13 b)) (mul9 c)) (mul14 d) ].

Fixpoint MixColumns (st : bytes) : bytes :=
  match st with
  | a :: b :: c :: d :: st' => mix_column a b c d ++ MixColumns st'
  | _ => st
  end.

Fixpoint InvMixColumns (st : bytes) : bytes :=
  match st with
  | a :: b :: c :: d :: st' => inv_mix_column a b c d ++ InvMixColumns st'
  | _ => st
  end.

Definition AddRoundKey (st k : bytes) : bytes := xor_bytes st k.

(** *** Key expansion (FIPS-197, 5.2), on 4-byte words *)

Definition RotWord (w : bytes) : bytes := drop 1 w ++ take 1 w.
Definition SubWord (w : bytes) : bytes := map sbox w.
Definition Rcon (j : nat) : bytes := [Nat.iter (j - 1) xtime 1; 0; 0; 0].

Fixpoint words (n : nat) (key : bytes) : list bytes :=
  match n with
  | O => []
  | S n' => take 4 key :: words n' (drop 4 key)
  end.

Definition next_word (Nk i : nat) (w : list bytes) : bytes :=
  let temp := nth (i - 1) w [] in
  let temp :=
    if (i mod Nk =? 0)%nat then xor_bytes (SubWord (RotWord temp)) (Rcon (i / Nk))
    else if (6 <? Nk)%nat && (i mod Nk =? 4)%nat then SubWord temp
    else temp in
  xor_bytes (nth (i - Nk) w []) temp.

Fixpoint expand (fuel Nk i : nat) (w : list bytes) : list bytes :=
  match fuel with
  | O => w
  | S fuel' => expand fuel' Nk (S i) (w ++ [next_word Nk i w])
  end.

(** the round keys, 16 bytes each: Nr + 1 of them for Nr = Nk + 6 rounds *)
Fixpoint round_keys (n : nat) (w : list bytes) : list bytes :=
  match n with
  | O => []
  | S n' => concat (take 4 w) :: round_keys n' (drop 4 w)
  end.

Definition KeyExpansion (key : bytes) : list bytes :=
  let Nk := (length key / 4)%nat in
  let Nr := (Nk + 6)%nat in
  round_keys (S Nr) (expand (4 * S Nr - Nk) Nk Nk (words Nk key)).

(** *** Cipher and inverse cipher (FIPS-197, 5.1 and 5.3) *)

Definition round (st k : bytes) : bytes :=
  AddRoundKey (MixColumns (ShiftRows (SubBytes st))) k.
Definition final_round (st k : bytes) : bytes :=
  AddRoundKey (ShiftRows (SubBytes st)) k.

Fixpoint rounds (st : bytes) (ks : list bytes) : bytes :=
  match ks with
  | [] => st
  | [k] => final_round st k
  | k :: ks' => rounds (round st k) ks'
  end.

Definition Cipher (ks : list bytes) (block : bytes) : bytes :=
  match ks with
  | [] => block
  | k0 :: ks' => rounds (AddRoundKey block k0) ks'
  end.

Definition inv_round (st k : bytes) : bytes :=
  InvMixColumns (AddRoundKey (InvSubBytes (InvShiftRows st)) k).
Definition inv_final_round (st k : bytes) : bytes :=
  AddRoundKey (InvSubBytes (InvShiftRows st)) k.

(** [ks] holds the round keys in decreasing order, the last one first *)
Fixpoint inv_rounds (st : bytes) (ks : list bytes) : bytes :=
  match ks with
  | [] => st
  | [k] => inv_final_round st k
  | k :: ks' => inv_rounds (inv_round st k) ks'
  end.

Definition InvCipher (ks : list bytes) (block : bytes) : bytes :=
  match reverse ks with
  | [] => block
  | kN :: ks' => inv_rounds (AddRoundKey block kN) ks'
  end.

(** *** The cipher object: [AES.new(key, mode, IV)] *)

Inductive mode : Type := MODE_ECB | MODE_CBC.

Record cipher : Type := mk_cipher { ks : list bytes; cmode : mode; IV : bytes }.

Definition key_size_ok (key : bytes) : bool :=
  bool_decide (length key = 16 ∨ length key = 24 ∨ length key = 32)%nat.

Definition new (key : bytes) (m : mode) (iv : bytes) : result cipher :=
  if negb (key_size_ok key) then Raise ValueError
  else match m with
       | MODE_ECB => Ok (mk_cipher (KeyExpansion key) MODE_ECB [])
       | MODE_CBC =>
           if bool_decide (length iv = block_size)
           then Ok (mk_cipher (KeyExpansion key) MODE_CBC iv)
           else Raise ValueError
       end.

Fixpoint ecb_encrypt (n : nat) (ks : list bytes) (data : bytes) : bytes :=
  match n with
  | O => []
  | S n' => Cipher ks (take 16 data) ++ ecb_encrypt n' ks (drop 16 data)
  end.

Fixpoint cbc_encrypt (n : nat) (ks : list bytes) (prev data : bytes) : bytes :=
  match n with
  | O => []
  | S n' =>
      let c := Cipher ks (xor_bytes (take 16 data) prev) in
      c ++ cbc_encrypt n' ks c (drop 16 data)
  end.

Fixpoint ecb_decrypt (n : nat) (ks : list bytes) (data : bytes) : bytes :=
  match n with
  | O => []
  | S n' => InvCipher ks (take 16 data) ++ ecb_decrypt n' ks (drop 16 data)
  end.

Fixpoint cbc_decrypt (n : nat) (ks : list bytes) (prev data : bytes) : bytes :=
  match n with
  | O => []
  | S n' =>
      let c := take 16 data in
      xor_bytes (InvCipher ks c) prev ++ cbc_decrypt n' ks c (drop 16 data)
  end.

(** [cipher.encrypt(data)]: the input must be a whole number of blocks *)
Definition encrypt (c : cipher) (data : bytes) : result bytes :=
  if negb (length data mod block_size =? 0)%nat then Raise ValueError
  else
    let n := (length data / block_size)%nat in
    match cmode c with
    | MODE_ECB => Ok (ecb_encrypt n (ks c) data)
    | MODE_CBC => Ok (cbc_encrypt n (ks c) (IV c) data)
    end.

Definition decrypt (c : cipher) (data : bytes) : result bytes :=
  if negb (length data mod block_size =? 0)%nat then Raise ValueError
  else
    let n := (length data / block_size)%nat in
    match cmode c with
    | MODE_ECB => Ok (ecb_decrypt n (ks c) data)
    | MODE_CBC => Ok (cbc_decrypt n (ks c) (IV c) data)
    end.

End AES.

(** ** Helpers of [formutil] *)

(** Modelled from the spec: [formutil.l2s], [s2l], [s2int], [pad80],
    [unpad80] and [partition] are imported by SCP03.py but are not under src/.
    The spec treats every APDU, response and key as a byte sequence with an
    explicit length: [l2s] turns a list of u8 into a byte string (one [chr]
    per element) and [s2l] goes back; [s2int] reads a big-endian integer;
    [pad80] appends [0x80] then zeros up to the next block boundary;
    [unpad80] strips the [0x80 00..00] padding, whose [0x80] terminator is
    mandatory; [partition] cuts a string at the given offsets. *)
Module formutil.

Fixpoint l2s (l : list Z) : result bytes :=
  match l with
  | [] => Ok []
  | x :: l' => c ← chr x; r ← l2s l'; Ok (c ++ r)
  end.

Definition s2l (s : bytes) : list Z := s.

Definition s2int (s : bytes) : Z := be_decode s.

Definition pad80 (s : bytes) (BS : nat) : bytes :=
  s ++ [128] ++ replicate (BS - 1 - length s mod BS) 0.

Fixpoint strip_zeros (r : bytes) : bytes :=
  match r with
  | x :: r' => if x =? 0 then strip_zeros r' else r
  | [] => []
  end.

Definition unpad80 (s : bytes) (BS : nat) : result bytes :=
  match strip_zeros (reverse s) with
  | x :: r' =>
      if x =? 128 then Ok (reverse r')
      else Raise (AssertionError "Wrong 80 00* padding")
  | [] => Raise (AssertionError "Wrong 80 00* padding")
  end.

Fixpoint partition_from (start : nat) (s : bytes) (poss : list nat)
  : list bytes :=
  match poss with
  | [] => [drop start s]
  | p :: poss' => take (p - start) (drop start s) :: partition_from p s poss'
  end.

Definition partition (s : bytes) (poss : list nat) : list bytes :=
  partition_from 0 s poss.

End formutil.
Import formutil.

(** ** Module constants *)

Definition INS_INIT_UPDATE : Z := 0x50.
Definition INS_EXT_AUTH : Z := 0x82.
Definition INS_BEGIN_RMAC : Z := 0x7A.
Definition INS_END_RMAC : Z := 0x78.

Definition M_PSEUDO : Z := 0x10.
Definition M_RMAC : Z := 0x20.
Definition M_RMACENC : Z := 0x60.
Definition SL_CMAC : Z := 0x01.
Definition SL_CENC : Z := 0x02.
Definition SL_RMAC : Z := 0x10.
Definition SL_RENC : Z := 0x20.

(** Data derivation constants. *)
Module DDC.
Definition CardCrypto : Z := 0x00.
Definition HostCrypto : Z := 0x01.
Definition CardChallenge : Z := 0x02.
Definition S_ENC : Z := 0x04.
Definition S_MAC : Z := 0x06.
Definition S_RMAC : Z := 0x07.
End DDC.

(** Python truth value of an integer. *)
Definition truthy (n : Z) : bool := negb (n =? 0).

(** ** [logCh(CLA)]: [4 + CLA & 0x0F] parses as [(4 + CLA) & 0x0F] *)
Definition logCh (CLA : Z) : Z :=
  if truthy (Z.land CLA 0x40) then Z.land (4 + CLA) 0x0F
  else Z.land CLA 0x03.

(** ** [CMAC(key, data)] *)

Definition IrrPoly : Z := 0x87.
Definition BS : nat := 16.

Definition polyMulX (poly : bytes) : result bytes :=
  '(v0, v1) ← unpack_qq poly;
  let carry := if v1 <? 0 then 1 else 0 in
  let v1 := Z.shiftl v1 1 mod 0x10000000000000000 in
  let v1 := if v0 <? 0 then Z.lxor v1 IrrPoly else v1 in
  let v0 := Z.shiftl v0 1 mod 0x10000000000000000 + carry in
  pack_QQ v0 v1.

(** [for i in xrange(BS): odata[-BS+i] ^= ord(xorkey[i])]; a negative index
    counts from the end of the list. *)
Definition xor_at (odata : list Z) (xorkey : bytes) (i : nat)
  : result (list Z) :=
  let k := (len odata - Z.of_nat BS + Z.of_nat i) in
  if (k <? 0) || (len odata <=? k) then Raise IndexError
  else
    x ← index odata (Z.to_nat k);
    y ← index xorkey i;
    Ok (<[Z.to_nat k := Z.lxor x y]> odata).

Fixpoint xor_loop (ixs : list nat) (odata : list Z) (xorkey : bytes)
  : result (list Z) :=
  match ixs with
  | [] => Ok odata
  | i :: ixs' => odata' ← xor_at odata xorkey i; xor_loop ixs' odata' xorkey
  end.

Definition CMAC (key data : bytes) : result bytes :=
  c ← AES.new key AES.MODE_ECB [];
  kcv ← AES.encrypt c (replicate BS 0);
  xorKey1 ← polyMulX kcv;
  xorKey2 ← polyMulX xorKey1;
  let odata := data in
  let sLB := (length data mod BS)%nat in
  let '(odata, xorkey) :=
    if (0 <? sLB)%nat || (length data =? 0)%nat
    then (odata ++ [0x80] ++ replicate (BS - sLB - 1) 0, xorKey2)
    else (odata, xorKey1) in
  odata ← xor_loop (seq 0 BS) odata xorkey;
  data ← l2s odata;
  cipher ← AES.new key AES.MODE_CBC (replicate BS 0);
  ct ← AES.encrypt cipher data;
  Ok (last_n BS ct).

(** ** [KDF(key, const, L, context)] *)

Fixpoint KDF_loop (key : bytes) (const L : Z) (context : bytes)
    (ixs : list nat) (res : bytes) : result bytes :=
  match ixs with
  | [] => Ok res
  | i :: ixs' =>
      hdr ← pack_BBHB const 0 L (Z.of_nat i);
      m ← CMAC key (replicate 11 0 ++ hdr ++ context);
      KDF_loop key const L context ixs' (res ++ m)
  end.

Definition KDF (key : bytes) (const L : Z) (context : bytes) : result bytes :=
  let nbl := (L + 127) / 128 in
  res ← KDF_loop key const L context (seq 1 (Z.to_nat nbl)) [];
  let BL := L / 8 in
  Ok (take (Z.to_nat BL) res).

(** ** class [DEK] *)
Module DEK.

Record t : Type := mk { keyValue : bytes; zAES : bool }.

Definition new (keyValue : bytes) : result t :=
  _ ← assert (AES.key_size_ok keyValue) "Wrong length of AES key";
  Ok (mk keyValue true).

Definition encrypt (self : t) (data : bytes) : result bytes :=
  let l := (length data mod 16)%nat in
  let data :=
    if (0 <? l)%nat then data ++ [0x80] ++ replicate (15 - l) 0 else data in
  key ← AES.new (keyValue self) AES.MODE_CBC (replicate 16 0);
  AES.encrypt key data.

Definition decrypt (self : t) (data : bytes) : result bytes :=
  _ ← assert (length data mod 16 =? 0)%nat "Data length not multiple of 16";
  key ← AES.new (keyValue self) AES.MODE_CBC (replicate 16 0);
  AES.decrypt key data.

End DEK.

(** ** class [SCP03]

    The object is its [__dict__]; a method is a computation that may update
    it and may raise, keeping the updates made before the exception. *)

Abbreviation session := (gmap string pyval).

Definition M (A : Type) : Type := session → result A * session.

#[global] Instance M_ret : MRet M := fun A a s => (Ok a, s).
#[global] Instance M_bind : MBind M := fun A B f m s =>
  match m s with
  | (Ok a, s') => f a s'
  | (Raise e, s') => (Raise e, s')
  end.

Definition lift {A} (r : result A) : M A := fun s => (r, s).
Definition massert (b : bool) (msg : string) : M unit := lift (assert b msg).
Definition when (b : bool) (m : M unit) : M unit := if b then m else mret tt.

(** [self.name], [self.name = v], [del self.name], ['name' in self.__dict__] *)
Definition getattr (name : string) : M pyval := fun s =>
  match s !! name with
  | Some v => (Ok v, s)
  | None => (Raise (AttributeError name), s)
  end.
Definition setattr (name : string) (v : pyval) : M unit := fun s =>
  (Ok tt, <[name := v]> s).
Definition delattr (name : string) : M unit := fun s =>
  match s !! name with
  | Some _ => (Ok tt, delete name s)
  | None => (Raise (AttributeError name), s)
  end.
Definition in_dict (name : string) : M bool := fun s =>
  (Ok (bool_decide (is_Some (s !! name))), s).

Definition getint (name : string) : M Z := v ← getattr name; lift (as_int v).
Definition getstr (name : string) : M bytes := v ← getattr name; lift (as_str v).

Module SCP03.

(** [kw.get(name, default)] *)
Definition kw_get (kw : gmap string pyval) (name : string) (d : pyval)
  : pyval := default d (kw !! name).

Definition init_key (kw : gmap string pyval) (k : string) : M unit :=
  massert (bool_decide (is_Some (kw !! k))) "Mandatory key %s missing";;
  v ← lift (as_str (kw_get kw k VNone));
  massert (AES.key_size_ok v) "Wrong %s length: %d";;
  setattr k (VStr v).

Definition __init__ (kw : gmap string pyval) : M unit :=
  i ← lift (as_int (kw_get kw "i" (VInt 0x70)));
  let i := i mod 0x100 in
  massert (Z.land i (Z.lnot (Z.lor M_PSEUDO M_RMACENC)) =? 0)
    "RFU bits nonzero";;
  massert (negb (i =? Z.lxor M_RMACENC M_RMAC)) "RENC without RMAC";;
  setattr "i" (VInt i);;
  setattr "SD_AID" (kw_get kw "SD_AID" (VStr [0xA0; 0; 0; 1; 0x51; 0; 0; 0]));;
  aid ← getstr "SD_AID";
  massert ((5 <=? len aid) && (len aid <=? 16)) "Wrong AID length: %d";;
  init_key kw "keyENC";;
  init_key kw "keyMAC";;
  init_key kw "keyDEK";;
  setattr "keyVer" (kw_get kw "keyVer" (VInt 0x30));;
  seqCounter ← lift (as_int (kw_get kw "seqCounter" (VInt 0)));
  massert ((0 <=? seqCounter) && (seqCounter <? 0x1000000))
    "Wrong seq. counter value %X";;
  setattr "seqCounter" (VInt seqCounter);;
  setattr "diverData" (kw_get kw "diverData" (VStr (replicate 10 0)));;
  dd ← getstr "diverData";
  massert (len dd =? 10) "Wrong length of diver. data: %d".

(** the constructor call, [SCP03] applied to keyword arguments [kw] *)
Definition new (kw : gmap string pyval) : result session :=
  match __init__ kw ∅ with
  | (Ok _, s) => Ok s
  | (Raise e, _) => Raise e
  end.

Definition CLA (zSecure : bool) (b8 : Z) : M Z :=
  ch ← getint "logCh";
  if ch <? 4
  then mret (b8 + ch + (if zSecure then 0x04 else 0x00))
  else mret (b8 + 0x40 + (ch - 4) + (if zSecure then 0x20 else 0x00)).

Definition initUpdate (host_challenge : bytes) (logCh : Z) : M (list Z) :=
  massert ((0 <=? logCh) && (logCh <? 20)) "Wrong log. channel: %d";;
  setattr "logCh" (VInt logCh);;
  massert (len host_challenge =? 8) "Wrong length of host challenge: %d";;
  setattr "host_challenge" (VStr host_challenge);;
  cla ← CLA false 0x80;
  keyVer ← getint "keyVer";
  hc ← getstr "host_challenge";
  mret ([cla; INS_INIT_UPDATE; keyVer; 0; 8] ++ hc).

Definition deriveKeys (card_challenge : pyval) : M unit :=
  b ← in_dict "host_challenge";
  when (negb b) (setattr "host_challenge" (VStr (replicate 8 0)));;
  (* card challenge calculation *)
  i ← getint "i";
  (if truthy (Z.land i M_PSEUDO) then
     sc ← getint "seqCounter";
     sc4 ← lift (pack_L sc);
     let seqCounter := drop 1 sc4 in
     keyENC ← getstr "keyENC";
     aid ← getstr "SD_AID";
     cc ← lift (KDF keyENC DDC.CardChallenge 0x0040 (seqCounter ++ aid));
     setattr "card_challenge" (VStr cc);;
     when (negb (bool_decide (card_challenge = VNone)))
       (cc' ← getattr "card_challenge";
        massert (bool_decide (card_challenge = cc'))
          "Provided and calculated card challenge difer: %s vs. %s")
   else
     cc ← lift (as_str card_challenge);
     massert (len cc =? 8)
       "Wrong length of card challenge for randomly generated";;
     setattr "card_challenge" card_challenge);;
  (* session keys derivation *)
  hc ← getstr "host_challenge";
  cc ← getstr "card_challenge";
  let context := hc ++ cc in
  keyENC ← getstr "keyENC";
  senc ← lift (KDF keyENC DDC.S_ENC (8 * len keyENC) context);
  setattr "SENC" (VStr senc);;
  keyMAC ← getstr "keyMAC";
  smac ← lift (KDF keyMAC DDC.S_MAC (8 * len keyMAC) context);
  setattr "SMAC" (VStr smac);;
  keyMAC ← getstr "keyMAC";
  srmac ← lift (KDF keyMAC DDC.S_RMAC (8 * len keyMAC) context);
  setattr "SRMAC" (VStr srmac);;
  (* cryptograms *)
  smac ← getstr "SMAC";
  ccr ← lift (KDF smac DDC.CardCrypto 0x0040 context);
  setattr "card_cryptogram" (VStr ccr);;
  smac ← getstr "SMAC";
  hcr ← lift (KDF smac DDC.HostCrypto 0x0040 context);
  setattr "host_cryptogram" (VStr hcr);;
  (* reset MAC chaining value *)
  setattr "MACchain" VNone.

Definition initUpdateResp (card_challenge : pyval) : M bytes :=
  deriveKeys card_challenge;;
  dd ← getstr "diverData";
  keyVer ← getint "keyVer";
  i ← getint "i";
  info ← lift (pack_Bs [keyVer; 3; i]);
  cc ← getstr "card_challenge";
  ccr ← getstr "card_cryptogram";
  let resp := dd ++ info ++ cc ++ ccr in
  i ← getint "i";
  if truthy (Z.land i M_PSEUDO) then
    sc ← getint "seqCounter";
    sc4 ← lift (pack_L sc);
    mret (resp ++ drop 1 sc4)
  else mret resp.

(** Parse Init Update APDU (list[u8]) and if correct, set log. channel
    and host challenge from it. *)
Definition parseInitUpdate (apdu : list Z) : M unit :=
  cla ← lift (index apdu 0);
  massert (((0x80 <=? cla) && (cla <=? 0x83))
           || ((0xC0 <=? cla) && (cla <? 0xCF))) "Wrong CLA";;
  ins ← lift (index apdu 1);
  massert (ins =? INS_INIT_UPDATE) "Wrong INS";;
  p1 ← lift (index apdu 2);
  keyVer ← getattr "keyVer";
  massert (bool_decide (VInt p1 = keyVer)) "Key version changed";;
  (* ignore P2? *)
  lc ← lift (index apdu 4);
  massert ((lc =? len apdu - 5) && (len apdu - 5 =? 8)) "Wrong Lc/data length";;
  setattr "logCh" (VInt (logCh cla));;
  hc ← lift (l2s (drop 5 apdu));
  setattr "host_challenge" (VStr hc).

Definition parseInitUpdateResp (resp : list Z) : M unit :=
  massert (bool_decide (len resp = 29 ∨ len resp = 32))
    "Wrong length of response data to Init Update: %d";;
  sresp ← lift (l2s resp);
  match partition sresp [10; 13; 21; 29]%nat with
  | [diverData; keyInfo; card_chal; card_cryptogram; seqCounter] =>
      kv ← lift (index keyInfo 0);
      i ← lift (index keyInfo 2);
      scp ← lift (index keyInfo 1);
      massert (scp =? 0x03) "Wrong SCP number in resp. to Init Update %02X";;
      massert ((Z.land i (Z.lnot (Z.lor M_PSEUDO M_RMACENC)) =? 0)
               && negb (i =? Z.lxor M_RMACENC M_RMAC))
        "Wrong SCP03 parameter %02X";;
      setattr "i" (VInt i);;
      setattr "keyVer" (VInt kv);;
      setattr "diverData" (VStr diverData);;
      i' ← getint "i";
      (if truthy (Z.land i' M_PSEUDO) then
         massert (len seqCounter =? 3) "Missing seq. counter";;
         setattr "seqCounter" (VInt (s2int seqCounter))
       else
         massert (len seqCounter =? 0) "Seq. counter shall not be present");;
      deriveKeys (VStr card_chal);;
      ccr ← getattr "card_cryptogram";
      massert (bool_decide (VStr card_cryptogram = ccr))
        "Recieved and calculated card cryptogram difer: %s vs. %s"
  | _ => lift (Raise ValueError)
  end.

Definition accepted_SL : list Z :=
  [0; SL_CMAC; Z.lor SL_CMAC SL_CENC; Z.lor SL_CMAC SL_RMAC;
   Z.lor (Z.lor SL_CMAC SL_CENC) SL_RMAC;
   Z.lor (Z.lor (Z.lor SL_CMAC SL_CENC) SL_RMAC) SL_RENC].

Definition extAuth (SL : Z) : M (list Z) :=
  when (truthy (Z.land SL SL_RMAC))
    (i ← getint "i";
     massert (truthy (Z.land i M_RMAC)) "R-MAC not in SCP parameter");;
  when (truthy (Z.land SL SL_RENC))
    (i ← getint "i";
     massert (Z.land i M_RMACENC =? M_RMACENC) "R-ENC not in SCP parameter");;
  massert (bool_decide (SL ∈ accepted_SL)) "Wrong SL %02X";;
  setattr "SL" (VInt SL);;
  setattr "rmacSL" (VInt 0);;
  setattr "cmdCount" (VInt 0);;
  b ← in_dict "host_cryptogram";
  when (negb b) (deriveKeys VNone);;
  hdr ← lift (pack_Bs [0x84; INS_EXT_AUTH; SL; 0; 0x10]);
  hcr ← getstr "host_cryptogram";
  let data2sign := replicate 16 0 ++ hdr ++ hcr in
  smac ← getstr "SMAC";
  mac ← lift (CMAC smac data2sign);
  setattr "MACchain" (VStr mac);;
  cla ← CLA true 0x80;
  hcr ← getstr "host_cryptogram";
  chain ← getstr "MACchain";
  mret ([cla; INS_EXT_AUTH; SL; 0; 0x10] ++ (hcr ++ take 8 chain)).

(** Parse Ext Auth APDU and check host cryptogram and MAC. *)
Definition parseExtAuth (apdu : list Z) : M unit :=
  massert (len apdu =? 21) "Wrong data length";;
  SL ← lift (index apdu 2);
  wapdu ← extAuth SL;
  massert (bool_decide (take 5 apdu = take 5 wapdu)) "Wrong APDU header";;
  massert (bool_decide (take 8 (drop 5 apdu) = take 8 (drop 5 wapdu)))
    "Wrong host cryptogram";;
  massert (bool_decide (drop 13 apdu = drop 13 wapdu)) "Wrong MAC";;
  SL ← lift (index apdu 2);
  setattr "SL" (VInt SL).

(** Check INS and Lc byte of APDU. Return Lc *)
Definition checkAPDU (apdu : list Z) : M Z :=
  ins ← lift (index apdu 1);
  (if ins =? 0xC0 then
     massert ((len apdu =? 5)
              && bool_decide (take 2 (drop 2 apdu) = [0; 0]))
       "Wrong Get response APDU"
   else
     massert (negb (bool_decide (Z.land ins 0xF0 ∈ [0x60; 0x90])))
       "Wrong INS byte %02X");;
  let lc := len apdu - 5 in
  massert (5 <=? len apdu) "Wrong APDU length: %d";;
  (if len apdu =? 5 then mret tt
   else
     b4 ← lift (index apdu 4);
     massert (b4 =? lc) "Lc differs from length of data: %d vs %d");;
  mret lc.

(** the test at the head of [wrapAPDU] and [unwrapAPDU]; the key looked
    up is spelled ['beginRmaSL'] in the source *)
Definition applyBeginRmac : M unit :=
  b ← in_dict "beginRmaSL";
  when b
    (v ← getattr "beginRmacSL";
     setattr "rmacSL" v;;
     delattr "beginRmacSL").

(** [pack(">QQ", hi | self.cmdCount / 2**64, self.cmdCount % 2**64)],
    encrypted under S-ENC in ECB mode *)
Definition counterICV (hi : Z) : M bytes :=
  senc ← getstr "SENC";
  k ← lift (AES.new senc AES.MODE_ECB []);
  n ← getint "cmdCount";
  n' ← getint "cmdCount";
  blk ← lift (pack_QQ (Z.lor hi (n / 0x10000000000000000))
                (n' mod 0x10000000000000000));
  lift (AES.encrypt k blk).

Definition checkLogCh (cla b8 : Z) (zSecure : bool) : M unit :=
  when (((Z.land cla 0x40 =? 0) && (0 <? Z.land cla 0x03))
        || negb (Z.land cla 0x40 =? 0))
    (c ← CLA zSecure b8;
     massert (cla =? c) "CLA mismatch").

Definition wrapAPDU (apdu : list Z) : M (list Z) :=
  lc ← checkAPDU apdu;
  ins ← lift (index apdu 1);
  if ins =? 0xC0 then mret apdu
  else
    applyBeginRmac;;
    n ← getint "cmdCount";
    setattr "cmdCount" (VInt (n + 1));;
    cla ← lift (index apdu 0);
    let b8 := Z.land cla 0x80 in
    checkLogCh cla b8 false;;
    let scla := Z.lor b8 0x04 in
    cdata ← lift (l2s (drop 5 apdu));
    SL ← getint "SL";
    '(cdata, lc) ←
      (if truthy (Z.land SL SL_CENC) && (0 <? lc) then
         ICV ← counterICV 0;
         senc ← getstr "SENC";
         k ← lift (AES.new senc AES.MODE_CBC ICV);
         let data2enc := pad80 cdata 16 in
         cdata ← lift (AES.encrypt k data2enc);
         let lc := len cdata in
         massert (lc <=? 0xFF) "Lc after encryption too long: %d";;
         mret (cdata, lc)
       else mret (cdata, lc));
    SL ← getint "SL";
    '(cdata, lc) ←
      (if truthy (Z.land SL SL_CMAC) then
         let lc := lc + 8 in
         massert (lc <=? 0xFF) "Lc after MACing too long: %d";;
         chain ← getstr "MACchain";
         c1 ← lift (chr scla);
         hdr ← lift (l2s (take 3 (drop 1 apdu)));
         c2 ← lift (chr lc);
         let data2sign := chain ++ c1 ++ hdr ++ c2 ++ cdata in
         smac ← getstr "SMAC";
         mac ← lift (CMAC smac data2sign);
         setattr "MACchain" (VStr mac);;
         chain ← getstr "MACchain";
         mret (cdata ++ take 8 chain, lc)
       else mret (cdata, lc));
    c ← CLA true b8;
    mret ([c] ++ take 3 (drop 1 apdu) ++ [lc] ++ s2l cdata).

(** Wrap expected response as card would do. *)
Definition wrapResp (resp : list Z) (sw1 sw2 : Z) : M (list Z * Z * Z) :=
  let sw := Z.shiftl sw1 8 + sw2 in
  if negb ((sw =? 0x9000) || bool_decide (sw1 ∈ [0x62; 0x63])) then
    massert (len resp =? 0) "No response data expected";;
    mret ([], sw1, sw2)
  else
    dresp ← lift (l2s resp);
    SL ← getint "SL";
    rmacSL ← getint "rmacSL";
    dresp ←
      (if truthy (Z.land (Z.lor SL rmacSL) SL_RENC) && (0 <? len dresp) then
         massert (len dresp <=? 0xEF) "Data too long for RENC+RMAC";;
         ICV ← counterICV 0x8000000000000000;
         senc ← getstr "SENC";
         k ← lift (AES.new senc AES.MODE_CBC ICV);
         lift (AES.encrypt k (pad80 dresp 16))
       else mret dresp);
    SL ← getint "SL";
    rmacSL ← getint "rmacSL";
    dresp ←
      (if truthy (Z.land (Z.lor SL rmacSL) SL_RMAC) then
         massert (len dresp <=? 0xF0) "Data too long for RMAC";;
         chain ← getstr "MACchain";
         c1 ← lift (chr sw1);
         c2 ← lift (chr sw2);
         let data2sign := chain ++ dresp ++ c1 ++ c2 in
         srmac ← getstr "SRMAC";
         mac ← lift (CMAC srmac data2sign);
         let rmac := take 8 mac in
         mret (dresp ++ rmac)
       else mret dresp);
    mret (s2l dresp, sw1, sw2).

Definition unwrapAPDU (apdu : list Z) : M (list Z) :=
  lc ← checkAPDU apdu;
  ins ← lift (index apdu 1);
  if ins =? 0xC0 then mret apdu
  else
    applyBeginRmac;;
    n ← getint "cmdCount";
    setattr "cmdCount" (VInt (n + 1));;
    cla ← lift (index apdu 0);
    let b8 := Z.land cla 0x80 in
    massert (truthy (Z.land cla 0x04)) "Secure messaging missing";;
    checkLogCh cla b8 true;;
    let scla := Z.lor b8 0x04 in
    data ← lift (l2s (drop 5 apdu));
    SL ← getint "SL";
    '(data, lc) ←
      (if truthy (Z.land SL SL_CMAC) then
         massert (8 <=? lc) "Missing/ too short CMAC";;
         let sdata := but_last_n 8 data in
         chain ← getstr "MACchain";
         c1 ← lift (chr scla);
         hdr ← lift (l2s (take 3 (drop 1 apdu)));
         c2 ← lift (chr lc);
         let data2sign := chain ++ c1 ++ hdr ++ c2 ++ sdata in
         smac ← getstr "SMAC";
         mac ← lift (CMAC smac data2sign);
         setattr "MACchain" (VStr mac);;
         chain ← getstr "MACchain";
         massert (bool_decide (last_n 8 data = take 8 chain)) "Wrong CMAC";;
         mret (sdata, lc - 8)
       else mret (data, lc));
    SL ← getint "SL";
    '(data, lc) ←
      (if truthy (Z.land SL SL_CENC) && (0 <? lc) then
         massert (lc mod 16 =? 0) "Encoded data length not multiple of BS";;
         ICV ← counterICV 0;
         senc ← getstr "SENC";
         k ← lift (AES.new senc AES.MODE_CBC ICV);
         pdata ← lift (AES.decrypt k data);
         data ← lift (unpad80 pdata 16);
         massert (0 <? len data) "Empty data encrypted";;
         mret (data, len data)
       else mret (data, lc));
    c ← CLA false b8;
    mret ([c] ++ take 3 (drop 1 apdu) ++ [lc] ++ s2l data).

Definition beginRMAC (rmacSL : Z) (saltData : option bytes) : M (list Z) :=
  (* required rmacSL supported by SCP parameter *)
  when (truthy (Z.land rmacSL SL_RMAC))
    (i ← getint "i";
     massert (truthy (Z.land i M_RMAC)) "R-MAC not in SCP parameter");;
  when (truthy (Z.land rmacSL SL_RENC))
    (i ← getint "i";
     massert (truthy (Z.land i (Z.lxor M_RMACENC M_RMAC)))
       "R-ENC not in SCP parameter");;
  (* other bits must be zero *)
  massert (Z.land rmacSL (Z.lnot (Z.lor SL_RMAC SL_RENC)) =? 0)
    "RFU bits nonzero";;
  massert (negb (Z.land rmacSL SL_RMAC =? 0)) "Wrong P1 for BEGIN R-MAC";;
  SL ← getint "SL";
  massert (Z.land SL SL_RENC =? 0) "R-ENC already in SL for BEGIN R-MAC";;
  SL ← getint "SL";
  massert (Z.land SL SL_RMAC <? rmacSL) "R-MAC already in SL for BEGIN R-MAC";;
  SL ← getint "SL";
  massert (truthy (Z.land SL SL_CMAC)) "C-MAC was not in Ext Auth";;
  SL ← getint "SL";
  massert (truthy (Z.land SL SL_CENC) || (Z.land rmacSL SL_RENC =? 0)) "";;
  data ←
    match saltData with
    | Some salt =>
        massert (len salt <? 255) "Too long data";;
        c ← lift (chr (len salt));
        mret (c ++ salt)
    | None => mret []
    end;
  let apdu := [0x80; INS_BEGIN_RMAC; rmacSL; 1; len data] ++ data in
  wapdu ← wrapAPDU apdu;
  setattr "beginRmacSL" (VInt rmacSL);;
  mret wapdu.

Definition unwrapResp (resp : list Z) (sw1 sw2 : Z) : M (list Z * Z * Z) :=
  let sw := Z.shiftl sw1 8 + sw2 in
  if negb ((sw =? 0x9000) || bool_decide (sw1 ∈ [0x62; 0x63])) then
    massert (len resp =? 0) "No response data expected";;
    mret ([], sw1, sw2)
  else
    dresp ← lift (l2s resp);
    SL ← getint "SL";
    rmacSL ← getint "rmacSL";
    dresp ←
      (if truthy (Z.land (Z.lor SL rmacSL) SL_RMAC) then
         massert (8 <=? len resp) "Resp data shorter than 8: %d";;
         chain ← getstr "MACchain";
         c1 ← lift (chr sw1);
         c2 ← lift (chr sw2);
         let data2sign := chain ++ but_last_n 8 dresp ++ c1 ++ c2 in
         srmac ← getstr "SRMAC";
         mac ← lift (CMAC srmac data2sign);
         let rmac := take 8 mac in
         massert (bool_decide (rmac = last_n 8 dresp))
           "Wrong R-MAC: %s vs expected: %s";;
         mret (but_last_n 8 dresp)
       else mret dresp);
    SL ← getint "SL";
    rmacSL ← getint "rmacSL";
    data ←
      (if truthy (Z.land (Z.lor SL rmacSL) SL_RENC) && (0 <? len dresp) then
         massert (len dresp mod 16 =? 0)
           "Length of encrypted data not multiple of 16: %d";;
         ICV ← counterICV 0x8000000000000000;
         senc ← getstr "SENC";
         k ← lift (AES.new senc AES.MODE_CBC ICV);
         ddata ← lift (AES.decrypt k dresp);
         data ← lift (unpad80 ddata 16);
         massert (0 <? len data) "Empty data encrypted";;
         mret data
       else mret dresp);
    mret (s2l data, sw1, sw2).

Definition getDEK : M DEK.t :=
  keyDEK ← getstr "keyDEK";
  lift (DEK.new keyDEK).

End SCP03.


(** ** The shared parameters of the test class [Test128] *)
Module Test128.

(** ['@ABCDEFGHIJKLMNO'] *)
Definition at_to_O : bytes :=
  [0x40; 0x41; 0x42; 0x43; 0x44; 0x45; 0x46; 0x47;
   0x48; 0x49; 0x4A; 0x4B; 0x4C; 0x4D; 0x4E; 0x4F].

Definition scp_par : gmap string pyval :=
  list_to_map
    [ ("SD_AID", VStr [0xA0; 0x00; 0x00; 0x00; 0x18; 0x43; 0x4D; 0x08; 0x09;
                       0x0A; 0x0B; 0x0C; 0x00; 0x00; 0x00]);
      ("keyENC", VStr at_to_O);
      ("keyMAC", VStr ([0x40; 0x11; 0x22; 0x33; 0x44; 0x45; 0x56; 0x67]
                       ++ drop 8 at_to_O));
      ("keyDEK", VStr ([0x98; 0x76; 0x54; 0x32; 0x10] ++ take 11 at_to_O));
      ("keyVer", VInt 0x30);
      ("seqCounter", VInt 0x00002A);
      ("diverData", VStr [0x00; 0x00; 0x50; 0xC7; 0x60; 0x6A; 0x8C; 0xF6;
                          0x48; 0x00]) ].

Definition host_challenge : bytes := [0x08; 0x07; 0x06; 0x05; 0x04; 0x03; 0x02; 0x01].

(** the session after [SCP03(scp_par)] and [initUpdate(host_challenge)] *)
Definition scp_new : session := (SCP03.__init__ scp_par ∅).2.
Definition scp_init : session := (SCP03.initUpdate host_challenge 0 scp_new).2.
(** ... after [initUpdateResp()], which derives the keys *)
Definition scp_keys : session := (SCP03.initUpdateResp VNone scp_init).2.
(** ... after [extAuth(SL)] *)
Definition scp_auth (SL : Z) : session := (SCP03.extAuth SL scp_keys).2.

(** the same with another SCP03 parameter [i] given to the constructor *)
Definition scp_keys_with (i : Z) : session :=
  let s0 := (SCP03.__init__ (<["i" := VInt i]> scp_par) ∅).2 in
  let s1 := (SCP03.initUpdate host_challenge 0 s0).2 in
  (SCP03.initUpdateResp VNone s1).2.

Definition apdu_i4l : list Z :=
  [0x80; 0xE6; 0x02; 0x00; 0x15; 0x0A; 0x45; 0x78; 0x65; 0x72; 0x63; 0x69;
   0x73; 0x65; 0x52; 0x36; 0x00; 0x00; 0x06; 0xEF; 0x04; 0xC6; 0x02; 0x06;
   0x82; 0x00].

End Test128.

(** ** The CLA rule as the specification words it *)
Definition spec_CLA (ch : Z) (secure : bool) : Z :=
  if ch <? 4 then Z.lor (Z.lor 0x80 ch) (if secure then 0x04 else 0)
  else Z.lor (Z.lor (Z.lor 0x80 0x40) (ch - 4)) (if secure then 0x20 else 0).

(** [extAuth] turns [SL] down: outside the accepted set, or asking for R-MAC
    or R-ENC that the [i] parameter does not offer. *)
Definition SL_rejected (i SL : Z) : Prop :=
  SL ∉ SCP03.accepted_SL
  ∨ (Z.land SL SL_RMAC ≠ 0 ∧ Z.land i M_RMAC = 0)
  ∨ (Z.land SL SL_RENC ≠ 0 ∧ Z.land i M_RMACENC ≠ M_RMACENC).

(** ** Byte strings: every element is a u8 (what a Python [str] is by type) *)
Definition u8 (x : Z) : Prop := 0 ≤ x < 256.
Definition all_u8 (l : bytes) : bool := forallb is_u8 l.

(** the 256 byte values, for properties checked value by value *)
Definition byte_values : list Z := Z.of_nat <$> seq 0 256.

(** ** Auxiliary notions for the inverse of MixColumns *)

(** [g] maps bytes to bytes and distributes over xor *)
Definition additive (g : Z → Z) : Prop :=
  (∀ x, u8 x → u8 (g x)) ∧ ∀ a b, u8 a → u8 b → g (Z.lxor a b) = Z.lxor (g a) (g b).

Definition idf (x : Z) : Z := x.

(** the entry (row r, column c) of InvMix x Mix applied to one byte: [w] is
    the row of the inverse matrix, [m] the column of the forward one *)
Definition entry (w m : list (Z → Z)) (x : Z) : Z :=
  match w, m with
  | [w0; w1; w2; w3], [m0; m1; m2; m3] =>
      Z.lxor (Z.lxor (Z.lxor (w0 (m0 x)) (w1 (m1 x))) (w2 (m2 x))) (w3 (m3 x))
  | _, _ => 0
  end.

Definition inv_rows : list (list (Z → Z)) :=
  [ [AES.mul14; AES.mul11; AES.mul13; AES.mul9];
    [AES.mul9; AES.mul14; AES.mul11; AES.mul13];
    [AES.mul13; AES.mul9; AES.mul14; AES.mul11];
    [AES.mul11; AES.mul13; AES.mul9; AES.mul14] ].

Definition fwd_cols : list (list (Z → Z)) :=
  [ [AES.mul2; idf; idf; AES.mul3];
    [AES.mul3; AES.mul2; idf; idf];
    [idf; AES.mul3; AES.mul2; idf];
    [idf; idf; AES.mul3; AES.mul2] ].

(** a 16-byte block, and a 4-byte word of the key schedule *)
Definition block (b : bytes) : Prop := length b = 16%nat ∧ Forall u8 b.
Definition word4 (w : bytes) : Prop := length w = 4%nat ∧ Forall u8 w.

(** ** CMAC as the specification words it (NIST SP 800-38B) *)

(** shift the big-endian 128-bit block left by one bit; xor [0x87] into the
    low byte iff the most significant bit was set before the shift *)
Definition spec_mulX (blk : bytes) : bytes :=
  let v := be_decode blk in
  let shifted := be_encode 16 (Z.shiftl v 1 mod 2 ^ 128) in
  if Z.testbit v 127
  then take 15 shifted ++ [Z.lxor (nth 15 shifted 0) 0x87]
  else shifted.

(** the message cut into 16-byte blocks *)
Fixpoint chunks (n : nat) (data : bytes) : list bytes :=
  match n with
  | O => []
  | S n' => take 16 data :: chunks n' (drop 16 data)
  end.

(** CBC under a zero IV, keeping only the running ciphertext block *)
Fixpoint cbc_chain (ks : list bytes) (prev : bytes) (blocks : list bytes) : bytes :=
  match blocks with
  | [] => prev
  | b :: blocks' => cbc_chain ks (AES.Cipher ks (xor_bytes b prev)) blocks'
  end.

Definition spec_CMAC (key msg : bytes) : bytes :=
  let ks := AES.KeyExpansion key in
  let K1 := spec_mulX (AES.Cipher ks (replicate 16 0)) in
  let K2 := spec_mulX K1 in
  let complete := (0 <? length msg)%nat && (length msg mod 16 =? 0)%nat in
  let padded :=
    if complete then msg
    else msg ++ [0x80] ++ replicate (15 - length msg mod 16) 0 in
  let n := (length padded / 16)%nat in
  let body := take (16 * (n - 1)) padded in
  let last := xor_bytes (drop (16 * (n - 1)) padded)
                (if complete then K1 else K2) in
  cbc_chain ks (replicate 16 0) (chunks n (body ++ last)).

(** ** What [DEK.encrypt] hands to the cipher *)
Definition dek_padded (data : bytes) : bytes :=
  if (length data mod 16 =? 0)%nat then data
  else data ++ [0x80] ++ replicate (15 - length data mod 16) 0.

(** ** NIST SP 800-38B example keys and message *)
Module NIST.
Definition key128 : bytes :=
  [0x2b; 0x7e; 0x15; 0x16; 0x28; 0xae; 0xd2; 0xa6;
   0xab; 0xf7; 0x15; 0x88; 0x09; 0xcf; 0x4f; 0x3c].
Definition key192 : bytes :=
  [0x8e; 0x73; 0xb0; 0xf7; 0xda; 0x0e; 0x64; 0x52; 0xc8; 0x10; 0xf3; 0x2b;
   0x80; 0x90; 0x79; 0xe5; 0x62; 0xf8; 0xea; 0xd2; 0x52; 0x2c; 0x6b; 0x7b].
Definition key256 : bytes :=
  [0x60; 0x3d; 0xeb; 0x10; 0x15; 0xca; 0x71; 0xbe; 0x2b; 0x73; 0xae; 0xf0;
   0x85; 0x7d; 0x77; 0x81; 0x1f; 0x35; 0x2c; 0x07; 0x3b; 0x61; 0x08; 0xd7;
   0x2d; 0x98; 0x10; 0xa3; 0x09; 0x14; 0xdf; 0xf4].
Definition msg40 : bytes :=
  [0x6b; 0xc1; 0xbe; 0xe2; 0x2e; 0x40; 0x9f; 0x96; 0xe9; 0x3d; 0x7e; 0x11;
   0x73; 0x93; 0x17; 0x2a; 0xae; 0x2d; 0x8a; 0x57; 0x1e; 0x03; 0xac; 0x9c;
   0x9e; 0xb7; 0x6f; 0xac; 0x45; 0xaf; 0x8e; 0x51; 0x30; 0xc8; 0x1c; 0x46;
   0xa3; 0x5c; 0xe4; 0x11].
End NIST.

(** [extAuth] takes [SL]: an accepted level whose R-MAC and R-ENC bits the
    [i] parameter offers. *)
Definition SL_supported (i SL : Z) : Prop :=
  SL ∈ SCP03.accepted_SL
  ∧ (Z.land SL SL_RMAC ≠ 0 → Z.land i M_RMAC ≠ 0)
  ∧ (Z.land SL SL_RENC ≠ 0 → Z.land i M_RMACENC = M_RMACENC).

(** ** A session in use: wraps and response unwraps in any order *)
Inductive call : Type :=
  | Wrap (apdu : list Z)
  | UnwrapResp (resp : list Z) (sw1 sw2 : Z).

Definition is_GET_RESPONSE (apdu : list Z) : bool :=
  bool_decide (apdu !! 1%nat = Some 0xC0).

(** every wrap returns; a response unwrap may return or raise *)
Fixpoint run_calls (calls : list call) (s : session) : option session :=
  match calls with
  | [] => Some s
  | Wrap apdu :: calls' =>
      match SCP03.wrapAPDU apdu s with
      | (Ok _, s') => run_calls calls' s'
      | (Raise _, _) => None
      end
  | UnwrapResp resp sw1 sw2 :: calls' =>
      run_calls calls' (SCP03.unwrapResp resp sw1 sw2 s).2
  end.

(** the number of wraps of anything but a GET RESPONSE *)
Fixpoint wraps (calls : list call) : Z :=
  match calls with
  | [] => 0
  | Wrap apdu :: calls' =>
      (if is_GET_RESPONSE apdu then 0 else 1) + wraps calls'
  | UnwrapResp _ _ _ :: calls' => wraps calls'
  end.

(** ** The INITIALIZE UPDATE response, field by field *)

#[global] Instance exn_eq_dec : EqDecision exn.
Proof. solve_decision. Defined.
#[global] Instance result_eq_dec {A} `{EqDecision A} : EqDecision (result A).
Proof. solve_decision. Defined.


(** only legal flags in [i]: no RFU bit, no R-ENC without R-MAC *)
Definition legal_i (i : Z) : bool :=
  (Z.land i (Z.lnot (Z.lor M_PSEUDO M_RMACENC)) =? 0)
  && negb (i =? Z.lxor M_RMACENC M_RMAC).

(** the pseudo-random card challenge of a sequence counter *)
Definition pseudo_card_challenge (keyENC aid : bytes) (seqCounter : Z)
  : result bytes :=
  sc4 ← pack_L seqCounter;
  KDF keyENC DDC.CardChallenge 0x0040 (drop 1 sc4 ++ aid).







(** ** Sessions as the methods expect them *)

(** every string attribute holds bytes, as a Python [str] does *)
Definition is_bytes (v : pyval) : bool :=
  match v with VStr b => all_u8 b | _ => true end.
Definition byte_strings (s : session) : Prop :=
  map_Forall (fun _ v => is_bytes v = true) s.

(** [s'] with attribute [k] put back to what it is in [s] *)
Definition restore (k : string) (s s' : session) : session :=
  match s !! k with
  | Some v => <[k := v]> s'
  | None => delete k s'
  end.

(** [s'] with [cmdCount] and [MACchain] rewound to their values in [s] *)
Definition rewind (s s' : session) : session :=
  restore "MACchain" s (restore "cmdCount" s s').

(** the session of [Test128] opened on logical channel [ch] at level [SL] *)
Definition session_on (ch SL : Z) : session :=
  let s1 := (SCP03.initUpdate Test128.host_challenge ch Test128.scp_new).2 in
  let s2 := (SCP03.initUpdateResp VNone s1).2 in
  (SCP03.extAuth SL s2).2.

(** a method that, returning or raising, leaves the AID and the static keys
    as they are *)
Definition keeps_static {A} (m : M A) : Prop :=
  ∀ s k, k ∈ ["SD_AID"; "keyENC"; "keyMAC"; "keyDEK"] → (m s).2 !! k = s !! k.


(** * Reasoning about methods: running a bind, and the attributes a method
      may write *)

Lemma rbind_Ok {A B} (a : A) (f : A → result B) : (Ok a ≫= f) = f a.
Proof. reflexivity. Qed.

Lemma rbind_inv {A B} (r : result A) (f : A → result B) b :
  (r ≫= f) = Ok b → ∃ a, r = Ok a ∧ f a = Ok b.
Proof. destruct r as [a|e]; [eauto | discriminate]. Qed.

Lemma bind_Ok {A B} (m : M A) (f : A → M B) s a s' :
  m s = (Ok a, s') → (m ≫= f) s = f a s'.
Proof. intros H. unfold mbind, M_bind. by rewrite H. Qed.

Lemma bind_Raise {A B} (m : M A) (f : A → M B) s e s' :
  m s = (Raise e, s') → (m ≫= f) s = (Raise e, s').
Proof. intros H. unfold mbind, M_bind. by rewrite H. Qed.

Lemma bind_inv {A B} (m : M A) (f : A → M B) s b s2 :
  (m ≫= f) s = (Ok b, s2) → ∃ a s1, m s = (Ok a, s1) ∧ f a s1 = (Ok b, s2).
Proof.
  unfold mbind, M_bind. destruct (m s) as [[a|e] s1]; [eauto | discriminate].
Qed.

Lemma getattr_Some name s v : s !! name = Some v → getattr name s = (Ok v, s).
Proof. intros H. unfold getattr. by rewrite H. Qed.

Lemma getint_Some name s n : s !! name = Some (VInt n) → getint name s = (Ok n, s).
Proof. intros H. unfold getint. by rewrite (bind_Ok _ _ _ _ _ (getattr_Some _ _ _ H)). Qed.

Lemma getstr_Some name s b : s !! name = Some (VStr b) → getstr name s = (Ok b, s).
Proof. intros H. unfold getstr. by rewrite (bind_Ok _ _ _ _ _ (getattr_Some _ _ _ H)). Qed.

Lemma getattr_inv name s v s' :
  getattr name s = (Ok v, s') → s' = s ∧ s !! name = Some v.
Proof. unfold getattr. destruct (s !! name); naive_solver. Qed.

Lemma getint_inv name s n s' :
  getint name s = (Ok n, s') → s' = s ∧ s !! name = Some (VInt n).
Proof.
  unfold getint. intros (v & s1 & H1 & H2)%bind_inv.
  apply getattr_inv in H1 as [-> H1]. destruct v; unfold lift in H2; naive_solver.
Qed.

Lemma getstr_inv name s b s' :
  getstr name s = (Ok b, s') → s' = s ∧ s !! name = Some (VStr b).
Proof.
  unfold getstr. intros (v & s1 & H1 & H2)%bind_inv.
  apply getattr_inv in H1 as [-> H1]. destruct v; unfold lift in H2; naive_solver.
Qed.

Lemma massert_inv b msg s u s' : massert b msg s = (Ok u, s') → s' = s ∧ b = true.
Proof. unfold massert, lift, assert. destruct b; naive_solver. Qed.

Lemma lift_inv {A} (r : result A) s a s' : lift r s = (Ok a, s') → s' = s ∧ r = Ok a.
Proof. unfold lift. naive_solver. Qed.

Lemma exec_bind_in_dict_None {B} name (f : bool → M B) s :
  s !! name = None → (in_dict name ≫= f) s = f false s.
Proof. intros H. unfold mbind, M_bind, in_dict. by rewrite H. Qed.

(** [frame I ns m]: from a session that satisfies [I], running [m], whether
    it returns or raises, ends in a session that satisfies [I] and leaves
    every attribute outside [ns] as it was. *)
Definition frame {A} (I : session → Prop) (ns : list string) (m : M A) : Prop :=
  ∀ s, I s → I (m s).2 ∧ ∀ k, k ∉ ns → (m s).2 !! k = s !! k.

Abbreviation modifies := (frame (fun _ => True)).

(** no BEGIN R-MAC is pending under the key that [wrapAPDU] looks up *)
Definition no_beginRmaSL (s : session) : Prop := s !! "beginRmaSL" = None.

Section frame.
Context (I : session → Prop) (ns : list string).

Lemma frame_ret {A} (a : A) : frame I ns (mret a).
Proof. by intros s HI. Qed.
Lemma frame_lift {A} (r : result A) : frame I ns (lift r).
Proof. by intros s HI. Qed.
Lemma frame_massert b msg : frame I ns (massert b msg).
Proof. apply frame_lift. Qed.
Lemma frame_getattr name : frame I ns (getattr name).
Proof. intros s HI. unfold getattr. by destruct (s !! name). Qed.
Lemma frame_in_dict name : frame I ns (in_dict name).
Proof. by intros s HI. Qed.
Lemma frame_setattr name v :
  name ∈ ns → (∀ s, I s → I (<[name := v]> s)) → frame I ns (setattr name v).
Proof.
  intros Hin HI s Hs. split; [by apply HI|]. intros k Hk. simpl.
  apply lookup_insert_ne. intros ->. contradiction.
Qed.
Lemma frame_delattr name :
  name ∈ ns → (∀ s, I s → I (delete name s)) → frame I ns (delattr name).
Proof.
  intros Hin HI s Hs. unfold delattr. destruct (s !! name); [|done].
  split; [by apply HI|]. intros k Hk. simpl.
  apply lookup_delete_ne. intros ->. contradiction.
Qed.
Lemma frame_bind {A B} (m : M A) (f : A → M B) :
  frame I ns m → (∀ a, frame I ns (f a)) → frame I ns (m ≫= f).
Proof.
  intros Hm Hf s Hs. unfold mbind, M_bind.
  destruct (Hm s Hs) as [HI Hk]. destruct (m s) as [[a|e] s1]; simpl in *.
  - destruct (Hf a s1 HI) as [HI' Hk']. split; [done|].
    intros k Hn. by rewrite Hk', Hk.
  - done.
Qed.
Lemma frame_getint name : frame I ns (getint name).
Proof. apply frame_bind; [apply frame_getattr | intros; apply frame_lift]. Qed.
Lemma frame_getstr name : frame I ns (getstr name).
Proof. apply frame_bind; [apply frame_getattr | intros; apply frame_lift]. Qed.
Lemma frame_if {A} (b : bool) (m1 m2 : M A) :
  frame I ns m1 → frame I ns m2 → frame I ns (if b then m1 else m2).
Proof. by destruct b. Qed.
Lemma frame_when b m : frame I ns m → frame I ns (when b m).
Proof. intros. apply frame_if; [done | apply frame_ret]. Qed.
End frame.

Lemma frame_weaken {A} I ns ns' (m : M A) : ns ⊆ ns' → frame I ns m → frame I ns' m.
Proof.
  intros Hsub H s Hs. destruct (H s Hs) as [HI Hk]. split; [done|].
  intros k Hn. apply Hk. intros Hin. apply Hn, Hsub, Hin.
Qed.

Lemma modifies_nil_eq {A} (m : M A) s : modifies [] m → (m s).2 = s.
Proof. intros H. apply map_eq. intros k. apply (H s I). apply not_elem_of_nil. Qed.

Lemma no_beginRmaSL_insert name v s :
  name ≠ "beginRmaSL" → no_beginRmaSL s → no_beginRmaSL (<[name := v]> s).
Proof. intros Hne Hs. unfold no_beginRmaSL. by rewrite lookup_insert_ne. Qed.

Lemma no_beginRmaSL_delete name s :
  no_beginRmaSL s → no_beginRmaSL (delete name s).
Proof.
  intros Hs. unfold no_beginRmaSL. rewrite lookup_delete. by case_decide.
Qed.

(** membership of a literal attribute name in a literal list of names *)
Ltac names_solve := apply (bool_decide_unpack _); vm_compute; exact I.

(** inclusion of a literal list of names in another *)
Ltac sublist_solve :=
  let x := fresh "x" in let Hx := fresh "Hx" in
  intros x Hx;
  repeat (apply elem_of_cons in Hx as [-> | Hx]; [names_solve|]);
  by apply elem_of_nil in Hx.

Ltac frame_inv_solve :=
  first [ done
        | intros; apply no_beginRmaSL_insert; [discriminate | assumption]
        | intros; apply no_beginRmaSL_delete; assumption ].

Ltac frame_step :=
  lazymatch goal with
  | |- frame _ _ (mbind _ _) => apply frame_bind; [ | intros ]
  | |- frame _ _ (mret _) => apply frame_ret
  | |- frame _ _ (lift _) => apply frame_lift
  | |- frame _ _ (massert _ _) => apply frame_massert
  | |- frame _ _ (getattr _) => apply frame_getattr
  | |- frame _ _ (getint _) => apply frame_getint
  | |- frame _ _ (getstr _) => apply frame_getstr
  | |- frame _ _ (in_dict _) => apply frame_in_dict
  | |- frame _ _ (setattr _ _) =>
      apply frame_setattr; [ names_solve | frame_inv_solve ]
  | |- frame _ _ (delattr _) =>
      apply frame_delattr; [ names_solve | frame_inv_solve ]
  | |- frame _ _ (when _ _) => apply frame_when
  | |- frame _ _ (if _ then _ else _) => apply frame_if
  | |- frame _ _ (match ?x with (_, _) => _ end) => destruct x
  | |- frame _ _ (match ?x with Some _ => _ | None => _ end) => destruct x
  end.

Lemma frame_CLA I ns z b8 : frame I ns (SCP03.CLA z b8).
Proof. unfold SCP03.CLA. repeat frame_step. Qed.

Lemma frame_checkAPDU I ns apdu : frame I ns (SCP03.checkAPDU apdu).
Proof. unfold SCP03.checkAPDU. repeat frame_step. Qed.

Lemma frame_counterICV I ns hi : frame I ns (SCP03.counterICV hi).
Proof. unfold SCP03.counterICV. repeat frame_step. Qed.

Lemma frame_checkLogCh I ns cla b8 z : frame I ns (SCP03.checkLogCh cla b8 z).
Proof.
  unfold SCP03.checkLogCh. repeat first [apply frame_CLA | frame_step].
Qed.

Lemma modifies_applyBeginRmac ns :
  "rmacSL" ∈ ns → "beginRmacSL" ∈ ns → modifies ns SCP03.applyBeginRmac.
Proof.
  intros H1 H2. unfold SCP03.applyBeginRmac.
  repeat first [ by apply frame_setattr | by apply frame_delattr | frame_step ].
Qed.

(** With no ['beginRmaSL'] attribute the test at the head of [wrapAPDU] is
    false and nothing is written. *)
Lemma frame_applyBeginRmac ns : frame no_beginRmaSL ns SCP03.applyBeginRmac.
Proof.
  intros s Hs. unfold SCP03.applyBeginRmac.
  erewrite exec_bind_in_dict_None by exact Hs. done.
Qed.

Ltac frame_auto :=
  repeat first
    [ apply frame_CLA | apply frame_checkAPDU | apply frame_counterICV
    | apply frame_checkLogCh
    | apply frame_applyBeginRmac
    | apply modifies_applyBeginRmac; names_solve
    | frame_step ].

(** [unwrapResp] writes no attribute at all. *)
Lemma modifies_unwrapResp resp sw1 sw2 : modifies [] (SCP03.unwrapResp resp sw1 sw2).
Proof. unfold SCP03.unwrapResp. frame_auto. Qed.

(** [wrapAPDU] writes the counter and the MAC chaining value, and the two
    attributes of a pending BEGIN R-MAC. *)
Lemma modifies_wrapAPDU apdu :
  modifies ["cmdCount"; "MACchain"; "rmacSL"; "beginRmacSL"] (SCP03.wrapAPDU apdu).
Proof. unfold SCP03.wrapAPDU. frame_auto. Qed.

(** ... and only the first two as long as no ['beginRmaSL'] attribute exists,
    which no method ever creates. *)
Lemma frame_wrapAPDU apdu :
  frame no_beginRmaSL ["cmdCount"; "MACchain"] (SCP03.wrapAPDU apdu).
Proof. unfold SCP03.wrapAPDU. frame_auto. Qed.

Lemma frame_unwrapAPDU apdu :
  frame no_beginRmaSL ["cmdCount"; "MACchain"] (SCP03.unwrapAPDU apdu).
Proof. unfold SCP03.unwrapAPDU. frame_auto. Qed.

Lemma frame_beginRMAC rmacSL salt :
  frame no_beginRmaSL ["cmdCount"; "MACchain"; "beginRmacSL"]
    (SCP03.beginRMAC rmacSL salt).
Proof.
  unfold SCP03.beginRMAC.
  repeat first
    [ eapply frame_weaken; [|apply frame_wrapAPDU]; sublist_solve | frame_step ].
Qed.

(** Running a method forwards, one statement at a time. *)
Lemma exec_bind {A B} (m : M A) (f : A → M B) s a s1 r :
  m s = (Ok a, s1) → f a s1 = r → (m ≫= f) s = r.
Proof. intros H <-. by apply bind_Ok. Qed.

Lemma exec_raise {A B} (m : M A) (f : A → M B) s e s1 :
  m s = (Raise e, s1) → (m ≫= f) s = (Raise e, s1).
Proof. apply bind_Raise. Qed.

Lemma massert_true msg s : massert true msg s = (Ok tt, s).
Proof. done. Qed.
Lemma massert_false msg s : massert false msg s = (Raise (AssertionError msg), s).
Proof. done. Qed.
Lemma when_false m s : when false m s = (Ok tt, s).
Proof. done. Qed.
Lemma when_true m : when true m = m.
Proof. done. Qed.
Lemma lift_Ok {A} (a : A) s : lift (Ok a) s = (Ok a, s).
Proof. done. Qed.
Lemma setattr_eq name v s : setattr name v s = (Ok tt, <[name := v]> s).
Proof. done. Qed.
Lemma mret_eq {A} (a : A) s : (mret a : M A) s = (Ok a, s).
Proof. done. Qed.
Lemma in_dict_eq name s :
  in_dict name s = (Ok (bool_decide (is_Some (s !! name))), s).
Proof. done. Qed.

(** a lookup in a session built with inserts over known lookups *)
Ltac lookup_solve :=
  repeat (rewrite lookup_insert_ne by discriminate);
  first [ apply lookup_insert_eq | eassumption | reflexivity ].

Ltac exec_prim :=
  lazymatch goal with
  | |- getint _ _ = _ => apply getint_Some; lookup_solve
  | |- getstr _ _ = _ => apply getstr_Some; lookup_solve
  | |- getattr _ _ = _ => apply getattr_Some; lookup_solve
  | |- setattr _ _ _ = _ => apply setattr_eq
  | |- massert true _ _ = _ => apply massert_true
  | |- when false _ _ = _ => apply when_false
  | |- lift (Ok _) _ = _ => apply lift_Ok
  | |- mret _ _ = _ => apply mret_eq
  | |- in_dict _ _ = _ => apply in_dict_eq
  end.

(** one statement of a method, when it is a primitive that returns *)
Ltac exec1 :=
  lazymatch goal with
  | |- (when true _ ≫= _) _ = _ => rewrite when_true
  | |- when true _ _ = _ => rewrite when_true
  | |- (mbind _ (mbind _ _)) _ = _ => eapply exec_bind
  | |- (mbind _ _) _ = _ => eapply exec_bind; [ exec_prim | cbv beta ]
  | |- _ = _ => exec_prim
  end.


Lemma spec_CLA_eq (ch : Z) (secure : bool) s :
  0 ≤ ch < 20 → s !! "logCh" = Some (VInt ch) →
  SCP03.CLA secure 0x80 s = (Ok (spec_CLA ch secure), s).
Proof.
  intros Hch Hs. unfold SCP03.CLA.
  rewrite (bind_Ok _ _ _ _ _ (getint_Some _ _ _ Hs)).
  unfold spec_CLA. 
  assert (Hc : ch ∈ (Z.of_nat <$> seq 0 20)).
  { apply list_elem_of_fmap. exists (Z.to_nat ch). split; [lia|].
    apply elem_of_seq. lia. }
  clear Hch. cbv [seq fmap list_fmap] in Hc.
  repeat (apply elem_of_cons in Hc as [-> | Hc]; [by destruct secure|]).
  by apply elem_of_nil in Hc.
Qed.

Lemma logCh_CLA_mod16 (ch : Z) (secure : bool) :
  0 ≤ ch < 20 → logCh (spec_CLA ch secure) = ch mod 16.
Proof.
  intros Hch.
  assert (Hc : ch ∈ (Z.of_nat <$> seq 0 20)).
  { apply list_elem_of_fmap. exists (Z.to_nat ch). split; [lia|].
    apply elem_of_seq. lia. }
  clear Hch. cbv [seq fmap list_fmap] in Hc.
  repeat (apply elem_of_cons in Hc as [-> | Hc]; [by destruct secure|]).
  by apply elem_of_nil in Hc.
Qed.

(** C8. On logical channel 16 the CLA byte built by [SCP03.CLA] is the one of
    the stated rule, [0xCC] unsecured and [0xEC] secured, and [logCh] decodes
    either of them to 0 and not to 16: [4 + CLA & 0x0F] adds before it masks,
    so channels 16 to 19 come back as 0 to 3. *)
Theorem logCh_CLA_channel16 :
  let s : session := {[ "logCh" := VInt 16 ]} in
  (SCP03.CLA false 0x80 s).1 = Ok (spec_CLA 16 false)
  ∧ (SCP03.CLA true 0x80 s).1 = Ok (spec_CLA 16 true)
  ∧ spec_CLA 16 false = 0xCC ∧ spec_CLA 16 true = 0xEC
  ∧ logCh 0xCC = 0 ∧ logCh 0xEC = 0.
Proof. repeat split; vm_compute; reflexivity. Qed.

(** C1. On a session without a ['beginRmaSL'] attribute (no method creates
    one), a [beginRMAC(P1)] that returns leaves [P1] in [beginRmacSL], and
    the next [wrapAPDU] neither moves it to [rmacSL] nor removes it:
    [rmacSL] is what it was before [beginRMAC], because [wrapAPDU] looks the
    pending level up under the key ['beginRmaSL']. *)
Theorem beginRMAC_level_never_installed
    (s s1 : session) (P1 : Z) (salt : option bytes) (w apdu : list Z) :
  no_beginRmaSL s →
  SCP03.beginRMAC P1 salt s = (Ok w, s1) →
  s1 !! "beginRmacSL" = Some (VInt P1)
  ∧ (SCP03.wrapAPDU apdu s1).2 !! "rmacSL" = s !! "rmacSL"
  ∧ (SCP03.wrapAPDU apdu s1).2 !! "beginRmacSL" = Some (VInt P1).
Proof.
  intros Hs Hb.
  destruct (frame_beginRMAC P1 salt s Hs) as [Hs1 Hk1]. rewrite Hb in Hs1, Hk1.
  simpl in Hs1, Hk1.
  destruct (frame_wrapAPDU apdu s1 Hs1) as [_ Hk2].
  assert (H1 : s1 !! "beginRmacSL" = Some (VInt P1)).
  { clear Hk1 Hk2 Hs1. unfold SCP03.beginRMAC in Hb.
    repeat (let H := fresh "Hstep" in apply bind_inv in Hb as (? & ? & H & Hb)).
    lazymatch goal with
    | Hset : setattr "beginRmacSL" _ _ = _ |- _ =>
        unfold setattr in Hset; injection Hset as _ <-
    end.
    injection Hb as _ <-. apply lookup_insert_eq. }
  split; [exact H1|]. split.
  - rewrite Hk2 by names_solve. apply Hk1. names_solve.
  - rewrite Hk2 by names_solve. exact H1.
Qed.

(** the scenario of [test_beginRMAC], followed by one more command: R-MAC is
    still off, and a response that carries no MAC at all is accepted *)
Lemma beginRMAC_level_never_installed_witness :
  let s := Test128.scp_auth 1 in
  let b := SCP03.beginRMAC 0x10 None s in
  let apdu := [0x80; 0xE6; 0x00; 0x00; 0x00] in
  let s2 := (SCP03.wrapAPDU apdu b.2).2 in
  no_beginRmaSL s
  ∧ b.1 = Ok [0x84; 0x7A; 0x10; 0x01; 0x08;
              0x54; 0x75; 0x33; 0x63; 0x3C; 0x32; 0x3C; 0xAA]
  ∧ (b.2 !! "beginRmacSL" = Some (VInt 0x10)
     ∧ s2 !! "rmacSL" = s !! "rmacSL"
     ∧ s2 !! "beginRmacSL" = Some (VInt 0x10))
  ∧ s2 !! "rmacSL" = Some (VInt 0) ∧ s2 !! "SL" = Some (VInt 1)
  ∧ (SCP03.unwrapResp [] 0x90 0x00 s2).1 = Ok ([], 0x90, 0x00).
Proof.
  cbv zeta.
  assert (H0 : no_beginRmaSL (Test128.scp_auth 1)) by (vm_compute; reflexivity).
  split; [exact H0|]. split; [vm_compute; reflexivity|]. split.
  - apply (beginRMAC_level_never_installed _ _ 0x10 None
             [0x84; 0x7A; 0x10; 0x01; 0x08;
              0x54; 0x75; 0x33; 0x63; 0x3C; 0x32; 0x3C; 0xAA] _ H0).
    etransitivity; [apply surjective_pairing|].
    apply (f_equal (fun r => (r, (SCP03.beginRMAC 16 None (Test128.scp_auth 1)).2))).
    vm_compute. reflexivity.
  - repeat split; vm_compute; reflexivity.
Defined.

(** C6. With the shared parameters of [Test128] and the host challenge
    [0807060504030201], key derivation returns and leaves exactly the listed
    card challenge, S-ENC, S-MAC, S-RMAC and cryptograms in the session;
    each is the stated [KDF] of its key, constant, length and context. *)
Theorem deriveKeys_Test128 :
  let r := SCP03.deriveKeys VNone Test128.scp_init in
  let context := Test128.host_challenge
                 ++ [0xA3; 0xF5; 0xF1; 0x44; 0xD1; 0x9B; 0xE6; 0x6E] in
  let keyENC := Test128.at_to_O in
  let keyMAC := [0x40; 0x11; 0x22; 0x33; 0x44; 0x45; 0x56; 0x67]
                ++ drop 8 Test128.at_to_O in
  let S_ENC := [0x85; 0x2D; 0x20; 0x7B; 0x7C; 0xC8; 0xC8; 0x80;
                0x23; 0x1E; 0xDF; 0xD5; 0xC6; 0x44; 0xCF; 0xB1] in
  let S_MAC := [0x71; 0x31; 0xB9; 0x36; 0x9F; 0x3D; 0x19; 0x85;
                0x0E; 0x69; 0x19; 0xCD; 0x33; 0x21; 0x52; 0x3E] in
  let S_RMAC := [0xB5; 0x70; 0xAA; 0x1F; 0xDE; 0x18; 0xF9; 0x17;
                 0x9B; 0x5C; 0xBD; 0x42; 0xD8; 0x93; 0x9D; 0x05] in
  (SCP03.__init__ Test128.scp_par ∅).1 = Ok tt
  ∧ (SCP03.initUpdate Test128.host_challenge 0 Test128.scp_new).1
    = Ok [0x80; 0x50; 0x30; 0x00; 0x08;
          0x08; 0x07; 0x06; 0x05; 0x04; 0x03; 0x02; 0x01]
  ∧ Test128.scp_init !! "i" = Some (VInt 0x70)
  ∧ Test128.scp_init !! "seqCounter" = Some (VInt 0x00002A)
  ∧ r.1 = Ok tt
  ∧ r.2 !! "card_challenge"
    = Some (VStr [0xA3; 0xF5; 0xF1; 0x44; 0xD1; 0x9B; 0xE6; 0x6E])
  ∧ r.2 !! "SENC" = Some (VStr S_ENC)
  ∧ r.2 !! "SMAC" = Some (VStr S_MAC)
  ∧ r.2 !! "SRMAC" = Some (VStr S_RMAC)
  ∧ r.2 !! "card_cryptogram"
    = Some (VStr [0x72; 0xBF; 0xCB; 0xDF; 0x4A; 0x14; 0x51; 0x5F])
  ∧ r.2 !! "host_cryptogram"
    = Some (VStr [0xAE; 0xB8; 0xDA; 0xD1; 0x86; 0x5B; 0x85; 0xE2])
  ∧ KDF keyENC DDC.S_ENC (8 * len keyENC) context = Ok S_ENC
  ∧ KDF keyMAC DDC.S_MAC (8 * len keyMAC) context = Ok S_MAC
  ∧ KDF keyMAC DDC.S_RMAC (8 * len keyMAC) context = Ok S_RMAC
  ∧ KDF S_MAC DDC.CardCrypto 64 context
    = Ok [0x72; 0xBF; 0xCB; 0xDF; 0x4A; 0x14; 0x51; 0x5F]
  ∧ KDF S_MAC DDC.HostCrypto 64 context
    = Ok [0xAE; 0xB8; 0xDA; 0xD1; 0x86; 0x5B; 0x85; 0xE2].
Proof. repeat split; vm_compute; reflexivity. Qed.

(** C10. When [extAuth(SL)] turns [SL] down it raises its assertion with the
    session exactly as it was: [SL], [rmacSL], [cmdCount], [MACchain] and
    every other attribute keep the value (or the absence) they had. *)
Theorem extAuth_rejected_no_mutation (s : session) (i SL : Z) :
  s !! "i" = Some (VInt i) →
  SL_rejected i SL →
  ∃ msg, SCP03.extAuth SL s = (Raise (AssertionError msg), s).
Proof.
  intros Hi Hrej. unfold SCP03.extAuth.
  destruct (truthy (Z.land SL SL_RMAC)) eqn:Hrmac.
  - destruct (truthy (Z.land i M_RMAC)) eqn:Hi1.
    2:{ eexists. apply exec_raise. rewrite when_true.
        eapply exec_bind; [exec_prim|]. cbv beta. rewrite Hi1. apply massert_false. }
    destruct (truthy (Z.land SL SL_RENC)) eqn:Hrenc.
    + destruct (Z.land i M_RMACENC =? M_RMACENC) eqn:Hi2.
      2:{ eexists. eapply exec_bind.
          { rewrite when_true. eapply exec_bind; [exec_prim|]. cbv beta.
            rewrite Hi1. apply massert_true. }
          apply exec_raise. rewrite when_true.
          eapply exec_bind; [exec_prim|]. cbv beta. rewrite Hi2. apply massert_false. }
      destruct (bool_decide (SL ∈ SCP03.accepted_SL)) eqn:Hacc.
      { exfalso. apply bool_decide_eq_true in Hacc.
        unfold truthy in *. destruct Hrej as [?|[[_ ?]|[_ ?]]]; [done|lia..]. }
      eexists. eapply exec_bind.
      { rewrite when_true. eapply exec_bind; [exec_prim|]. cbv beta.
        rewrite Hi1. apply massert_true. }
      eapply exec_bind.
      { rewrite when_true. eapply exec_bind; [exec_prim|]. cbv beta.
        rewrite Hi2. apply massert_true. }
      apply exec_raise. apply massert_false.
    + destruct (bool_decide (SL ∈ SCP03.accepted_SL)) eqn:Hacc.
      { exfalso. apply bool_decide_eq_true in Hacc.
        unfold truthy in *. destruct Hrej as [?|[[_ ?]|[? _]]]; [done|lia..]. }
      eexists. eapply exec_bind.
      { rewrite when_true. eapply exec_bind; [exec_prim|]. cbv beta.
        rewrite Hi1. apply massert_true. }
      eapply exec_bind; [apply when_false|].
      apply exec_raise. apply massert_false.
  - destruct (truthy (Z.land SL SL_RENC)) eqn:Hrenc.
    + destruct (Z.land i M_RMACENC =? M_RMACENC) eqn:Hi2.
      2:{ eexists. eapply exec_bind; [apply when_false|].
          apply exec_raise. rewrite when_true.
          eapply exec_bind; [exec_prim|]. cbv beta. rewrite Hi2. apply massert_false. }
      destruct (bool_decide (SL ∈ SCP03.accepted_SL)) eqn:Hacc.
      { exfalso. apply bool_decide_eq_true in Hacc.
        unfold truthy in *. destruct Hrej as [?|[[? _]|[_ ?]]]; [done|lia..]. }
      eexists. eapply exec_bind; [apply when_false|].
      eapply exec_bind.
      { rewrite when_true. eapply exec_bind; [exec_prim|]. cbv beta.
        rewrite Hi2. apply massert_true. }
      apply exec_raise. apply massert_false.
    + destruct (bool_decide (SL ∈ SCP03.accepted_SL)) eqn:Hacc.
      { exfalso. apply bool_decide_eq_true in Hacc.
        unfold truthy in *. destruct Hrej as [?|[[? _]|[? _]]]; [done|lia..]. }
      eexists. eapply exec_bind; [apply when_false|].
      eapply exec_bind; [apply when_false|].
      apply exec_raise. apply massert_false.
Qed.

Lemma extAuth_rejected_no_mutation_witness :
  SL_rejected 0x10 0x11
  ∧ ∃ msg, SCP03.extAuth 0x11 (Test128.scp_keys_with 0x10)
           = (Raise (AssertionError msg), Test128.scp_keys_with 0x10).
Proof.
  assert (H : SL_rejected 0x10 0x11) by (right; left; by vm_compute).
  split; [exact H|].
  apply (extAuth_rejected_no_mutation _ 0x10 0x11); [|exact H].
  vm_compute. reflexivity.
Defined.


(** * Bytes and byte strings *)

Lemma is_u8_spec x : is_u8 x = true ↔ u8 x.
Proof. unfold is_u8, u8. rewrite andb_true_iff, Z.leb_le, Z.ltb_lt. tauto. Qed.

Lemma all_u8_Forall l : all_u8 l = true ↔ Forall u8 l.
Proof.
  unfold all_u8. induction l as [|x l IH]; simpl.
  - split; [constructor | done].
  - rewrite andb_true_iff, Forall_cons, IH, is_u8_spec. tauto.
Qed.

Lemma byte_forall (P : Z → bool) :
  forallb P byte_values = true → ∀ x, u8 x → P x = true.
Proof.
  intros H x Hx. rewrite forallb_forall in H. apply H.
  apply list_elem_of_In, list_elem_of_fmap. exists (Z.to_nat x).
  split; [unfold u8 in Hx; lia|]. apply elem_of_seq. unfold u8 in Hx. lia.
Qed.

Lemma byte_forall2 (P : Z → Z → bool) :
  forallb (fun a => forallb (P a) byte_values) byte_values = true →
  ∀ x y, u8 x → u8 y → P x y = true.
Proof.
  intros H x y Hx Hy.
  apply (byte_forall (P x)); [|done].
  by apply (byte_forall (fun a => forallb (P a) byte_values)).
Qed.

Lemma lxor_bound n a b :
  0 ≤ n → 0 ≤ a < 2 ^ n → 0 ≤ b < 2 ^ n → 0 ≤ Z.lxor a b < 2 ^ n.
Proof.
  intros Hn [Ha0 Ha] [Hb0 Hb].
  assert (0 ≤ Z.lxor a b) by (apply Z.lxor_nonneg; tauto).
  split; [done|].
  destruct (Z.eq_dec (Z.lxor a b) 0) as [->|Hne]; [apply Z.pow_pos_nonneg; lia|].
  assert (0 < n).
  { destruct (Z.eq_dec n 0) as [->|]; [|lia]. exfalso. apply Hne.
    change (2 ^ 0) with 1 in *. by replace a with 0 by lia; replace b with 0 by lia. }
  apply Z.log2_lt_pow2; [lia|].
  pose proof (Z.log2_lxor a b ltac:(lia) ltac:(lia)) as Hl.
  assert (Z.log2 a < n).
  { destruct (Z.eq_dec a 0) as [->|]; [simpl; lia|]. apply Z.log2_lt_pow2; lia. }
  assert (Z.log2 b < n).
  { destruct (Z.eq_dec b 0) as [->|]; [simpl; lia|]. apply Z.log2_lt_pow2; lia. }
  lia.
Qed.

Lemma lxor_u8 a b : u8 a → u8 b → u8 (Z.lxor a b).
Proof. intros. by apply (lxor_bound 8). Qed.

Lemma xor_bytes_length a b : length a = length b → length (xor_bytes a b) = length a.
Proof. intros H. unfold xor_bytes. rewrite length_zip_with. lia. Qed.

Lemma xor_bytes_u8 a b : Forall u8 a → Forall u8 b → Forall u8 (xor_bytes a b).
Proof.
  intros Ha. revert b. induction Ha as [|x a Hx Ha IH]; intros b Hb; [constructor|].
  destruct Hb as [|y b Hy Hb]; [constructor|]. simpl.
  constructor; [by apply lxor_u8 | by apply IH].
Qed.

Lemma xor_bytes_cancel a k : length a = length k → xor_bytes (xor_bytes a k) k = a.
Proof.
  revert k. induction a as [|x a IH]; intros [|y k] Hl; try done. simpl in *.
  f_equal; [|apply IH; lia].
  by rewrite Z.lxor_assoc, Z.lxor_nilpotent, Z.lxor_0_r.
Qed.

Lemma Forall_u8_replicate n : Forall u8 (replicate n 0).
Proof. apply Forall_replicate. unfold u8. lia. Qed.

(** * AES: sizes, ranges, and the inverse cipher *)

Lemma xtime_u8 x : u8 x → u8 (AES.xtime x).
Proof.
  intros H. apply is_u8_spec.
  apply (byte_forall (fun x => is_u8 (AES.xtime x))); [by vm_compute | done].
Qed.

Lemma sbox_u8 x : u8 (AES.sbox x).
Proof.
  unfold AES.sbox.
  assert (Hall : Forall u8 AES.sbox_table).
  { apply all_u8_Forall. by vm_compute. }
  destruct (decide (Z.to_nat x < length AES.sbox_table)%nat) as [Hlt|Hge].
  - eapply Forall_forall; [exact Hall|]. apply list_elem_of_In, nth_In, Hlt.
  - rewrite nth_overflow by lia. unfold u8. lia.
Qed.

Lemma inv_sbox_u8 x : u8 (AES.inv_sbox x).
Proof.
  unfold AES.inv_sbox.
  assert (Hall : Forall u8 AES.inv_sbox_table).
  { apply all_u8_Forall. by vm_compute. }
  destruct (decide (Z.to_nat x < length AES.inv_sbox_table)%nat) as [Hlt|Hge].
  - eapply Forall_forall; [exact Hall|]. apply list_elem_of_In, nth_In, Hlt.
  - rewrite nth_overflow by lia. unfold u8. lia.
Qed.

Lemma inv_sbox_sbox x : u8 x → AES.inv_sbox (AES.sbox x) = x.
Proof.
  intros H. apply Z.eqb_eq.
  apply (byte_forall (fun x => AES.inv_sbox (AES.sbox x) =? x)); [by vm_compute | done].
Qed.

Lemma InvSubBytes_SubBytes st : Forall u8 st → AES.InvSubBytes (AES.SubBytes st) = st.
Proof.
  unfold AES.InvSubBytes, AES.SubBytes. induction 1 as [|x st Hx _ IH]; simpl; [done|].
  by rewrite inv_sbox_sbox, IH.
Qed.

Lemma SubBytes_u8 st : Forall u8 (AES.SubBytes st).
Proof. unfold AES.SubBytes. apply Forall_map, Forall_true. intros; apply sbox_u8. Qed.

Lemma SubBytes_length st : length (AES.SubBytes st) = length st.
Proof. apply length_map. Qed.

(** a list of 16 elements, spelled out *)
Lemma list16 {A} (l : list A) :
  length l = 16%nat →
  ∃ x0 x1 x2 x3 x4 x5 x6 x7 x8 x9 x10 x11 x12 x13 x14 x15,
    l = [x0; x1; x2; x3; x4; x5; x6; x7; x8; x9; x10; x11; x12; x13; x14; x15].
Proof.
  intros H.
  do 16 (destruct l as [|? l]; [discriminate|]).
  destruct l; [|discriminate]. repeat eexists.
Qed.

Lemma InvShiftRows_ShiftRows st :
  length st = 16%nat → AES.InvShiftRows (AES.ShiftRows st) = st.
Proof.
  intros H. apply list16 in H as (?&?&?&?&?&?&?&?&?&?&?&?&?&?&?&?&->). reflexivity.
Qed.

Lemma ShiftRows_length st : length (AES.ShiftRows st) = length st.
Proof.
  destruct (decide (length st = 16%nat)) as [H|H].
  - apply list16 in H as (?&?&?&?&?&?&?&?&?&?&?&?&?&?&?&?&->). reflexivity.
  - unfold AES.ShiftRows.
    do 16 (destruct st as [|? st]; [reflexivity|]).
    destruct st; [done | reflexivity].
Qed.

Lemma ShiftRows_u8 st : Forall u8 st → Forall u8 (AES.ShiftRows st).
Proof.
  intros Hst. destruct (decide (length st = 16%nat)) as [H|H].
  - apply list16 in H as (?&?&?&?&?&?&?&?&?&?&?&?&?&?&?&?&->).
    simpl. repeat (apply Forall_cons in Hst as [? Hst]).
    repeat (constructor; [assumption|]). constructor.
  - unfold AES.ShiftRows.
    do 16 (destruct st as [|? st]; [assumption|]).
    destruct st; [done | assumption].
Qed.

(** ** MixColumns: multiplication by a constant is additive, so the product
       of the two matrices can be checked one input byte at a time *)

Lemma xtime_lxor a b :
  u8 a → u8 b → AES.xtime (Z.lxor a b) = Z.lxor (AES.xtime a) (AES.xtime b).
Proof.
  intros Ha Hb. apply Z.eqb_eq.
  apply (byte_forall2
           (fun a b => AES.xtime (Z.lxor a b) =? Z.lxor (AES.xtime a) (AES.xtime b)));
    [by vm_compute | done | done].
Qed.

(** exchanging the two middle terms of a xor of four, bit by bit *)
Lemma lxor_swap_inner a b c d :
  Z.lxor (Z.lxor a b) (Z.lxor c d) = Z.lxor (Z.lxor a c) (Z.lxor b d).
Proof.
  apply Z.bits_inj'. intros n _. rewrite !Z.lxor_spec.
  generalize (Z.testbit a n), (Z.testbit b n), (Z.testbit c n), (Z.testbit d n).
  intros. btauto.
Qed.

Lemma additive_xtime : additive AES.xtime.
Proof. split; [apply xtime_u8 | apply xtime_lxor]. Qed.

Lemma additive_id : additive (fun x => x).
Proof. by split. Qed.

Lemma additive_compose g h : additive g → additive h → additive (fun x => g (h x)).
Proof.
  intros [Hg1 Hg2] [Hh1 Hh2]. split; [auto|].
  intros a b Ha Hb. rewrite Hh2, Hg2; auto.
Qed.

Lemma additive_lxor g h : additive g → additive h → additive (fun x => Z.lxor (g x) (h x)).
Proof.
  intros [Hg1 Hg2] [Hh1 Hh2]. split; [intros; apply lxor_u8; auto|].
  intros a b Ha Hb. rewrite Hg2, Hh2 by done. apply lxor_swap_inner.
Qed.

Ltac additive_solve :=
  repeat first
    [ apply additive_xtime
    | apply additive_id
    | apply (additive_lxor (fun x => _) (fun x => _))
    | apply (additive_compose AES.xtime (fun x => _)) ].

Lemma additive_mul2 : additive AES.mul2.
Proof. apply additive_xtime. Qed.
Lemma additive_mul3 : additive AES.mul3.
Proof. unfold AES.mul3. additive_solve. Qed.
Lemma additive_mul9 : additive AES.mul9.
Proof. unfold AES.mul9. additive_solve. Qed.
Lemma additive_mul11 : additive AES.mul11.
Proof. unfold AES.mul11. additive_solve. Qed.
Lemma additive_mul13 : additive AES.mul13.
Proof. unfold AES.mul13. additive_solve. Qed.
Lemma additive_mul14 : additive AES.mul14.
Proof. unfold AES.mul14. additive_solve. Qed.

Lemma additive4 g a b c d :
  additive g → u8 a → u8 b → u8 c → u8 d →
  g (Z.lxor (Z.lxor (Z.lxor a b) c) d)
  = Z.lxor (Z.lxor (Z.lxor (g a) (g b)) (g c)) (g d).
Proof.
  intros [Hg1 Hg2] Ha Hb Hc Hd.
  rewrite !Hg2; auto using lxor_u8.
Qed.

(** the sixteen terms of a row of the product, regrouped by input byte *)
Lemma lxor_transpose
    a0 a1 a2 a3 b0 b1 b2 b3 c0 c1 c2 c3 d0 d1 d2 d3 :
  Z.lxor (Z.lxor (Z.lxor
    (Z.lxor (Z.lxor (Z.lxor a0 b0) c0) d0)
    (Z.lxor (Z.lxor (Z.lxor a1 b1) c1) d1))
    (Z.lxor (Z.lxor (Z.lxor a2 b2) c2) d2))
    (Z.lxor (Z.lxor (Z.lxor a3 b3) c3) d3)
  = Z.lxor (Z.lxor (Z.lxor
    (Z.lxor (Z.lxor (Z.lxor a0 a1) a2) a3)
    (Z.lxor (Z.lxor (Z.lxor b0 b1) b2) b3))
    (Z.lxor (Z.lxor (Z.lxor c0 c1) c2) c3))
    (Z.lxor (Z.lxor (Z.lxor d0 d1) d2) d3).
Proof.
  apply Z.bits_inj'. intros n _. rewrite !Z.lxor_spec.
  generalize (Z.testbit a0 n), (Z.testbit a1 n), (Z.testbit a2 n), (Z.testbit a3 n),
    (Z.testbit b0 n), (Z.testbit b1 n), (Z.testbit b2 n), (Z.testbit b3 n),
    (Z.testbit c0 n), (Z.testbit c1 n), (Z.testbit c2 n), (Z.testbit c3 n),
    (Z.testbit d0 n), (Z.testbit d1 n), (Z.testbit d2 n), (Z.testbit d3 n).
  intros. btauto.
Qed.

(** the product is the identity matrix, entry by entry and byte by byte *)
Lemma product_is_identity :
  forallb (fun x =>
    forallb (fun r =>
      forallb (fun c =>
        entry (nth r inv_rows []) (nth c fwd_cols []) x
        =? (if (r =? c)%nat then x else 0))
        (seq 0 4)) (seq 0 4)) byte_values = true.
Proof. by vm_compute. Qed.

Lemma entry_spec (r c : nat) x :
  (r < 4)%nat → (c < 4)%nat → u8 x →
  entry (nth r inv_rows []) (nth c fwd_cols []) x = if (r =? c)%nat then x else 0.
Proof.
  intros Hr Hc Hx.
  pose proof (byte_forall _ product_is_identity x Hx) as H.
  rewrite forallb_forall in H.
  specialize (H r ltac:(apply in_seq; lia)).
  rewrite forallb_forall in H.
  specialize (H c ltac:(apply in_seq; lia)).
  by apply Z.eqb_eq.
Qed.

Lemma mix_column_u8 a b c d :
  u8 a → u8 b → u8 c → u8 d → Forall u8 (AES.mix_column a b c d).
Proof.
  intros. unfold AES.mix_column.
  pose proof (proj1 additive_mul2). pose proof (proj1 additive_mul3).
  repeat (apply Forall_cons; split); [..|apply Forall_nil]; auto 10 using lxor_u8.
Qed.

Lemma inv_mix_column_u8 a b c d :
  u8 a → u8 b → u8 c → u8 d → Forall u8 (AES.inv_mix_column a b c d).
Proof.
  intros. unfold AES.inv_mix_column.
  pose proof (proj1 additive_mul9). pose proof (proj1 additive_mul11).
  pose proof (proj1 additive_mul13). pose proof (proj1 additive_mul14).
  repeat (apply Forall_cons; split); [..|apply Forall_nil]; auto 10 using lxor_u8.
Qed.

Lemma inv_mix_row w0 w1 w2 w3 a b c d :
  additive w0 → additive w1 → additive w2 → additive w3 →
  u8 a → u8 b → u8 c → u8 d →
  Z.lxor (Z.lxor (Z.lxor
    (w0 (Z.lxor (Z.lxor (Z.lxor (AES.mul2 a) (AES.mul3 b)) c) d))
    (w1 (Z.lxor (Z.lxor (Z.lxor a (AES.mul2 b)) (AES.mul3 c)) d)))
    (w2 (Z.lxor (Z.lxor (Z.lxor a b) (AES.mul2 c)) (AES.mul3 d))))
    (w3 (Z.lxor (Z.lxor (Z.lxor (AES.mul3 a) b) c) (AES.mul2 d)))
  = Z.lxor (Z.lxor (Z.lxor
      (entry [w0; w1; w2; w3] [AES.mul2; idf; idf; AES.mul3] a)
      (entry [w0; w1; w2; w3] [AES.mul3; AES.mul2; idf; idf] b))
      (entry [w0; w1; w2; w3] [idf; AES.mul3; AES.mul2; idf] c))
      (entry [w0; w1; w2; w3] [idf; idf; AES.mul3; AES.mul2] d).
Proof.
  intros H0 H1 H2 H3 Ha Hb Hc Hd.
  pose proof (proj1 additive_mul2). pose proof (proj1 additive_mul3).
  rewrite (additive4 w0), (additive4 w1), (additive4 w2), (additive4 w3) by auto.
  unfold entry, idf. apply lxor_transpose.
Qed.

Ltac use_entry r c x :=
  let H := fresh in
  pose proof (entry_spec r c x ltac:(lia) ltac:(lia) ltac:(assumption)) as H;
  cbv [nth inv_rows fwd_cols Nat.eqb] in H; rewrite H; clear H.

Lemma inv_mix_column_mix_column a b c d :
  u8 a → u8 b → u8 c → u8 d →
  match AES.mix_column a b c d with
  | [w; x; y; z] => AES.inv_mix_column w x y z
  | _ => []
  end = [a; b; c; d].
Proof.
  intros Ha Hb Hc Hd. unfold AES.mix_column, AES.inv_mix_column.
  pose proof additive_mul9. pose proof additive_mul11.
  pose proof additive_mul13. pose proof additive_mul14.
  rewrite !inv_mix_row by done.
  use_entry 0%nat 0%nat a; use_entry 0%nat 1%nat b;
  use_entry 0%nat 2%nat c; use_entry 0%nat 3%nat d.
  use_entry 1%nat 0%nat a; use_entry 1%nat 1%nat b;
  use_entry 1%nat 2%nat c; use_entry 1%nat 3%nat d.
  use_entry 2%nat 0%nat a; use_entry 2%nat 1%nat b;
  use_entry 2%nat 2%nat c; use_entry 2%nat 3%nat d.
  use_entry 3%nat 0%nat a; use_entry 3%nat 1%nat b;
  use_entry 3%nat 2%nat c; use_entry 3%nat 3%nat d.
  simpl. by rewrite !Z.lxor_0_r, !Z.lxor_0_l.
Qed.

Lemma InvMixColumns_MixColumns st :
  Forall u8 st → AES.InvMixColumns (AES.MixColumns st) = st.
Proof.
  assert (H : ∀ n st, (length st ≤ n)%nat → Forall u8 st →
                      AES.InvMixColumns (AES.MixColumns st) = st).
  { clear st. induction n as [|n IH]; intros st Hn Hst.
    - destruct st; [done | simpl in Hn; lia].
    - destruct st as [|a [|b [|c [|d st]]]]; try done.
      repeat (apply Forall_cons in Hst as [? Hst]).
      cbn [AES.MixColumns].
      pose proof (inv_mix_column_mix_column a b c d) as E.
      unfold AES.mix_column in *. cbn [app AES.InvMixColumns].
      rewrite E by done. cbn [app]. do 4 f_equal.
      apply IH; [simpl in Hn; lia | done]. }
  intros. by apply (H (length st)).
Qed.

Lemma MixColumns_length st : length (AES.MixColumns st) = length st.
Proof.
  assert (H : ∀ n st, (length st ≤ n)%nat →
                      length (AES.MixColumns st) = length st).
  { clear st. induction n as [|n IH]; intros st Hn.
    - destruct st; [done | simpl in Hn; lia].
    - destruct st as [|a [|b [|c [|d st]]]]; try done.
      cbn [AES.MixColumns AES.mix_column app length].
      rewrite IH; [done | simpl in Hn; lia]. }
  by apply (H (length st)).
Qed.

Lemma MixColumns_u8 st : Forall u8 st → Forall u8 (AES.MixColumns st).
Proof.
  assert (H : ∀ n st, (length st ≤ n)%nat → Forall u8 st →
                      Forall u8 (AES.MixColumns st)).
  { clear st. induction n as [|n IH]; intros st Hn Hst.
    - destruct st; [done | simpl in Hn; lia].
    - destruct st as [|a [|b [|c [|d st]]]]; try done.
      repeat (apply Forall_cons in Hst as [? Hst]).
      cbn [AES.MixColumns]. apply Forall_app. split.
      + by apply mix_column_u8.
      + apply IH; [simpl in Hn; lia | done]. }
  intros. by apply (H (length st)).
Qed.

(** ** The key schedule yields Nr + 1 round keys, each a block *)

Lemma xor_bytes_word4 a b : word4 a → word4 b → word4 (xor_bytes a b).
Proof.
  intros [La Ua] [Lb Ub]. split; [|by apply xor_bytes_u8].
  rewrite xor_bytes_length; congruence.
Qed.

Lemma SubWord_word4 w : length w = 4%nat → word4 (AES.SubWord w).
Proof.
  intros H. split; [unfold AES.SubWord; by rewrite length_map|].
  apply SubBytes_u8.
Qed.

Lemma Rcon_word4 j : word4 (AES.Rcon j).
Proof.
  split; [done|]. unfold AES.Rcon.
  repeat (apply Forall_cons; split); [..|apply Forall_nil]; try (unfold u8; lia).
  induction (j - 1)%nat as [|n IH]; simpl; [unfold u8; lia | by apply xtime_u8].
Qed.

Lemma words_word4 n key :
  length key = (4 * n)%nat → Forall u8 key →
  Forall word4 (AES.words n key) ∧ length (AES.words n key) = n.
Proof.
  revert key. induction n as [|n IH]; intros key Hl Hu; simpl; [by split|].
  destruct (IH (drop 4 key)) as [IH1 IH2].
  { rewrite length_drop. lia. }
  { by apply Forall_drop. }
  split; [|by rewrite IH2].
  constructor; [|done]. split; [rewrite length_take; lia | by apply Forall_take].
Qed.

Lemma nth_word4 w k : Forall word4 w → (k < length w)%nat → word4 (nth k w []).
Proof.
  intros Hw Hk. eapply Forall_forall; [exact Hw|].
  apply list_elem_of_In, nth_In, Hk.
Qed.

Lemma next_word_word4 Nk i w :
  Forall word4 w → length w = i → (0 < Nk ≤ i)%nat → word4 (AES.next_word Nk i w).
Proof.
  intros Hw Hl Hi. unfold AES.next_word.
  assert (H1 : word4 (nth (i - 1) w [])) by (apply nth_word4; [done | lia]).
  assert (H2 : word4 (nth (i - Nk) w [])) by (apply nth_word4; [done | lia]).
  apply xor_bytes_word4; [done|].
  destruct (i mod Nk =? 0)%nat.
  - apply xor_bytes_word4; [|apply Rcon_word4].
    apply SubWord_word4. unfold AES.RotWord.
    rewrite length_app, length_drop, length_take. destruct H1 as [-> _]. lia.
  - destruct ((6 <? Nk)%nat && (i mod Nk =? 4)%nat); [|done].
    apply SubWord_word4. by destruct H1.
Qed.

Lemma expand_word4 fuel Nk i w :
  Forall word4 w → length w = i → (0 < Nk ≤ i)%nat →
  Forall word4 (AES.expand fuel Nk i w)
  ∧ length (AES.expand fuel Nk i w) = (i + fuel)%nat.
Proof.
  revert i w. induction fuel as [|fuel IH]; intros i w Hw Hl Hi; simpl.
  - split; [done | lia].
  - destruct (IH (S i) (w ++ [AES.next_word Nk i w])) as [IH1 IH2].
    + apply Forall_app. split; [done|]. constructor; [|constructor].
      by apply next_word_word4.
    + rewrite length_app. simpl. lia.
    + lia.
    + split; [done | lia].
Qed.

Lemma concat4_block w :
  Forall word4 w → (4 ≤ length w)%nat → block (concat (take 4 w)).
Proof.
  intros Hw Hl.
  do 4 (destruct w as [|? w]; [simpl in Hl; lia|]).
  repeat (apply Forall_cons in Hw as [[? ?] Hw]).
  cbn [take concat]. rewrite app_nil_r. split.
  - rewrite !length_app. lia.
  - rewrite !Forall_app. tauto.
Qed.

Lemma round_keys_block n w :
  Forall word4 w → (4 * n ≤ length w)%nat →
  Forall block (AES.round_keys n w) ∧ length (AES.round_keys n w) = n.
Proof.
  revert w. induction n as [|n IH]; intros w Hw Hl; simpl; [by split|].
  destruct (IH (drop 4 w)) as [IH1 IH2].
  { by apply Forall_drop. }
  { rewrite length_drop. lia. }
  split; [|by rewrite IH2].
  constructor; [|done]. apply concat4_block; [done | lia].
Qed.

Lemma key_size_ok_spec key :
  AES.key_size_ok key = true ↔
  (length key = 16 ∨ length key = 24 ∨ length key = 32)%nat.
Proof. unfold AES.key_size_ok. apply bool_decide_eq_true. Qed.

Lemma KeyExpansion_blocks key :
  AES.key_size_ok key = true → Forall u8 key →
  Forall block (AES.KeyExpansion key) ∧ (2 ≤ length (AES.KeyExpansion key))%nat.
Proof.
  intros Hk Hu. apply key_size_ok_spec in Hk. unfold AES.KeyExpansion.
  set (Nk := (length key / 4)%nat).
  assert (HNk : length key = (4 * Nk)%nat ∧ (4 ≤ Nk ≤ 8)%nat).
  { unfold Nk. destruct Hk as [Hk | [Hk | Hk]]; rewrite Hk; cbn; lia. }
  destruct HNk as [HNk1 HNk2].
  destruct (words_word4 Nk key HNk1 Hu) as [Hw1 Hw2].
  destruct (expand_word4 (4 * S (Nk + 6) - Nk) Nk Nk _ Hw1 Hw2 ltac:(lia))
    as [He1 He2].
  destruct (round_keys_block (S (Nk + 6)) _ He1 ltac:(lia)) as [Hr1 Hr2].
  split; [done | lia].
Qed.

(** ** Cipher and InvCipher on blocks *)

Lemma AddRoundKey_block st k : block st → block k → block (AES.AddRoundKey st k).
Proof.
  intros [L1 U1] [L2 U2]. unfold AES.AddRoundKey. split.
  - rewrite xor_bytes_length; congruence.
  - by apply xor_bytes_u8.
Qed.

Lemma SubBytes_block st : block st → block (AES.SubBytes st).
Proof. intros [L U]. split; [by rewrite SubBytes_length | apply SubBytes_u8]. Qed.

Lemma ShiftRows_block st : block st → block (AES.ShiftRows st).
Proof. intros [L U]. split; [by rewrite ShiftRows_length | by apply ShiftRows_u8]. Qed.

Lemma MixColumns_block st : block st → block (AES.MixColumns st).
Proof. intros [L U]. split; [by rewrite MixColumns_length | by apply MixColumns_u8]. Qed.

Lemma round_block st k : block st → block k → block (AES.round st k).
Proof.
  intros. unfold AES.round.
  auto using AddRoundKey_block, MixColumns_block, ShiftRows_block, SubBytes_block.
Qed.

Lemma final_round_block st k : block st → block k → block (AES.final_round st k).
Proof.
  intros. unfold AES.final_round.
  auto using AddRoundKey_block, ShiftRows_block, SubBytes_block.
Qed.

Lemma rounds_snoc st mid kN :
  AES.rounds st (mid ++ [kN]) = AES.final_round (foldl AES.round st mid) kN.
Proof.
  revert st. induction mid as [|k mid IH]; intros st; [done|].
  cbn [app foldl]. rewrite <- IH. simpl. by destruct (mid ++ [kN]) eqn:E;
    [destruct mid; discriminate|].
Qed.

Lemma inv_rounds_snoc st l k0 :
  AES.inv_rounds st (l ++ [k0]) = AES.inv_final_round (foldl AES.inv_round st l) k0.
Proof.
  revert st. induction l as [|k l IH]; intros st; [done|].
  cbn [app foldl]. rewrite <- IH. simpl. by destruct (l ++ [k0]) eqn:E;
    [destruct l; discriminate|].
Qed.

Lemma foldl_round_block st mid :
  block st → Forall block mid → block (foldl AES.round st mid).
Proof.
  intros Hst Hmid. revert st Hst.
  induction Hmid as [|k mid Hk _ IH]; intros st Hst; simpl; [done|].
  apply IH. by apply round_block.
Qed.

Lemma Cipher_block ks b : Forall block ks → block b → block (AES.Cipher ks b).
Proof.
  intros Hks Hb. destruct Hks as [|k0 ks Hk0 Hks]; [done|]. simpl.
  assert (H0 : block (AES.AddRoundKey b k0)) by by apply AddRoundKey_block.
  revert H0. generalize (AES.AddRoundKey b k0). clear Hb b.
  induction ks as [|kl ksl _] using rev_ind; [done|].
  intros st Hst. rewrite rounds_snoc.
  apply Forall_app in Hks as [Hmid HkN]. apply Forall_cons in HkN as [HkN _].
  apply final_round_block; [|done]. by apply foldl_round_block.
Qed.

Lemma undo_sub_shift st :
  block st → AES.InvSubBytes (AES.InvShiftRows (AES.ShiftRows (AES.SubBytes st))) = st.
Proof.
  intros [L U]. rewrite InvShiftRows_ShiftRows by by rewrite SubBytes_length.
  by apply InvSubBytes_SubBytes.
Qed.

Lemma AddRoundKey_cancel st k :
  block st → block k → AES.AddRoundKey (AES.AddRoundKey st k) k = st.
Proof. intros [L _] [L' _]. apply xor_bytes_cancel. congruence. Qed.

(** undoing the middle rounds, last one first *)
Lemma inv_rounds_middle st mid :
  block st → Forall block mid →
  foldl AES.inv_round (AES.ShiftRows (AES.SubBytes (foldl AES.round st mid)))
    (reverse mid)
  = AES.ShiftRows (AES.SubBytes st).
Proof.
  intros Hst Hmid. revert st Hst.
  induction Hmid as [|k mid Hk _ IH]; intros st Hst; [done|].
  rewrite reverse_cons, foldl_app. cbn [foldl].
  rewrite IH by by apply round_block.
  unfold AES.inv_round at 1. rewrite undo_sub_shift by by apply round_block.
  unfold AES.round. rewrite AddRoundKey_cancel; [|
    auto using MixColumns_block, ShiftRows_block, SubBytes_block | done].
  apply InvMixColumns_MixColumns.
  apply ShiftRows_block, SubBytes_block; done.
Qed.

Lemma InvCipher_Cipher ks b :
  Forall block ks → (2 ≤ length ks)%nat → block b →
  AES.InvCipher ks (AES.Cipher ks b) = b.
Proof.
  intros Hks Hlen Hb.
  destruct ks as [|k0 ks]; [simpl in Hlen; lia|].
  induction ks as [|kN mid _] using rev_ind; [simpl in Hlen; lia|].
  apply Forall_cons in Hks as [Hk0 Hks].
  apply Forall_app in Hks as [Hmid HkN]. apply Forall_cons in HkN as [HkN _].
  unfold AES.InvCipher, AES.Cipher.
  rewrite reverse_cons, reverse_app. cbn [reverse app]. 
  change (reverse [kN]) with [kN]. cbn [app].
  rewrite rounds_snoc, inv_rounds_snoc.
  assert (H0 : block (AES.AddRoundKey b k0)) by by apply AddRoundKey_block.
  unfold AES.final_round at 1.
  rewrite AddRoundKey_cancel; [| |done].
  2:{ apply ShiftRows_block, SubBytes_block. by apply foldl_round_block. }
  rewrite inv_rounds_middle by done.
  unfold AES.inv_final_round. rewrite undo_sub_shift by done.
  by apply AddRoundKey_cancel.
Qed.


(** * The cipher object: ECB and CBC over whole blocks *)

Lemma new_ECB key :
  AES.key_size_ok key = true →
  AES.new key AES.MODE_ECB []
  = Ok (AES.mk_cipher (AES.KeyExpansion key) AES.MODE_ECB []).
Proof. intros H. unfold AES.new. by rewrite H. Qed.

Lemma new_CBC key iv :
  AES.key_size_ok key = true → length iv = 16%nat →
  AES.new key AES.MODE_CBC iv
  = Ok (AES.mk_cipher (AES.KeyExpansion key) AES.MODE_CBC iv).
Proof.
  intros H Hiv. unfold AES.new. rewrite H. simpl.
  by rewrite bool_decide_eq_true_2.
Qed.

Lemma new_inv key m iv c :
  AES.new key m iv = Ok c →
  AES.key_size_ok key = true ∧ AES.ks c = AES.KeyExpansion key ∧ AES.cmode c = m
  ∧ (m = AES.MODE_CBC → AES.IV c = iv ∧ length iv = 16%nat).
Proof.
  unfold AES.new. destruct (AES.key_size_ok key); [|discriminate]. simpl.
  destruct m.
  - intros [= <-]. by repeat split.
  - case_bool_decide; [|discriminate]. intros [= <-]. by repeat split.
Qed.

Lemma block_take16 data :
  Forall u8 data → (16 ≤ length data)%nat → block (take 16 data).
Proof. intros. split; [rewrite length_take; lia | by apply Forall_take]. Qed.

Lemma cbc_encrypt_spec n ks iv data :
  Forall block ks → block iv → Forall u8 data → length data = (16 * n)%nat →
  length (AES.cbc_encrypt n ks iv data) = (16 * n)%nat
  ∧ Forall u8 (AES.cbc_encrypt n ks iv data).
Proof.
  intros Hks. revert iv data.
  induction n as [|n IH]; intros iv data Hiv Hd Hl; simpl; [by split|].
  assert (Hc : block (AES.Cipher ks (xor_bytes (take 16 data) iv))).
  { apply Cipher_block; [done|]. apply AddRoundKey_block; [|done].
    apply block_take16; [done | lia]. }
  destruct (IH (AES.Cipher ks (xor_bytes (take 16 data) iv)) (drop 16 data))
    as [IH1 IH2]; [done | by apply Forall_drop | rewrite length_drop; lia |].
  destruct Hc as [Hc1 Hc2]. split.
  - rewrite length_app, IH1, Hc1. lia.
  - by apply Forall_app.
Qed.

Lemma cbc_decrypt_encrypt n ks iv data :
  Forall block ks → (2 ≤ length ks)%nat → block iv →
  Forall u8 data → length data = (16 * n)%nat →
  AES.cbc_decrypt n ks iv (AES.cbc_encrypt n ks iv data) = data.
Proof.
  intros Hks Hlen. revert iv data.
  induction n as [|n IH]; intros iv data Hiv Hd Hl; simpl.
  - destruct data; [done | simpl in Hl; lia].
  - assert (Hb : block (xor_bytes (take 16 data) iv)).
    { apply AddRoundKey_block; [|done]. apply block_take16; [done | lia]. }
    assert (Hc : block (AES.Cipher ks (xor_bytes (take 16 data) iv)))
      by by apply Cipher_block.
    destruct Hc as [Hc1 Hc2].
    rewrite take_app_length' by done. rewrite drop_app_length' by done.
    rewrite InvCipher_Cipher by done.
    rewrite xor_bytes_cancel.
    2:{ rewrite length_take. destruct Hiv as [-> _]. lia. }
    rewrite IH; [apply take_drop | by split | by apply Forall_drop |
                 rewrite length_drop; lia].
Qed.

(** the last ciphertext block is the running block of the chain *)
Lemma cbc_encrypt_last n ks iv data :
  Forall block ks → block iv → Forall u8 data → length data = (16 * S n)%nat →
  last_n 16 (AES.cbc_encrypt (S n) ks iv data) = cbc_chain ks iv (chunks (S n) data).
Proof.
  intros Hks. revert iv data.
  induction n as [|n IH]; intros iv data Hiv Hd Hl.
  - simpl. rewrite app_nil_r. unfold last_n.
    assert (Hc : block (AES.Cipher ks (xor_bytes (take 16 data) iv))).
    { apply Cipher_block; [done|]. apply AddRoundKey_block; [|done].
      apply block_take16; [done | lia]. }
    destruct Hc as [-> _]. by rewrite Nat.sub_diag.
  - set (c := AES.Cipher ks (xor_bytes (take 16 data) iv)).
    change (AES.cbc_encrypt (S (S n)) ks iv data)
      with (c ++ AES.cbc_encrypt (S n) ks c (drop 16 data)).
    change (cbc_chain ks iv (chunks (S (S n)) data))
      with (cbc_chain ks c (chunks (S n) (drop 16 data))).
    assert (Hc : block c).
    { apply Cipher_block; [done|]. apply AddRoundKey_block; [|done].
      apply block_take16; [done | lia]. }
    rewrite <- (IH c (drop 16 data));
      [| done | by apply Forall_drop | rewrite length_drop; lia].
    destruct (cbc_encrypt_spec (S n) ks c (drop 16 data)) as [L _];
      [done | done | by apply Forall_drop | rewrite length_drop; lia |].
    unfold last_n. rewrite length_app, L. destruct Hc as [Hc1 _]. rewrite Hc1.
    replace (16 + 16 * S n - 16)%nat with (length c + (16 * S n - 16))%nat by lia.
    by rewrite drop_app_add.
Qed.

Lemma encrypt_CBC_spec key iv data c :
  AES.new key AES.MODE_CBC iv = Ok c →
  (length data mod 16 = 0)%nat →
  AES.encrypt c data
  = Ok (AES.cbc_encrypt (length data / 16) (AES.KeyExpansion key) iv data).
Proof.
  intros (_ & Hks & Hm & Hiv)%new_inv Hl. destruct (Hiv eq_refl) as [Hiv1 _].
  unfold AES.encrypt, AES.block_size. rewrite Hl, Hm, Hks, Hiv1. done.
Qed.

Lemma decrypt_CBC_spec key iv data c :
  AES.new key AES.MODE_CBC iv = Ok c →
  (length data mod 16 = 0)%nat →
  AES.decrypt c data
  = Ok (AES.cbc_decrypt (length data / 16) (AES.KeyExpansion key) iv data).
Proof.
  intros (_ & Hks & Hm & Hiv)%new_inv Hl. destruct (Hiv eq_refl) as [Hiv1 _].
  unfold AES.decrypt, AES.block_size. rewrite Hl, Hm, Hks, Hiv1. done.
Qed.

Lemma encrypt_ECB_block key blk c :
  AES.new key AES.MODE_ECB [] = Ok c → length blk = 16%nat →
  AES.encrypt c blk = Ok (AES.Cipher (AES.KeyExpansion key) blk).
Proof.
  intros (_ & Hks & Hm & _)%new_inv Hl.
  unfold AES.encrypt, AES.block_size. rewrite Hl, Hm, Hks. simpl.
  rewrite app_nil_r. by rewrite take_ge by lia.
Qed.

(** * Padding *)

Lemma pad80_length s : (length (pad80 s 16) mod 16 = 0)%nat ∧
                       (length s < length (pad80 s 16) ≤ length s + 16)%nat.
Proof.
  unfold pad80. rewrite !length_app, length_replicate. cbn [length].
  pose proof (Nat.mod_upper_bound (length s) 16 ltac:(lia)) as Hm.
  pose proof (Nat.div_mod_eq (length s) 16) as Hd.
  split; [|lia].
  replace (length s + (1 + (16 - 1 - length s mod 16)))%nat
    with ((length s / 16 + 1) * 16)%nat by lia.
  apply Nat.Div0.mod_mul.
Qed.

Lemma pad80_u8 s : Forall u8 s → Forall u8 (pad80 s 16).
Proof.
  intros. unfold pad80. rewrite !Forall_app. split; [done|]. split.
  - apply Forall_singleton. unfold u8. lia.
  - apply Forall_u8_replicate.
Qed.

Lemma strip_zeros_replicate n r : strip_zeros (replicate n 0 ++ 128 :: r) = 128 :: r.
Proof. induction n as [|n IH]; simpl; done. Qed.

Lemma unpad80_pad80 s BS BS' : unpad80 (pad80 s BS) BS' = Ok s.
Proof.
  unfold unpad80, pad80. rewrite !reverse_app, reverse_replicate.
  change (reverse [128]) with [128]. rewrite <- app_assoc. cbn [app].
  rewrite strip_zeros_replicate. simpl. by rewrite reverse_involutive.
Qed.

Lemma l2s_u8 l : Forall u8 l → l2s l = Ok l.
Proof.
  induction 1 as [|x l Hx _ IH]; [done|]. simpl. unfold chr.
  apply is_u8_spec in Hx. rewrite Hx. simpl. by rewrite IH.
Qed.

Lemma l2s_inv l s : l2s l = Ok s → s = l ∧ Forall u8 l.
Proof.
  revert s. induction l as [|x l IH]; intros s; simpl.
  - intros [= <-]. by split.
  - unfold chr. destruct (is_u8 x) eqn:Hx; [|discriminate]. simpl.
    destruct (l2s l) as [s'|]; [|discriminate]. simpl. intros [= <-].
    destruct (IH s' eq_refl) as [-> Hl]. split; [done|].
    constructor; [by apply is_u8_spec | done].
Qed.

(** * [DEK.encrypt] *)

Lemma dek_padded_length data :
  (length (dek_padded data) mod 16 = 0)%nat
  ∧ length (dek_padded data) = (16 * ((length data + 15) / 16))%nat.
Proof.
  unfold dek_padded.
  pose proof (Nat.mod_upper_bound (length data) 16 ltac:(lia)) as Hm.
  pose proof (Nat.div_mod_eq (length data) 16) as Hd.
  destruct (length data mod 16 =? 0)%nat eqn:E.
  - apply Nat.eqb_eq in E. split; [done|].
    rewrite E in Hd. rewrite Hd at 2.
    replace (16 * (length data / 16) + 0 + 15)%nat
      with (15 + (length data / 16) * 16)%nat by lia.
    rewrite Nat.div_add by lia. change (15 / 16)%nat with 0%nat. lia.
  - apply Nat.eqb_neq in E.
    rewrite !length_app, length_replicate. cbn [length].
    assert (H1 : (length data + (1 + (15 - length data mod 16))
                  = (length data / 16 + 1) * 16)%nat) by lia.
    rewrite H1. split; [apply Nat.Div0.mod_mul|].
    assert (H2 : (length data + 15
                  = (length data mod 16 - 1) + (length data / 16 + 1) * 16)%nat) by lia.
    rewrite H2, Nat.div_add by lia.
    rewrite (Nat.div_small (length data mod 16 - 1) 16) by lia. lia.
Qed.


(** C9, as the code has it. For every DEK and byte string [data],
    [DEK.encrypt(data)] returns the AES-CBC encryption under a zero IV of
    [data] itself when [len(data)] is a multiple of 16, and of [data]
    followed by [0x80] and zeros up to the next 16-byte boundary otherwise;
    the ciphertext length is the least multiple of 16 that is at least
    [len(data)], so it equals [len(data)] exactly when the input is aligned. *)
Theorem DEK_encrypt_pads_unaligned_only (key data : bytes) (dek : DEK.t) :
  DEK.new key = Ok dek → all_u8 key = true → all_u8 data = true →
  ∃ ct,
    DEK.encrypt dek data = Ok ct
    ∧ ct = AES.cbc_encrypt (length (dek_padded data) / 16)
             (AES.KeyExpansion key) (replicate 16 0) (dek_padded data)
    ∧ length ct = (16 * ((length data + 15) / 16))%nat
    ∧ (length data ≤ length ct)%nat
    ∧ (length ct = length data ↔ (length data mod 16 = 0)%nat).
Proof.
  intros Hnew Hkey Hdata. apply all_u8_Forall in Hkey, Hdata.
  unfold DEK.new in Hnew.
  destruct (AES.key_size_ok key) eqn:Hok; [|discriminate].
  injection Hnew as <-.
  destruct (dek_padded_length data) as [Hmod Hlen].
  destruct (KeyExpansion_blocks key Hok Hkey) as [Hks _].
  assert (Hpad : Forall u8 (dek_padded data)).
  { unfold dek_padded. destruct (length data mod 16 =? 0)%nat; [done|].
    rewrite !Forall_app. split; [done|]. split; [|apply Forall_u8_replicate].
    apply Forall_singleton. unfold u8. lia. }
  assert (Hiv : block (replicate 16 0)).
  { split; [apply length_replicate | apply Forall_u8_replicate]. }
  pose proof (Nat.div_mod_eq (length (dek_padded data)) 16) as Hdm.
  destruct (cbc_encrypt_spec (length (dek_padded data) / 16) (AES.KeyExpansion key)
              (replicate 16 0) (dek_padded data) Hks Hiv Hpad ltac:(lia)) as [Hl _].
  eexists. split; [|split; [reflexivity|]].
  - unfold DEK.encrypt. cbn [DEK.keyValue].
    rewrite (new_CBC key (replicate 16 0) Hok (length_replicate _ _)).
    cbn [mbind result_bind].
    replace (if (0 <? length data mod 16)%nat
             then data ++ [128] ++ replicate (15 - length data mod 16) 0
             else data) with (dek_padded data).
    2:{ unfold dek_padded.
        destruct (length data mod 16)%nat eqn:E; reflexivity. }
    apply (encrypt_CBC_spec key (replicate 16 0)); [|done].
    apply new_CBC; [done | apply length_replicate].
  - rewrite Hl.
    pose proof (Nat.mod_upper_bound (length data) 16 ltac:(lia)) as Hm.
    pose proof (Nat.div_mod_eq (length data) 16) as Hd.
    assert (H16 : (16 * (length (dek_padded data) / 16)
                   = 16 * ((length data + 15) / 16))%nat) by lia.
    split; [exact H16|].
    assert (Hcases : ((length data mod 16 = 0 ∧
                       (length data + 15) / 16 = length data / 16)
                      ∨ (0 < length data mod 16 ∧
                         (length data + 15) / 16 = length data / 16 + 1))%nat).
    { destruct (decide (length data mod 16 = 0)%nat) as [E|E].
      - left. split; [done|].
        replace (length data + 15)%nat with (15 + (length data / 16) * 16)%nat by lia.
        rewrite Nat.div_add by lia. by change (15 / 16)%nat with 0%nat.
      - right. split; [lia|].
        replace (length data + 15)%nat
          with ((length data mod 16 - 1) + (length data / 16 + 1) * 16)%nat by lia.
        rewrite Nat.div_add by lia.
        by rewrite (Nat.div_small (length data mod 16 - 1) 16) by lia. }
    lia.
Qed.

Lemma DEK_encrypt_pads_unaligned_only_witness :
  let key := [0x98; 0x76; 0x54; 0x32; 0x10] ++ take 11 Test128.at_to_O in
  let data := [0x01; 0x02; 0x03] in
  ∃ dek ct,
    DEK.new key = Ok dek ∧ DEK.encrypt dek data = Ok ct
    ∧ ct = AES.cbc_encrypt (length (dek_padded data) / 16)
             (AES.KeyExpansion key) (replicate 16 0) (dek_padded data)
    ∧ length ct = (16 * ((length data + 15) / 16))%nat
    ∧ (length data ≤ length ct)%nat
    ∧ (length ct = length data ↔ (length data mod 16 = 0)%nat).
Proof.
  cbv zeta. eexists.
  assert (Hnew : DEK.new ([0x98; 0x76; 0x54; 0x32; 0x10] ++ take 11 Test128.at_to_O)
                 = Ok (DEK.mk ([0x98; 0x76; 0x54; 0x32; 0x10]
                               ++ take 11 Test128.at_to_O) true)) by reflexivity.
  destruct (DEK_encrypt_pads_unaligned_only _ [0x01; 0x02; 0x03] _ Hnew
              eq_refl eq_refl) as (ct & H).
  exists ct. split; [exact Hnew | exact H].
Defined.

(** C9 as stated fails: 16 bytes are encrypted as they are, into 16 bytes
    and not into 32, and the empty string into the empty string. *)
Lemma DEK_encrypt_aligned_not_padded :
  let key := [0x98; 0x76; 0x54; 0x32; 0x10] ++ take 11 Test128.at_to_O in
  (dek ← DEK.new key; ct ← DEK.encrypt dek (replicate 16 0); Ok (length ct))
  = Ok 16%nat
  ∧ (dek ← DEK.new key; DEK.encrypt dek []) = Ok [].
Proof. split; vm_compute; reflexivity. Qed.


(** * Big-endian packing *)

Lemma be_decode_snoc l b : be_decode (l ++ [b]) = be_decode l * 256 + b.
Proof. unfold be_decode. by rewrite foldl_app. Qed.

Lemma be_decode_app a b :
  be_decode (a ++ b) = be_decode a * 256 ^ Z.of_nat (length b) + be_decode b.
Proof.
  induction b as [|x b IH] using rev_ind.
  - rewrite app_nil_r. simpl. unfold be_decode at 3. simpl. lia.
  - rewrite app_assoc, !be_decode_snoc, IH, length_app.
    rewrite Nat2Z.inj_add, Z.pow_add_r by lia.
    change (256 ^ Z.of_nat (length [x])) with 256. lia.
Qed.

Lemma be_decode_range l : Forall u8 l → 0 ≤ be_decode l < 256 ^ Z.of_nat (length l).
Proof.
  induction l as [|x l IH] using rev_ind; intros H.
  - by vm_compute.
  - apply Forall_app in H as [Hl Hx]. apply Forall_cons in Hx as [Hx _].
    specialize (IH Hl). rewrite be_decode_snoc, length_app.
    rewrite Nat2Z.inj_add, Z.pow_add_r by lia.
    change (256 ^ Z.of_nat (length [x])) with 256.
    unfold u8 in Hx. set (P := 256 ^ Z.of_nat (length l)) in *. lia.
Qed.

Lemma be_encode_S n v : be_encode (S n) v = be_encode n (v / 256) ++ [v mod 256].
Proof. reflexivity. Qed.

Lemma be_encode_length n v : length (be_encode n v) = n.
Proof.
  revert v. induction n as [|n IH]; intros v; simpl; [done|].
  rewrite length_app, IH. simpl. lia.
Qed.

Lemma be_encode_u8 n v : Forall u8 (be_encode n v).
Proof.
  revert v. induction n as [|n IH]; intros v; simpl; [constructor|].
  apply Forall_app. split; [apply IH|]. apply Forall_singleton.
  unfold u8. apply Z.mod_pos_bound. lia.
Qed.

Lemma be_encode_add n m v :
  be_encode (n + m) v = be_encode n (v / 256 ^ Z.of_nat m) ++ be_encode m v.
Proof.
  revert v. induction m as [|m IH]; intros v.
  - rewrite Nat.add_0_r. simpl. by rewrite Z.div_1_r, app_nil_r.
  - rewrite Nat.add_succ_r. cbn [be_encode]. rewrite IH, <- app_assoc. do 2 f_equal.
    rewrite Z.div_div by (try apply Z.pow_pos_nonneg; lia).
    do 2 f_equal. rewrite Nat2Z.inj_succ, Z.pow_succ_r by lia. lia.
Qed.

Lemma be_encode_mod m v : be_encode m (v mod 256 ^ Z.of_nat m) = be_encode m v.
Proof.
  revert v. induction m as [|m IH]; intros v; [done|].
  cbn [be_encode]. rewrite Nat2Z.inj_succ, Z.pow_succ_r by lia.
  assert (Hp : 0 < 256 ^ Z.of_nat m) by (apply Z.pow_pos_nonneg; lia).
  rewrite Z.rem_mul_r by lia.
  assert (H1 : (v mod 256 + 256 * ((v / 256) mod 256 ^ Z.of_nat m)) / 256
               = (v / 256) mod 256 ^ Z.of_nat m).
  { rewrite Z.mul_comm, Z.div_add by lia.
    rewrite Z.div_small by (apply Z.mod_pos_bound; lia). lia. }
  assert (H2 : (v mod 256 + 256 * ((v / 256) mod 256 ^ Z.of_nat m)) mod 256
               = v mod 256).
  { rewrite Z.mul_comm, Z.mod_add by lia. apply Z.mod_mod. lia. }
  by rewrite H1, H2, IH.
Qed.

Lemma pack_uint_Ok n v :
  0 ≤ v < 2 ^ (8 * Z.of_nat n) → pack_uint n v = Ok (be_encode n v).
Proof.
  intros [H1 H2]. unfold pack_uint.
  apply Z.leb_le in H1. apply Z.ltb_lt in H2. by rewrite H1, H2.
Qed.

(** * [polyMulX] is the doubling of the specification *)

Lemma lxor_low_byte B :
  Z.lxor B 0x87 / 256 = B / 256 ∧ Z.lxor B 0x87 mod 256 = Z.lxor (B mod 256) 0x87.
Proof.
  split.
  - change 256 with (2 ^ 8). rewrite <- !Z.shiftr_div_pow2 by lia.
    rewrite Z.shiftr_lxor. change (Z.shiftr 135 8) with 0. apply Z.lxor_0_r.
  - change 256 with (2 ^ 8). rewrite <- !Z.land_ones by lia.
    apply Z.bits_inj'. intros n Hn0.
    rewrite !Z.land_spec, !Z.lxor_spec, !Z.land_spec.
    destruct (decide (n < 8)) as [Hn|Hn].
    + rewrite Z.ones_spec_low by lia. by rewrite !andb_true_r.
    + rewrite Z.ones_spec_high by lia.
      rewrite (Z.bits_above_log2 135 n) by (simpl; lia).
      by rewrite !andb_false_r.
Qed.

Ltac dlia := Z.div_mod_to_equations; lia.

Ltac pow2_numerals :=
  change (2 ^ 1) with 2 in *;
  change (2 ^ 63) with 9223372036854775808 in *;
  change (2 ^ 64) with 18446744073709551616 in *;
  change (2 ^ 127) with 170141183460469231731687303715884105728 in *;
  change (2 ^ 128) with 340282366920938463463374607431768211456 in *.

Lemma polyMulX_spec blk :
  block blk → polyMulX blk = Ok (spec_mulX blk) ∧ block (spec_mulX blk).
Proof.
  intros [Hlen Hu8].
  set (hi := be_decode (take 8 blk)). set (lo := be_decode (drop 8 blk)).
  assert (Hhi : 0 ≤ hi < 2 ^ 64).
  { pose proof (be_decode_range (take 8 blk) (Forall_take _ _ _ Hu8)) as H.
    rewrite length_take, Hlen in H. exact H. }
  assert (Hlo : 0 ≤ lo < 2 ^ 64).
  { pose proof (be_decode_range (drop 8 blk) (Forall_drop _ _ _ Hu8)) as H.
    rewrite length_drop, Hlen in H. exact H. }
  assert (Hv : be_decode blk = hi * 2 ^ 64 + lo).
  { rewrite <- (take_drop 8 blk) at 1. rewrite be_decode_app, length_drop, Hlen.
    reflexivity. }
  set (A := (2 * hi) mod 2 ^ 64 + (if 2 ^ 63 <=? lo then 1 else 0)).
  set (B := (2 * lo) mod 2 ^ 64).
  assert (HA : 0 ≤ A < 2 ^ 64).
  { unfold A. pow2_numerals. destruct (9223372036854775808 <=? lo); dlia. }
  assert (HB : 0 ≤ B < 2 ^ 64) by (unfold B; pow2_numerals; dlia).
  assert (Hshift : Z.shiftl (be_decode blk) 1 mod 2 ^ 128 = A * 2 ^ 64 + B).
  { rewrite Z.shiftl_mul_pow2, Hv by lia. unfold A, B.
    destruct (2 ^ 63 <=? lo) eqn:E; [apply Z.leb_le in E | apply Z.leb_gt in E];
      pow2_numerals; dlia. }
  assert (Hbit : Z.testbit (be_decode blk) 127 = (2 ^ 63 <=? hi)).
  { rewrite Hv. destruct (2 ^ 63 <=? hi) eqn:E.
    - apply Z.leb_le in E. apply Z.testbit_true; [lia|].
      replace ((hi * 2 ^ 64 + lo) / 2 ^ 127) with 1 by (pow2_numerals; dlia). done.
    - apply Z.leb_gt in E. apply Z.testbit_false; [lia|].
      replace ((hi * 2 ^ 64 + lo) / 2 ^ 127) with 0 by (pow2_numerals; dlia). done. }
  assert (Henc : be_encode 16 (A * 2 ^ 64 + B) = be_encode 8 A ++ be_encode 8 B).
  { rewrite (be_encode_add 8 8). f_equal.
    - f_equal. change (256 ^ Z.of_nat 8) with (2 ^ 64). pow2_numerals. dlia.
    - rewrite <- be_encode_mod. f_equal. change (256 ^ Z.of_nat 8) with (2 ^ 64).
      pow2_numerals. dlia. }
  assert (Hsrc : polyMulX blk
                 = Ok (be_encode 8 A
                       ++ be_encode 8 (if 2 ^ 63 <=? hi then Z.lxor B 0x87 else B))).
  { unfold polyMulX, unpack_qq, len. rewrite Hlen.
    change (Z.of_nat 16 =? 16) with true. cbn iota beta.
    fold hi lo. rewrite rbind_Ok. cbn beta iota.
    unfold signed64. rewrite !Z.shiftl_mul_pow2 by lia.
    change (0x10000000000000000) with (2 ^ 64). 
    assert (E0 : ((if hi <? 2 ^ 63 then hi else hi - 2 ^ 64) <? 0) = (2 ^ 63 <=? hi)).
    { destruct (hi <? 2 ^ 63) eqn:E1; [apply Z.ltb_lt in E1 | apply Z.ltb_ge in E1].
      - rewrite (proj2 (Z.ltb_ge _ _)) by lia. symmetry. apply Z.leb_gt. lia.
      - rewrite (proj2 (Z.ltb_lt _ _)) by (pow2_numerals; dlia).
        symmetry. apply Z.leb_le. lia. }
    assert (E1 : ((if lo <? 2 ^ 63 then lo else lo - 2 ^ 64) <? 0) = (2 ^ 63 <=? lo)).
    { destruct (lo <? 2 ^ 63) eqn:E1; [apply Z.ltb_lt in E1 | apply Z.ltb_ge in E1].
      - rewrite (proj2 (Z.ltb_ge _ _)) by lia. symmetry. apply Z.leb_gt. lia.
      - rewrite (proj2 (Z.ltb_lt _ _)) by (pow2_numerals; dlia).
        symmetry. apply Z.leb_le. lia. }
    rewrite E0, E1.
    assert (E2 : (if hi <? 2 ^ 63 then hi else hi - 2 ^ 64) * 2 ^ 1 mod 2 ^ 64
                 = (2 * hi) mod 2 ^ 64).
    { destruct (hi <? 2 ^ 63); pow2_numerals; dlia. }
    assert (E3 : (if lo <? 2 ^ 63 then lo else lo - 2 ^ 64) * 2 ^ 1 mod 2 ^ 64 = B).
    { unfold B. destruct (lo <? 2 ^ 63); pow2_numerals; dlia. }
    rewrite E2, E3. fold A.
    unfold pack_QQ, pack_Q.
    rewrite (pack_uint_Ok 8 A) by (change (2 ^ (8 * Z.of_nat 8)) with (2 ^ 64); lia).
    rewrite rbind_Ok.
    rewrite pack_uint_Ok; [done|].
    change (2 ^ (8 * Z.of_nat 8)) with (2 ^ 64).
    destruct (2 ^ 63 <=? hi); [|lia]. apply lxor_bound; [lia | lia |].
    unfold IrrPoly. lia. }
  assert (Hspec : spec_mulX blk
                  = be_encode 8 A
                    ++ be_encode 8 (if 2 ^ 63 <=? hi then Z.lxor B 0x87 else B)).
  { unfold spec_mulX. cbv zeta. rewrite Hshift, Hbit, Henc.
    destruct (2 ^ 63 <=? hi); [|done].
    set (eA := be_encode 8 A).
    assert (HeA : length eA = 8%nat) by apply be_encode_length.
    rewrite (be_encode_S 7 B), (be_encode_S 7 (Z.lxor B 135)).
    destruct (lxor_low_byte B) as [-> ->].
    set (eB := be_encode 7 (B / 256)).
    assert (HeB : length eB = 7%nat) by apply be_encode_length.
    rewrite (app_assoc eA eB).
    rewrite take_app_length' by (rewrite length_app; lia).
    replace 15%nat with (length (eA ++ eB) + 0)%nat at 1 by (rewrite length_app; lia).
    rewrite app_nth2_plus. cbn [nth]. by rewrite <- app_assoc. }
  split; [by rewrite Hsrc, Hspec|].
  rewrite Hspec. split.
  - by rewrite length_app, !be_encode_length.
  - apply Forall_app. split; apply be_encode_u8.
Qed.

(** * The loop that xors the subkey into the last block *)

Lemma xor_at_spec pre t key i x y :
  length t = 16%nat → t !! i = Some x → key !! i = Some y →
  xor_at (pre ++ t) key i = Ok (pre ++ <[i := Z.lxor x y]> t).
Proof.
  intros Ht Hx Hy. unfold xor_at, BS, len.
  assert (Hi : (i < 16)%nat) by (rewrite <- Ht; by eapply lookup_lt_Some).
  rewrite length_app, Ht.
  replace (Z.of_nat (length pre + 16) - Z.of_nat 16 + Z.of_nat i)
    with (Z.of_nat (length pre + i)) by lia.
  rewrite (proj2 (Z.ltb_ge _ _)) by lia.
  rewrite (proj2 (Z.leb_gt _ _)) by lia.
  cbn [orb]. rewrite Nat2Z.id. unfold index.
  rewrite lookup_app_r by lia.
  replace (length pre + i - length pre)%nat with i by lia.
  rewrite Hx, rbind_Ok, Hy, rbind_Ok.
  by rewrite insert_app_r.
Qed.

Lemma xor_loop_spec pre t key :
  length t = 16%nat → length key = 16%nat →
  xor_loop (seq 0 16) (pre ++ t) key = Ok (pre ++ xor_bytes t key).
Proof.
  intros Ht Hk.
  apply list16 in Ht as (?&?&?&?&?&?&?&?&?&?&?&?&?&?&?&?&->).
  apply list16 in Hk as (?&?&?&?&?&?&?&?&?&?&?&?&?&?&?&?&->).
  cbn [seq xor_loop].
  repeat (erewrite xor_at_spec by reflexivity; rewrite rbind_Ok).
  reflexivity.
Qed.

Lemma xor_loop_last odata key :
  (16 ≤ length odata)%nat → length key = 16%nat →
  xor_loop (seq 0 16) odata key
  = Ok (take (length odata - 16) odata
        ++ xor_bytes (drop (length odata - 16) odata) key).
Proof.
  intros Hl Hk. rewrite <- (take_drop (length odata - 16) odata) at 1.
  apply xor_loop_spec; [|done]. rewrite length_drop. lia.
Qed.

(** * [CMAC] computes the MAC of the specification *)

Lemma zero_block : block (replicate 16 0).
Proof. split; [apply length_replicate | apply Forall_u8_replicate]. Qed.

Lemma CMAC_spec key data :
  AES.key_size_ok key = true → Forall u8 key → Forall u8 data →
  CMAC key data = Ok (spec_CMAC key data) ∧ block (spec_CMAC key data).
Proof.
  intros Hok Hkey Hdata.
  destruct (KeyExpansion_blocks key Hok Hkey) as [Hks Hks2].
  set (ks := AES.KeyExpansion key) in *.
  set (L := AES.Cipher ks (replicate 16 0)).
  assert (HL : block L) by (apply Cipher_block; [done | apply zero_block]).
  destruct (polyMulX_spec L HL) as [HK1 HK1b].
  destruct (polyMulX_spec (spec_mulX L) HK1b) as [HK2 HK2b].
  set (K1 := spec_mulX L) in *. set (K2 := spec_mulX K1) in *.
  set (complete := (0 <? length data)%nat && (length data mod 16 =? 0)%nat).
  set (padded := if complete then data
                 else data ++ [0x80] ++ replicate (15 - length data mod 16) 0).
  set (K := if complete then K1 else K2).
  assert (HK : block K) by (unfold K; by destruct complete).
  pose proof (Nat.mod_upper_bound (length data) 16 ltac:(lia)) as Hm.
  pose proof (Nat.div_mod_eq (length data) 16) as Hd.
  assert (Hpad : Forall u8 padded ∧ (16 ≤ length padded)%nat
                 ∧ (length padded mod 16 = 0)%nat).
  { unfold padded, complete.
    destruct (0 <? length data)%nat eqn:E1; [apply Nat.ltb_lt in E1 | apply Nat.ltb_ge in E1];
      destruct (length data mod 16 =? 0)%nat eqn:E2;
      [apply Nat.eqb_eq in E2 | apply Nat.eqb_neq in E2
       | apply Nat.eqb_eq in E2 | apply Nat.eqb_neq in E2]; cbn [andb].
    - split; [done|]. split; [|done].
      destruct (length data / 16)%nat eqn:E3; lia.
    - rewrite !Forall_app, !length_app, length_replicate. cbn [length].
      split; [split; [done|]; split; [|apply Forall_u8_replicate];
              apply Forall_singleton; unfold u8; lia|].
      replace (length data + (1 + (15 - length data mod 16)))%nat
        with ((length data / 16 + 1) * 16)%nat by lia.
      split; [lia | apply Nat.Div0.mod_mul].
    - rewrite !Forall_app, !length_app, length_replicate. cbn [length].
      split; [split; [done|]; split; [|apply Forall_u8_replicate];
              apply Forall_singleton; unfold u8; lia|].
      replace (length data + (1 + (15 - length data mod 16)))%nat
        with ((length data / 16 + 1) * 16)%nat by lia.
      split; [lia | apply Nat.Div0.mod_mul].
    - lia. }
  destruct Hpad as (Hpu & Hp16 & Hpm).
  set (msg := take (length padded - 16) padded
              ++ xor_bytes (drop (length padded - 16) padded) K).
  assert (Hmsg : Forall u8 msg ∧ length msg = length padded).
  { unfold msg. split.
    - apply Forall_app. split; [by apply Forall_take|].
      apply xor_bytes_u8; [by apply Forall_drop | by destruct HK].
    - rewrite length_app, length_take, xor_bytes_length, length_drop.
      + lia.
      + rewrite length_drop. destruct HK as [-> _]. lia. }
  destruct Hmsg as [Hmu Hml].
  set (n := (length padded / 16)%nat).
  pose proof (Nat.div_mod_eq (length padded) 16) as Hpd.
  assert (Hn : ∃ n', n = S n').
  { destruct n as [|n'] eqn:En; [unfold n in En; lia | eauto]. }
  destruct Hn as [n' Hn].
  assert (Hspec : spec_CMAC key data = cbc_chain ks (replicate 16 0) (chunks n msg)).
  { unfold spec_CMAC. cbv zeta. fold ks L K1 K2 complete padded n K.
    replace (16 * (n - 1))%nat with (length padded - 16)%nat by (unfold n; lia).
    reflexivity. }
  assert (Hsrc : CMAC key data = Ok (last_n 16 (AES.cbc_encrypt n ks (replicate 16 0) msg))).
  { unfold CMAC, BS.
    rewrite (new_ECB key Hok), rbind_Ok.
    rewrite (encrypt_ECB_block key (replicate 16 0) _ (new_ECB key Hok))
      by apply length_replicate.
    rewrite rbind_Ok. fold ks L. rewrite HK1, rbind_Ok. fold K1.
    rewrite HK2, rbind_Ok. fold K2.
    assert (Hif : (if (0 <? length data mod 16)%nat || (length data =? 0)%nat
                   then (data ++ [128] ++ replicate (16 - length data mod 16 - 1) 0, K2)
                   else (data, K1)) = (padded, K)).
    { unfold padded, K, complete.
      replace (16 - length data mod 16 - 1)%nat with (15 - length data mod 16)%nat by lia.
      destruct (0 <? length data)%nat eqn:E1;
        [apply Nat.ltb_lt in E1 | apply Nat.ltb_ge in E1];
        destruct (length data mod 16 =? 0)%nat eqn:E2;
        [apply Nat.eqb_eq in E2 | apply Nat.eqb_neq in E2
         | apply Nat.eqb_eq in E2 | apply Nat.eqb_neq in E2]; cbn [andb].
      - rewrite E2. cbn [Nat.ltb Nat.leb orb].
        by rewrite (proj2 (Nat.eqb_neq _ _)) by lia.
      - by rewrite (proj2 (Nat.ltb_lt _ _)) by lia.
      - by rewrite (proj2 (Nat.eqb_eq _ _)), orb_true_r by lia.
      - by rewrite (proj2 (Nat.ltb_lt _ _)) by lia. }
    rewrite Hif.
    rewrite (xor_loop_last padded K Hp16 (proj1 HK)). rewrite rbind_Ok. fold msg.
    rewrite (l2s_u8 msg Hmu), rbind_Ok.
    rewrite (new_CBC key (replicate 16 0) Hok (length_replicate _ _)), rbind_Ok.
    rewrite (encrypt_CBC_spec key (replicate 16 0) msg _
               (new_CBC key (replicate 16 0) Hok (length_replicate _ _)))
      by (rewrite Hml; exact Hpm).
    rewrite rbind_Ok. fold ks. rewrite Hml. fold n. reflexivity. }
  assert (Hlast : last_n 16 (AES.cbc_encrypt n ks (replicate 16 0) msg)
                  = cbc_chain ks (replicate 16 0) (chunks n msg)).
  { rewrite Hn. apply cbc_encrypt_last; [done | apply zero_block | done |].
    rewrite Hml, <- Hn. unfold n. lia. }
  split; [by rewrite Hsrc, Hlast, Hspec|].
  rewrite Hspec, <- Hlast.
  destruct (cbc_encrypt_spec n ks (replicate 16 0) msg Hks zero_block Hmu)
    as [Hcl Hcu]; [rewrite Hml; unfold n; lia|].
  unfold last_n. split.
  - rewrite length_drop, Hcl. lia.
  - by apply Forall_drop.
Qed.

(** C7. For every AES key of 16, 24 or 32 bytes and every byte string, the
    empty one included, [CMAC(key, data)] returns, and what it returns is the
    16-byte MAC of SP 800-38B: the last block xored with K1 when the message
    is a nonempty multiple of 16 bytes, the message padded with [0x80] and
    zeros and xored with K2 otherwise, then the final block of AES-CBC under
    a zero IV; [polyMulX] is the doubling that shifts the big-endian 128-bit
    block left by one bit and xors [0x87] into the low byte iff the top bit
    was set. *)
Theorem CMAC_is_SP800_38B (key data : bytes) :
  AES.key_size_ok key = true → all_u8 key = true → all_u8 data = true →
  CMAC key data = Ok (spec_CMAC key data)
  ∧ length (spec_CMAC key data) = 16%nat
  ∧ all_u8 (spec_CMAC key data) = true
  ∧ ∀ blk, length blk = 16%nat → all_u8 blk = true →
           polyMulX blk = Ok (spec_mulX blk).
Proof.
  intros Hok Hkey Hdata. apply all_u8_Forall in Hkey, Hdata.
  destruct (CMAC_spec key data Hok Hkey Hdata) as [H1 [H2 H3]].
  split; [done|]. split; [done|]. split; [by apply all_u8_Forall|].
  intros blk Hl Hb. apply polyMulX_spec. split; [done | by apply all_u8_Forall].
Qed.

(** the examples of SP 800-38B: the empty message under the 128-, 192- and
    256-bit keys, one block, and 40 bytes *)
Lemma CMAC_is_SP800_38B_witness :
  (CMAC NIST.key128 [] = Ok (spec_CMAC NIST.key128 [])
   ∧ length (spec_CMAC NIST.key128 []) = 16%nat
   ∧ all_u8 (spec_CMAC NIST.key128 []) = true
   ∧ ∀ blk, length blk = 16%nat → all_u8 blk = true →
            polyMulX blk = Ok (spec_mulX blk))
  ∧ CMAC NIST.key128 []
    = Ok [0xbb; 0x1d; 0x69; 0x29; 0xe9; 0x59; 0x37; 0x28;
          0x7f; 0xa3; 0x7d; 0x12; 0x9b; 0x75; 0x67; 0x46]
  ∧ CMAC NIST.key128 (take 16 NIST.msg40)
    = Ok [0x07; 0x0a; 0x16; 0xb4; 0x6b; 0x4d; 0x41; 0x44;
          0xf7; 0x9b; 0xdd; 0x9d; 0xd0; 0x4a; 0x28; 0x7c]
  ∧ CMAC NIST.key128 NIST.msg40
    = Ok [0xdf; 0xa6; 0x67; 0x47; 0xde; 0x9a; 0xe6; 0x30;
          0x30; 0xca; 0x32; 0x61; 0x14; 0x97; 0xc8; 0x27]
  ∧ CMAC NIST.key192 []
    = Ok [0xd1; 0x7d; 0xdf; 0x46; 0xad; 0xaa; 0xcd; 0xe5;
          0x31; 0xca; 0xc4; 0x83; 0xde; 0x7a; 0x93; 0x67]
  ∧ CMAC NIST.key256 []
    = Ok [0x02; 0x89; 0x62; 0xf6; 0x1b; 0x7b; 0xf8; 0x9e;
          0xfc; 0x6b; 0x55; 0x1f; 0x46; 0x67; 0xd9; 0x83].
Proof.
  split; [exact (CMAC_is_SP800_38B NIST.key128 [] eq_refl eq_refl eq_refl)|].
  repeat split; vm_compute; reflexivity.
Defined.

(** * [KDF] returns L/8 bytes *)

Lemma pack_B_Ok v : u8 v → pack_B v = Ok [v].
Proof.
  intros [H1 H2]. unfold pack_B. rewrite pack_uint_Ok by (simpl; lia).
  cbn [be_encode app]. by rewrite Z.mod_small by lia.
Qed.

Lemma pack_Bs_Ok l : Forall u8 l → pack_Bs l = Ok l.
Proof.
  induction 1 as [|x l Hx _ IH]; [done|]. cbn [pack_Bs].
  by rewrite pack_B_Ok, rbind_Ok, IH, rbind_Ok.
Qed.

Lemma pack_BBHB_Ok c L i :
  u8 c → 0 ≤ L < 65536 → u8 i →
  ∃ hdr, pack_BBHB c 0 L i = Ok hdr ∧ Forall u8 hdr.
Proof.
  intros Hc HL Hi. unfold pack_BBHB.
  rewrite (pack_B_Ok c Hc), rbind_Ok.
  rewrite (pack_B_Ok 0) by (unfold u8; lia). rewrite rbind_Ok.
  unfold pack_H. rewrite (pack_uint_Ok 2 L) by (simpl; lia). rewrite rbind_Ok.
  rewrite (pack_B_Ok i Hi), rbind_Ok.
  exists ([c] ++ [0] ++ be_encode 2 L ++ [i]). split; [reflexivity|].
  rewrite !Forall_app. repeat split.
  - by apply Forall_singleton.
  - apply Forall_singleton. unfold u8. lia.
  - apply be_encode_u8.
  - by apply Forall_singleton.
Qed.

Lemma KDF_loop_Ok key c L ctx ixs res :
  AES.key_size_ok key = true → Forall u8 key → Forall u8 ctx →
  u8 c → 0 ≤ L < 65536 →
  Forall (fun i => (i < 256)%nat) ixs → Forall u8 res →
  ∃ r, KDF_loop key c L ctx ixs res = Ok r
       ∧ length r = (length res + 16 * length ixs)%nat ∧ Forall u8 r.
Proof.
  intros Hok Hkey Hctx Hc HL Hixs. revert res.
  induction Hixs as [|i ixs Hi _ IH]; intros res Hres.
  - exists res. split; [done|]. split; [simpl; lia | done].
  - cbn [KDF_loop].
    destruct (pack_BBHB_Ok c L (Z.of_nat i) Hc HL ltac:(unfold u8; lia))
      as (hdr & -> & Hhdr).
    rewrite rbind_Ok.
    assert (Hdata : Forall u8 (replicate 11 0 ++ hdr ++ ctx)).
    { rewrite !Forall_app. split; [apply Forall_u8_replicate | done]. }
    destruct (CMAC_spec key _ Hok Hkey Hdata) as [-> [Hml Hmu]].
    rewrite rbind_Ok.
    destruct (IH (res ++ spec_CMAC key (replicate 11 0 ++ hdr ++ ctx)))
      as (r & Hr & Hrl & Hru); [by apply Forall_app|].
    exists r. split; [done|]. split; [|done].
    rewrite Hrl, length_app, Hml. simpl. lia.
Qed.

Lemma KDF_Ok key c L ctx :
  AES.key_size_ok key = true → Forall u8 key → Forall u8 ctx →
  u8 c → 0 ≤ L ≤ 32640 →
  ∃ r, KDF key c L ctx = Ok r ∧ length r = Z.to_nat (L / 8) ∧ Forall u8 r.
Proof.
  intros Hok Hkey Hctx Hc HL. unfold KDF.
  destruct (KDF_loop_Ok key c L ctx (seq 1 (Z.to_nat ((L + 127) / 128))) []
              Hok Hkey Hctx Hc ltac:(lia)) as (r & -> & Hrl & Hru).
  { apply Forall_forall. intros i Hi%list_elem_of_In%in_seq.
    assert ((L + 127) / 128 ≤ 255) by dlia. lia. }
  { constructor. }
  rewrite rbind_Ok. eexists. split; [reflexivity|]. split; [|by apply Forall_take].
  rewrite length_take, Hrl, length_seq. cbn [length].
  assert (L / 8 ≤ 16 * ((L + 127) / 128)) by dlia.
  assert (0 ≤ L / 8) by dlia. lia.
Qed.

Lemma KDF_key key c ctx k :
  AES.key_size_ok key = true → Forall u8 key → Forall u8 ctx → u8 c →
  KDF key c (8 * len key) ctx = Ok k →
  AES.key_size_ok k = true ∧ Forall u8 k.
Proof.
  intros Hok Hkey Hctx Hc Hk.
  pose proof Hok as Hlen. apply key_size_ok_spec in Hlen.
  destruct (KDF_Ok key c (8 * len key) ctx Hok Hkey Hctx Hc) as (r & Hr & Hrl & Hru).
  { unfold len. lia. }
  rewrite Hk in Hr. injection Hr as <-. split; [|done].
  apply key_size_ok_spec. rewrite Hrl. unfold len.
  rewrite Z.mul_comm, Z.div_mul by lia. rewrite Nat2Z.id. done.
Qed.


(** * EXTERNAL AUTHENTICATE *)

Lemma when_assert_i s i cond (f : Z → bool) msg :
  s !! "i" = Some (VInt i) → (cond = true → f i = true) →
  when cond (i ← getint "i"; massert (f i) msg) s = (Ok tt, s).
Proof.
  intros Hi Hf. destruct cond; [|done]. rewrite when_true.
  eapply exec_bind; [exec_prim|]. cbv beta. rewrite Hf by done. done.
Qed.

Lemma accepted_SL_u8 SL : SL ∈ SCP03.accepted_SL → u8 SL.
Proof.
  unfold SCP03.accepted_SL. intros H.
  repeat (apply elem_of_cons in H as [-> | H]; [by vm_compute|]).
  by apply elem_of_nil in H.
Qed.

Lemma extAuth_exec (s : session) (i SL ch : Z) (hcr smac : bytes) :
  s !! "i" = Some (VInt i) →
  s !! "logCh" = Some (VInt ch) → 0 ≤ ch < 20 →
  s !! "host_cryptogram" = Some (VStr hcr) → Forall u8 hcr →
  s !! "SMAC" = Some (VStr smac) → AES.key_size_ok smac = true → Forall u8 smac →
  SL_supported i SL →
  let mac := spec_CMAC smac (replicate 16 0 ++ [0x84; 0x82; SL; 0x00; 0x10] ++ hcr) in
  SCP03.extAuth SL s
  = (Ok ([spec_CLA ch true; 0x82; SL; 0x00; 0x10] ++ hcr ++ take 8 mac),
     <["MACchain" := VStr mac]>
       (<["cmdCount" := VInt 0]> (<["rmacSL" := VInt 0]> (<["SL" := VInt SL]> s)))).
Proof.
  intros Hi Hch Hchr Hhcr Hhu Hsmac Hok Hsu (Hacc & Hrmac & Hrenc) mac.
  pose proof (accepted_SL_u8 SL Hacc) as HSL.
  unfold SCP03.extAuth.
  eapply exec_bind.
  { apply (when_assert_i s i _ (fun i => truthy (Z.land i M_RMAC))); [done|].
    unfold truthy. intros H. apply negb_true_iff, Z.eqb_neq in H.
    apply negb_true_iff, Z.eqb_neq. auto. }
  eapply exec_bind.
  { apply (when_assert_i s i _ (fun i => Z.land i M_RMACENC =? M_RMACENC)); [done|].
    unfold truthy. intros H. apply negb_true_iff, Z.eqb_neq in H.
    apply Z.eqb_eq. auto. }
  rewrite (bool_decide_eq_true_2 _ Hacc).
  do 4 exec1.
  eapply exec_bind; [apply in_dict_eq|]. cbv beta.
  rewrite bool_decide_eq_true_2.
  2:{ eexists. lookup_solve. }
  cbn [negb]. exec1.
  rewrite pack_Bs_Ok.
  2:{ unfold INS_EXT_AUTH.
      repeat (apply Forall_cons; split); try done; unfold u8; lia. }
  do 3 exec1.
  destruct (CMAC_spec smac (replicate 16 0 ++ [132; INS_EXT_AUTH; SL; 0; 16] ++ hcr)
              Hok Hsu) as [HC _].
  { rewrite !Forall_app. split; [apply Forall_u8_replicate|]. split; [|done].
    unfold INS_EXT_AUTH.
    repeat (apply Forall_cons; split); try done; unfold u8; lia. }
  rewrite HC. exec1. exec1.
  eapply exec_bind.
  { apply (spec_CLA_eq ch true); [done | lookup_solve]. }
  do 2 exec1. reflexivity.
Qed.

(** C5, as the code has it. For every accepted SL that the [i] parameter
    supports, on a session with derived keys and a logical channel,
    [extAuth(SL)] sets [MACchain] to the CMAC under S-MAC of
    [0x00^16 || 0x84 || 0x82 || SL || 0x00 || 0x10 || host_cryptogram],
    returns the secure CLA, [0x82], [SL], [0x00], [0x10], the host cryptogram
    and the first 8 bytes of [MACchain], and installs [SL], [rmacSL = 0] and
    [cmdCount = 0]; with the parameters of [Test128] and [SL = 1] these are
    the bytes of [test_Mutauth]. *)
Theorem extAuth_installs_SL :
  (∀ (s : session) (i SL ch : Z) (hcr smac : bytes),
     s !! "i" = Some (VInt i) →
     s !! "logCh" = Some (VInt ch) → 0 ≤ ch < 20 →
     s !! "host_cryptogram" = Some (VStr hcr) → all_u8 hcr = true →
     s !! "SMAC" = Some (VStr smac) →
     AES.key_size_ok smac = true → all_u8 smac = true →
     SL_supported i SL →
     ∃ mac,
       CMAC smac (replicate 16 0 ++ [0x84; 0x82; SL; 0x00; 0x10] ++ hcr) = Ok mac
       ∧ SCP03.extAuth SL s
         = (Ok ([spec_CLA ch true; 0x82; SL; 0x00; 0x10] ++ hcr ++ take 8 mac),
            <["MACchain" := VStr mac]>
              (<["cmdCount" := VInt 0]>
                 (<["rmacSL" := VInt 0]> (<["SL" := VInt SL]> s)))))
  ∧ (let r := SCP03.extAuth 1 Test128.scp_keys in
     r.1 = Ok [0x84; 0x82; 0x01; 0x00; 0x10;
               0xAE; 0xB8; 0xDA; 0xD1; 0x86; 0x5B; 0x85; 0xE2;
               0x49; 0xFC; 0x4C; 0xF1; 0x84; 0xE6; 0x1D; 0xCD]
     ∧ r.2 !! "MACchain"
       = Some (VStr [0x49; 0xFC; 0x4C; 0xF1; 0x84; 0xE6; 0x1D; 0xCD;
                     0x4C; 0x39; 0x28; 0xE4; 0xC6; 0x17; 0xFB; 0xA3])
     ∧ r.2 !! "SL" = Some (VInt 1)
     ∧ r.2 !! "rmacSL" = Some (VInt 0)
     ∧ r.2 !! "cmdCount" = Some (VInt 0)).
Proof.
  split.
  - intros s i SL ch hcr smac Hi Hch Hchr Hhcr Hhu Hsmac Hok Hsu Hsup.
    apply all_u8_Forall in Hhu, Hsu.
    destruct (CMAC_spec smac (replicate 16 0 ++ [0x84; 0x82; SL; 0x00; 0x10] ++ hcr)
                Hok Hsu) as [HC _].
    { rewrite !Forall_app. split; [apply Forall_u8_replicate|]. split; [|done].
      pose proof (accepted_SL_u8 SL (proj1 Hsup)).
      repeat (apply Forall_cons; split); try done; unfold u8; lia. }
    eexists. split; [exact HC|].
    by apply (extAuth_exec s i SL ch hcr smac).
  - cbv zeta. repeat split; vm_compute; reflexivity.
Qed.

Lemma extAuth_installs_SL_witness :
  let s := Test128.scp_keys in
  let hcr := [0xAE; 0xB8; 0xDA; 0xD1; 0x86; 0x5B; 0x85; 0xE2] in
  let smac := [0x71; 0x31; 0xB9; 0x36; 0x9F; 0x3D; 0x19; 0x85;
               0x0E; 0x69; 0x19; 0xCD; 0x33; 0x21; 0x52; 0x3E] in
  SL_supported 0x70 0x13
  ∧ ∃ mac,
      CMAC smac (replicate 16 0 ++ [0x84; 0x82; 0x13; 0x00; 0x10] ++ hcr) = Ok mac
      ∧ SCP03.extAuth 0x13 s
        = (Ok ([spec_CLA 0 true; 0x82; 0x13; 0x00; 0x10] ++ hcr ++ take 8 mac),
           <["MACchain" := VStr mac]>
             (<["cmdCount" := VInt 0]>
                (<["rmacSL" := VInt 0]> (<["SL" := VInt 0x13]> s)))).
Proof.
  cbv zeta.
  assert (Hsup : SL_supported 0x70 0x13).
  { split; [apply (bool_decide_unpack _); by vm_compute|]. split; by vm_compute. }
  split; [exact Hsup|].
  apply (proj1 extAuth_installs_SL Test128.scp_keys 0x70 0x13 0); try done;
    try (vm_compute; reflexivity).
Defined.

(** C5 as stated fails: [0x11] is an accepted SL, but on a session whose [i]
    parameter is [0x10] (pseudo-random challenge, no R-MAC) [extAuth(0x11)]
    raises. *)
Lemma extAuth_accepted_SL_unsupported :
  bool_decide (0x11 ∈ SCP03.accepted_SL) = true
  ∧ Test128.scp_keys_with 0x10 !! "i" = Some (VInt 0x10)
  ∧ is_Ok ((SCP03.initUpdateResp VNone
              (SCP03.initUpdate Test128.host_challenge 0
                 (SCP03.__init__ (<["i" := VInt 0x10]> Test128.scp_par) ∅).2).2).1)
    = true
  ∧ (SCP03.extAuth 0x11 (Test128.scp_keys_with 0x10)).1
    = Raise (AssertionError "R-MAC not in SCP parameter").
Proof. repeat split; vm_compute; reflexivity. Qed.


(** * The command counter *)

Lemma index_inv {A} (l : list A) k x s s' :
  lift (index l k) s = (Ok x, s') → s' = s ∧ l !! k = Some x.
Proof.
  intros [-> H]%lift_inv. split; [done|]. unfold index in H.
  destruct (l !! k); naive_solver.
Qed.

Lemma checkAPDU_state apdu s : (SCP03.checkAPDU apdu s).2 = s.
Proof. apply modifies_nil_eq, frame_checkAPDU. Qed.

Lemma wrapAPDU_counts apdu s w s' :
  SCP03.wrapAPDU apdu s = (Ok w, s') → is_GET_RESPONSE apdu = false →
  ∃ n, s !! "cmdCount" = Some (VInt n) ∧ s' !! "cmdCount" = Some (VInt (n + 1)).
Proof.
  intros H Hgr. unfold SCP03.wrapAPDU in H.
  apply bind_inv in H as (lc & s1 & H1 & H).
  assert (s1 = s) as -> by (rewrite <- (checkAPDU_state apdu s); by rewrite H1).
  apply bind_inv in H as (ins & s2 & [-> Hins]%index_inv & H).
  unfold is_GET_RESPONSE in Hgr. apply bool_decide_eq_false in Hgr.
  destruct (ins =? 0xC0) eqn:E.
  { apply Z.eqb_eq in E. subst ins. done. }
  apply bind_inv in H as ([] & s3 & H3 & H).
  assert (Hs3 : s3 !! "cmdCount" = s !! "cmdCount").
  { pose proof (modifies_applyBeginRmac ["rmacSL"; "beginRmacSL"]
                  ltac:(names_solve) ltac:(names_solve) s I) as [_ Hk].
    rewrite H3 in Hk. apply Hk. names_solve. }
  apply bind_inv in H as (n & s4 & [-> Hn]%getint_inv & H).
  apply bind_inv in H as ([] & s5 & Hset & H).
  unfold setattr in Hset. injection Hset as <-.
  exists n. split; [by rewrite <- Hs3|].
  lazymatch type of H with
  | ?m _ = _ =>
      assert (Hfr : modifies ["MACchain"] m) by (frame_auto)
  end.
  destruct (Hfr (<["cmdCount" := VInt (n + 1)]> s3) I) as [_ Hk].
  rewrite H in Hk. cbn [snd] in Hk. rewrite Hk by names_solve.
  apply lookup_insert_eq.
Qed.

Lemma wrapAPDU_GET_RESPONSE apdu s :
  is_GET_RESPONSE apdu = true →
  (SCP03.wrapAPDU apdu s).2 = s
  ∧ ∀ w s', SCP03.wrapAPDU apdu s = (Ok w, s') → w = apdu.
Proof.
  intros Hgr. unfold is_GET_RESPONSE in Hgr. apply bool_decide_eq_true in Hgr.
  unfold SCP03.wrapAPDU.
  pose proof (checkAPDU_state apdu s) as Hc.
  destruct (SCP03.checkAPDU apdu s) as [[lc|e] s1] eqn:E; cbn [snd] in Hc; subst s1.
  - rewrite (bind_Ok _ _ _ _ _ E).
    assert (Hi : lift (index apdu 1) s = (Ok 192, s)).
    { unfold lift, index. by rewrite Hgr. }
    rewrite (bind_Ok _ _ _ _ _ Hi). cbn [Z.eqb Pos.eqb].
    split; [done|]. by intros w s' [= <- _].
  - rewrite (bind_Raise _ _ _ _ _ E). split; [done | discriminate].
Qed.

Lemma unwrapResp_state resp sw1 sw2 s : (SCP03.unwrapResp resp sw1 sw2 s).2 = s.
Proof. apply modifies_nil_eq, modifies_unwrapResp. Qed.

Lemma run_calls_counts calls s s' n :
  s !! "cmdCount" = Some (VInt n) → run_calls calls s = Some s' →
  s' !! "cmdCount" = Some (VInt (n + wraps calls)).
Proof.
  revert s n. induction calls as [|c calls IH]; intros s n Hn Hrun.
  - injection Hrun as <-. cbn [wraps]. by rewrite Z.add_0_r.
  - destruct c as [apdu | resp sw1 sw2]; cbn [run_calls wraps] in *.
    + destruct (SCP03.wrapAPDU apdu s) as [[w|e] s1] eqn:E; [|discriminate].
      destruct (is_GET_RESPONSE apdu) eqn:Hgr.
      * destruct (wrapAPDU_GET_RESPONSE apdu s Hgr) as [Hs _].
        rewrite E in Hs. cbn [snd] in Hs. subst s1.
        rewrite Z.add_0_l. by apply (IH s).
      * destruct (wrapAPDU_counts apdu s w s1 E Hgr) as (m & Hm & Hm').
        rewrite Hn in Hm. injection Hm as <-.
        rewrite Z.add_assoc. by apply (IH s1).
    + rewrite unwrapResp_state in Hrun. by apply (IH s).
Qed.

Lemma frame_deriveKeys I cc :
  (∀ s k v, k ≠ "cmdCount" → I s → I (<[k := v]> s)) →
  frame I ["host_challenge"; "card_challenge"; "SENC"; "SMAC"; "SRMAC";
           "card_cryptogram"; "host_cryptogram"; "MACchain"]
    (SCP03.deriveKeys cc).
Proof.
  intros HI. unfold SCP03.deriveKeys.
  repeat first
    [ apply frame_setattr; [names_solve | intros; apply HI; [discriminate | done]]
    | frame_step ].
Qed.

Lemma extAuth_zeroes_counter SL s a s' :
  SCP03.extAuth SL s = (Ok a, s') → s' !! "cmdCount" = Some (VInt 0).
Proof.
  set (I0 := fun s : session => s !! "cmdCount" = Some (VInt 0)).
  assert (HI : ∀ s k v, k ≠ "cmdCount" → I0 s → I0 (<[k := v]> s)).
  { intros s1 k v Hk H1. unfold I0. by rewrite lookup_insert_ne. }
  intros H. unfold SCP03.extAuth in H.
  do 5 (apply bind_inv in H as (? & ? & _ & H)).
  apply bind_inv in H as ([] & s5 & Hset & H).
  unfold setattr in Hset. injection Hset as <-.
  lazymatch type of H with
  | ?m _ = _ =>
      assert (Hfr : frame I0 ["host_challenge"; "card_challenge"; "SENC"; "SMAC";
                              "SRMAC"; "card_cryptogram"; "host_cryptogram";
                              "MACchain"] m)
  end.
  { repeat first
      [ apply frame_deriveKeys; exact HI
      | apply frame_CLA
      | apply frame_setattr; [names_solve | intros; apply HI; [discriminate | done]]
      | frame_step ]. }
  lazymatch type of H with
  | _ ?st = _ => destruct (Hfr st) as [Hk _]; [apply lookup_insert_eq|]
  end.
  by rewrite H in Hk.
Qed.

(** X4. A [wrapAPDU] that returns on anything but a GET RESPONSE adds exactly
    1 to [cmdCount]; on a GET RESPONSE it leaves the session as it is and
    returns the APDU unchanged; [unwrapResp], returning or raising, leaves
    the whole session as it is, [cmdCount] and [MACchain] included; hence
    after an [extAuth] that returns, any sequence of wraps that return and of
    response unwraps ends with [cmdCount] equal to the number of wraps of
    non-GET-RESPONSE APDUs. *)
Theorem cmdCount_counts_wraps :
  (∀ apdu s w s',
     SCP03.wrapAPDU apdu s = (Ok w, s') → is_GET_RESPONSE apdu = false →
     ∃ n, s !! "cmdCount" = Some (VInt n)
          ∧ s' !! "cmdCount" = Some (VInt (n + 1)))
  ∧ (∀ apdu s w s',
       SCP03.wrapAPDU apdu s = (Ok w, s') → is_GET_RESPONSE apdu = true →
       w = apdu ∧ s' = s)
  ∧ (∀ resp sw1 sw2 s,
       (SCP03.unwrapResp resp sw1 sw2 s).2 = s
       ∧ (SCP03.unwrapResp resp sw1 sw2 s).2 !! "cmdCount" = s !! "cmdCount"
       ∧ (SCP03.unwrapResp resp sw1 sw2 s).2 !! "MACchain" = s !! "MACchain")
  ∧ (∀ SL s0 a s calls s',
       SCP03.extAuth SL s0 = (Ok a, s) → run_calls calls s = Some s' →
       s' !! "cmdCount" = Some (VInt (wraps calls))).
Proof.
  split; [exact wrapAPDU_counts|]. split; [|split].
  - intros apdu s w s' H Hgr.
    destruct (wrapAPDU_GET_RESPONSE apdu s Hgr) as [Hs Hw].
    split; [by eapply Hw|]. by rewrite H in Hs.
  - intros. by rewrite unwrapResp_state.
  - intros SL s0 a s calls s' Hauth Hrun.
    apply extAuth_zeroes_counter in Hauth.
    by apply (run_calls_counts calls s s' 0 Hauth).
Qed.

Lemma cmdCount_counts_wraps_witness :
  let calls := [ Wrap Test128.apdu_i4l;
                 UnwrapResp [] 0x90 0x00;
                 Wrap [0x80; 0xC0; 0x00; 0x00; 0x00];
                 UnwrapResp [0x01] 0x6A 0x82;
                 Wrap [0x80; 0xE6; 0x00; 0x00; 0x00] ] in
  ∃ s', run_calls calls (Test128.scp_auth 3) = Some s'
        ∧ wraps calls = 2
        ∧ s' !! "cmdCount" = Some (VInt (wraps calls)).
Proof.
  cbv zeta.
  destruct (run_calls
              [ Wrap Test128.apdu_i4l; UnwrapResp [] 0x90 0x00;
                Wrap [0x80; 0xC0; 0x00; 0x00; 0x00]; UnwrapResp [0x01] 0x6A 0x82;
                Wrap [0x80; 0xE6; 0x00; 0x00; 0x00] ] (Test128.scp_auth 3))
    as [s'|] eqn:E.
  - exists s'. split; [reflexivity|]. split; [reflexivity|].
    apply (proj2 (proj2 (proj2 cmdCount_counts_wraps)) 3 Test128.scp_keys
             [0x84; 0x82; 0x03; 0x00; 0x10;
              0xAE; 0xB8; 0xDA; 0xD1; 0x86; 0x5B; 0x85; 0xE2;
              0x58; 0x95; 0x9C; 0x22; 0xA5; 0x7F; 0xE9; 0x61]
             (Test128.scp_auth 3) _ s'); [|exact E].
    etransitivity; [apply surjective_pairing|].
    apply (f_equal (fun r => (r, (SCP03.extAuth 3 Test128.scp_keys).2))).
    vm_compute. reflexivity.
  - exfalso. revert E. vm_compute. discriminate.
Defined.


(** * INITIALIZE UPDATE response *)




Lemma partition_resp s :
  partition s [10; 13; 21; 29]%nat
  = [take 10 s; take 3 (drop 10 s); take 8 (drop 13 s); take 8 (drop 21 s);
     drop 29 s].
Proof. reflexivity. Qed.


Lemma u8_DDC c :
  c ∈ [DDC.CardCrypto; DDC.HostCrypto; DDC.CardChallenge; DDC.S_ENC; DDC.S_MAC;
       DDC.S_RMAC] → u8 c.
Proof.
  intros H.
  repeat (apply elem_of_cons in H as [-> | H]; [by vm_compute|]).
  by apply elem_of_nil in H.
Qed.

Lemma key_bits_range key :
  AES.key_size_ok key = true → 0 ≤ 8 * len key ≤ 32640.
Proof. intros H%key_size_ok_spec. unfold len. lia. Qed.





Lemma bind_assoc_M {A B C} (m : M A) (f : A → M B) (g : B → M C) s :
  ((m ≫= f) ≫= g) s = (m ≫= (λ a, f a ≫= g)) s.
Proof.
  unfold mbind, M_bind. destruct (m s) as [[a|e] s1]; reflexivity.
Qed.








(** * Wrapping a command and unwrapping it again *)

Lemma restore_lookup_eq k s s' : restore k s s' !! k = s !! k.
Proof.
  unfold restore. destruct (s !! k) eqn:E.
  - apply lookup_insert_eq.
  - apply lookup_delete_eq.
Qed.

Lemma restore_lookup_ne k k' s s' : k ≠ k' → restore k s s' !! k' = s' !! k'.
Proof.
  intros Hne. unfold restore. destruct (s !! k).
  - by apply lookup_insert_ne.
  - by apply lookup_delete_ne.
Qed.

Lemma rewind_frame s s' :
  (∀ k, k ∉ ["cmdCount"; "MACchain"] → s' !! k = s !! k) → rewind s s' = s.
Proof.
  intros H. apply map_eq. intros k. unfold rewind.
  destruct (decide (k = "MACchain")) as [->|H1]; [apply restore_lookup_eq|].
  rewrite restore_lookup_ne by done.
  destruct (decide (k = "cmdCount")) as [->|H2]; [apply restore_lookup_eq|].
  rewrite restore_lookup_ne by done.
  apply H. intros Hin.
  apply elem_of_cons in Hin as [-> | Hin]; [done|].
  apply elem_of_cons in Hin as [-> | Hin]; [done|].
  by apply elem_of_nil in Hin.
Qed.

Lemma byte_strings_lookup s k b :
  byte_strings s → s !! k = Some (VStr b) → Forall u8 b.
Proof. intros Hs Hk. apply all_u8_Forall. apply (Hs k (VStr b) Hk). Qed.

Lemma counterICV_state hi s : (SCP03.counterICV hi s).2 = s.
Proof. apply modifies_nil_eq, frame_counterICV. Qed.

(** [counterICV] reads [SENC] and [cmdCount] and nothing else *)
Lemma counterICV_run hi s senc n :
  s !! "SENC" = Some (VStr senc) → s !! "cmdCount" = Some (VInt n) →
  SCP03.counterICV hi s
  = (k ← AES.new senc AES.MODE_ECB [];
     blk ← pack_QQ (Z.lor hi (n / 0x10000000000000000))
             (n mod 0x10000000000000000);
     AES.encrypt k blk, s).
Proof.
  intros H1 H2. unfold SCP03.counterICV.
  rewrite (bind_Ok _ _ _ _ _ (getstr_Some _ _ _ H1)).
  destruct (AES.new senc AES.MODE_ECB []) as [k|e]; [|reflexivity].
  rewrite (bind_Ok _ _ _ _ _ (lift_Ok k s)).
  rewrite (bind_Ok _ _ _ _ _ (getint_Some _ _ _ H2)).
  rewrite (bind_Ok _ _ _ _ _ (getint_Some _ _ _ H2)).
  rewrite !rbind_Ok.
  destruct (pack_QQ _ _) as [blk|e]; [|reflexivity].
  rewrite (bind_Ok _ _ _ _ _ (lift_Ok blk s)). reflexivity.
Qed.

Lemma pack_uint_inv n v b :
  pack_uint n v = Ok b → length b = n ∧ Forall u8 b.
Proof.
  unfold pack_uint. destruct (_ && _); [|discriminate]. intros [= <-].
  split; [apply be_encode_length | apply be_encode_u8].
Qed.

Lemma pack_QQ_inv hi lo b :
  pack_QQ hi lo = Ok b → length b = 16%nat ∧ Forall u8 b.
Proof.
  unfold pack_QQ, pack_Q.
  intros (h & [Hh1 Hh2]%pack_uint_inv & H)%rbind_inv.
  apply rbind_inv in H as (l & [Hl1 Hl2]%pack_uint_inv & [= <-]).
  rewrite length_app, Hh1, Hl1.
  split; [done|]. by apply Forall_app.
Qed.

(** a counter ICV that is returned is one AES block *)
Lemma counterICV_inv hi s icv s' :
  SCP03.counterICV hi s = (Ok icv, s') →
  s' = s ∧ ∃ senc, s !! "SENC" = Some (VStr senc)
                   ∧ AES.key_size_ok senc = true
                   ∧ (Forall u8 senc → block icv).
Proof.
  intros H. unfold SCP03.counterICV in H.
  apply bind_inv in H as (senc & s1 & [-> Hsenc]%getstr_inv & H).
  apply bind_inv in H as (k & s1 & [-> Hk]%lift_inv & H).
  apply bind_inv in H as (n & s1 & [-> Hn]%getint_inv & H).
  apply bind_inv in H as (n' & s1 & [-> Hn']%getint_inv & H).
  apply bind_inv in H as (blk & s1 & [-> Hblk]%lift_inv & H).
  apply lift_inv in H as [-> H].
  split; [done|]. exists senc. split; [done|].
  pose proof (new_inv _ _ _ _ Hk) as (Hok & _).
  split; [done|]. intros Hu.
  apply pack_QQ_inv in Hblk as [Hl Hb].
  rewrite (encrypt_ECB_block _ _ _ Hk Hl) in H.
  assert (E : icv = AES.Cipher (AES.KeyExpansion senc) blk) by congruence.
  rewrite E. apply Cipher_block; [|by split].
  by apply KeyExpansion_blocks.
Qed.

Lemma CLA_state z b8 s : (SCP03.CLA z b8 s).2 = s.
Proof. apply modifies_nil_eq, frame_CLA. Qed.

Lemma CLA_agree z b8 s t :
  s !! "logCh" = t !! "logCh" → (SCP03.CLA z b8 s).1 = (SCP03.CLA z b8 t).1.
Proof.
  intros H. unfold SCP03.CLA, getint, getattr, mbind, M_bind, lift. rewrite H.
  destruct (t !! "logCh") as [v|]; [|done].
  destruct (as_int v) as [ch|]; [|done]. by destruct (ch <? 4).
Qed.

Lemma CLA_run z b8 s ch :
  s !! "logCh" = Some (VInt ch) →
  SCP03.CLA z b8 s
  = (Ok (if ch <? 4 then b8 + ch + (if z then 0x04 else 0x00)
         else b8 + 0x40 + (ch - 4) + (if z then 0x20 else 0x00)), s).
Proof.
  intros H. unfold SCP03.CLA.
  rewrite (bind_Ok _ _ _ _ _ (getint_Some _ _ _ H)). by destruct (ch <? 4).
Qed.

Lemma land_0x80 x : Z.land x 0x80 = 0 ∨ Z.land x 0x80 = 0x80.
Proof.
  destruct (Z.testbit x 7) eqn:E; [right | left]; apply Z.bits_inj';
    intros n Hn; rewrite Z.land_spec; change 128 with (2 ^ 7);
    rewrite Z.pow2_bits_eqb by lia.
  - destruct (Z.eqb_spec 7 n) as [<-|]; [by rewrite E | apply andb_false_r].
  - rewrite Z.bits_0.
    destruct (Z.eqb_spec 7 n) as [<-|]; [by rewrite E | apply andb_false_r].
Qed.

Lemma channel_cases ch :
  0 ≤ ch < 20 → ch ∈ (Z.of_nat <$> seq 0 20).
Proof.
  intros Hch. apply list_elem_of_fmap. exists (Z.to_nat ch). split; [lia|].
  apply elem_of_seq. lia.
Qed.

(** the secure CLA byte of a channel whose bit 0x04 is clear keeps bit 8 of
    the plain one and carries bit 0x04 *)
Lemma secure_CLA_bits ch cla :
  0 ≤ ch < 20 → Z.land ch 4 = 0 →
  cla = (if ch <? 4 then Z.land cla 0x80 + ch + 0
         else Z.land cla 0x80 + 0x40 + (ch - 4) + 0) →
  let c := if ch <? 4 then Z.land cla 0x80 + ch + 0x04
           else Z.land cla 0x80 + 0x40 + (ch - 4) + 0x20 in
  Z.land c 0x80 = Z.land cla 0x80 ∧ truthy (Z.land c 0x04) = true.
Proof.
  intros Hch Hch4 Hcla c. subst c.
  apply channel_cases in Hch. cbv [seq fmap list_fmap] in Hch.
  destruct (land_0x80 cla) as [Hb | Hb]; rewrite Hb in *;
    repeat (apply elem_of_cons in Hch as [-> | Hch];
            [first [discriminate Hch4 | by vm_compute]|]);
    by apply elem_of_nil in Hch.
Qed.

Lemma checkLogCh_run c b8 z s :
  SCP03.CLA z b8 s = (Ok c, s) → SCP03.checkLogCh c b8 z s = (Ok tt, s).
Proof.
  intros H. unfold SCP03.checkLogCh. destruct (_ || _); [|reflexivity].
  rewrite when_true. rewrite (bind_Ok _ _ _ _ _ H). by rewrite Z.eqb_refl.
Qed.

(** * [checkAPDU] *)

Lemma checkAPDU_inv apdu s lc s' :
  SCP03.checkAPDU apdu s = (Ok lc, s') →
  s' = s ∧ lc = len apdu - 5 ∧ 5 ≤ len apdu
  ∧ ∃ ins, apdu !! 1%nat = Some ins
      ∧ (ins = 0xC0 → len apdu = 5 ∧ take 2 (drop 2 apdu) = [0; 0])
      ∧ (ins ≠ 0xC0 → Z.land ins 0xF0 ∉ [0x60; 0x90])
      ∧ (len apdu ≠ 5 → apdu !! 4%nat = Some lc).
Proof.
  intros H. unfold SCP03.checkAPDU in H.
  apply bind_inv in H as (ins & s1 & [-> Hins]%index_inv & H).
  apply bind_inv in H as ([] & s1 & H1 & H).
  apply bind_inv in H as ([] & s2 & [-> H5]%massert_inv & H).
  apply bind_inv in H as ([] & s3 & H4 & H).
  apply lift_inv in H as [-> [= <-]].
  apply Z.leb_le in H5.
  assert (s1 = s ∧ (ins = 0xC0 → len apdu = 5 ∧ take 2 (drop 2 apdu) = [0; 0])
          ∧ (ins ≠ 0xC0 → Z.land ins 0xF0 ∉ [0x60; 0x90])) as (-> & Ha & Hb).
  { destruct (Z.eqb_spec ins 0xC0) as [->|Hne].
    - apply massert_inv in H1 as [-> [H1 H2]%andb_true_iff].
      apply Z.eqb_eq in H1. apply bool_decide_eq_true in H2. by repeat split.
    - apply massert_inv in H1 as [-> H1%negb_true_iff%bool_decide_eq_false].
      by repeat split. }
  assert (s3 = s ∧ (len apdu ≠ 5 → apdu !! 4%nat = Some (len apdu - 5)))
    as (-> & Hc).
  { destruct (Z.eqb_spec (len apdu) 5) as [E|Hne].
    - injection H4 as <-. by split.
    - apply bind_inv in H4 as (b4 & s4 & [-> Hb4]%index_inv & H4).
      apply massert_inv in H4 as [-> ->%Z.eqb_eq]. by split. }
  split; [done|]. split; [done|]. split; [done|]. exists ins.
  split; [exact Hins|]. split; [exact Ha|]. split; [exact Hb | exact Hc].
Qed.

Lemma checkAPDU_run apdu s ins :
  apdu !! 1%nat = Some ins → 5 ≤ len apdu →
  (ins = 0xC0 → len apdu = 5 ∧ take 2 (drop 2 apdu) = [0; 0]) →
  (ins ≠ 0xC0 → Z.land ins 0xF0 ∉ [0x60; 0x90]) →
  (len apdu ≠ 5 → apdu !! 4%nat = Some (len apdu - 5)) →
  SCP03.checkAPDU apdu s = (Ok (len apdu - 5), s).
Proof.
  intros Hins H5 Ha Hb Hc. unfold SCP03.checkAPDU.
  assert (Hi : lift (index apdu 1) s = (Ok ins, s))
    by (unfold lift, index; by rewrite Hins).
  rewrite (bind_Ok _ _ _ _ _ Hi).
  eapply exec_bind.
  { destruct (Z.eqb_spec ins 0xC0) as [E|Hne].
    - destruct (Ha E) as [H1 H2].
      rewrite (proj2 (Z.eqb_eq _ _) H1), (bool_decide_eq_true_2 _ H2).
      reflexivity.
    - rewrite (bool_decide_eq_false_2 _ (Hb Hne)). reflexivity. }
  cbv zeta. rewrite (proj2 (Z.leb_le _ _) H5).
  eapply exec_bind; [apply massert_true|].
  eapply exec_bind; [|reflexivity].
  destruct (Z.eqb_spec (len apdu) 5) as [E|Hne]; [reflexivity|].
  assert (Hi4 : lift (index apdu 4) s = (Ok (len apdu - 5), s))
    by (unfold lift, index; by rewrite (Hc Hne)).
  rewrite (bind_Ok _ _ _ _ _ Hi4). by rewrite Z.eqb_refl.
Qed.

Lemma len_cons {A} (x : A) l : len (x :: l) = 1 + len l.
Proof. unfold len. cbn [length]. lia. Qed.

Lemma len_app {A} (l k : list A) : len (l ++ k) = len l + len k.
Proof. unfold len. rewrite length_app. lia. Qed.

Lemma len_nonneg {A} (l : list A) : 0 ≤ len l.
Proof. unfold len. lia. Qed.

Lemma chr_inv x c : chr x = Ok c → c = [x] ∧ u8 x.
Proof.
  unfold chr. destruct (is_u8 x) eqn:E; [|discriminate]. intros [= <-].
  split; [done | by apply is_u8_spec].
Qed.

Lemma chr_u8 x : u8 x → chr x = Ok [x].
Proof. intros H%is_u8_spec. unfold chr. by rewrite H. Qed.

Lemma CMAC_key_ok key data mac : CMAC key data = Ok mac → AES.key_size_ok key = true.
Proof.
  unfold CMAC. intros (c & Hc & _)%rbind_inv. by apply new_inv in Hc as [? _].
Qed.

Lemma applyBeginRmac_skip s :
  s !! "beginRmaSL" = None → SCP03.applyBeginRmac s = (Ok tt, s).
Proof.
  intros H. unfold SCP03.applyBeginRmac.
  by rewrite (exec_bind_in_dict_None _ _ _ H).
Qed.

Lemma checkLogCh_state cla b8 z s : (SCP03.checkLogCh cla b8 z s).2 = s.
Proof. apply modifies_nil_eq, frame_checkLogCh. Qed.

Lemma CLA_transfer z b8 s c s' t :
  SCP03.CLA z b8 s = (Ok c, s') → t !! "logCh" = s !! "logCh" →
  SCP03.CLA z b8 t = (Ok c, t).
Proof.
  intros H Ht. pose proof (CLA_agree z b8 t s Ht) as H1.
  pose proof (CLA_state z b8 t) as H2. rewrite H in H1.
  destruct (SCP03.CLA z b8 t) as [r t']. cbn [fst snd] in *. by subst.
Qed.

(** What a [wrapAPDU] that returns has done with a command that is not a
    GET RESPONSE. *)
Lemma wrapAPDU_inv cla ins p1 p2 b4 data s w s' :
  ins ≠ 0xC0 → byte_strings s → s !! "beginRmaSL" = None →
  SCP03.wrapAPDU (cla :: ins :: p1 :: p2 :: b4 :: data) s = (Ok w, s') →
  ∃ n SL c cdata1,
    s !! "cmdCount" = Some (VInt n) ∧ s !! "SL" = Some (VInt SL)
    ∧ (Z.land ins 0xF0 ∉ [0x60; 0x90])
    ∧ Forall u8 data ∧ Forall u8 cdata1
    ∧ (∀ t, t !! "logCh" = s !! "logCh" →
            SCP03.CLA true (Z.land cla 0x80) t = (Ok c, t))
    ∧ (if truthy (Z.land SL SL_CENC) && (0 <? len data) then
         ∃ icv senc,
           (∀ t, t !! "SENC" = s !! "SENC" →
                 t !! "cmdCount" = Some (VInt (n + 1)) →
                 SCP03.counterICV 0 t = (Ok icv, t))
           ∧ s !! "SENC" = Some (VStr senc) ∧ AES.key_size_ok senc = true
           ∧ block icv
           ∧ cdata1 = AES.cbc_encrypt (length (pad80 data 16) / 16)
                        (AES.KeyExpansion senc) icv (pad80 data 16)
           ∧ len cdata1 ≤ 0xFF
       else cdata1 = data)
    ∧ (if truthy (Z.land SL SL_CMAC) then
         ∃ chain smac mac,
           s !! "MACchain" = Some (VStr chain) ∧ s !! "SMAC" = Some (VStr smac)
           ∧ len cdata1 + 8 ≤ 0xFF ∧ Forall u8 [ins; p1; p2]
           ∧ CMAC smac (chain ++ [Z.lor (Z.land cla 0x80) 0x04] ++ [ins; p1; p2]
                        ++ [len cdata1 + 8] ++ cdata1) = Ok mac
           ∧ block mac
           ∧ w = c :: ins :: p1 :: p2 :: (len cdata1 + 8) :: cdata1 ++ take 8 mac
           ∧ s' = <["MACchain" := VStr mac]> (<["cmdCount" := VInt (n + 1)]> s)
       else
         w = c :: ins :: p1 :: p2 :: len cdata1 :: cdata1
         ∧ s' = <["cmdCount" := VInt (n + 1)]> s).
Proof.
  intros Hne Hbs Hb H. unfold SCP03.wrapAPDU in H.
  apply bind_inv in H as (lc & s1 & Hck & H).
  apply checkAPDU_inv in Hck as (-> & -> & H5 & ins0 & Hi0 & _ & Hins0 & _).
  clear H5. injection Hi0 as <-. specialize (Hins0 Hne).
  assert (Hlen : len (cla :: ins :: p1 :: p2 :: b4 :: data) - 5 = len data)
    by (rewrite !len_cons; lia).
  rewrite Hlen in H. clear Hlen.
  assert (Hdrop : drop 5 (cla :: ins :: p1 :: p2 :: b4 :: data) = data)
    by (cbn [drop]; apply drop_0).
  rewrite Hdrop in H. clear Hdrop.
  apply bind_inv in H as (ins' & s1 & [-> Hins]%index_inv & H).
  injection Hins as <-.
  destruct (Z.eqb_spec ins 0xC0) as [|_]; [done|].
  rewrite (bind_Ok _ _ _ _ _ (applyBeginRmac_skip s Hb)) in H.
  apply bind_inv in H as (n & s1 & [-> Hn]%getint_inv & H).
  apply bind_inv in H as ([] & s1 & Hset & H).
  unfold setattr in Hset. injection Hset as <-.
  set (s1 := <["cmdCount" := VInt (n + 1)]> s) in *.
  apply bind_inv in H as (cla' & s2 & [-> Hcl]%index_inv & H).
  injection Hcl as <-. cbv zeta in H.
  apply bind_inv in H as ([] & s2 & Hlog & H).
  assert (s2 = s1) as ->
    by (rewrite <- (checkLogCh_state cla (Z.land cla 128) false s1);
        by rewrite Hlog).
  clear Hlog.
  apply bind_inv in H as (cdata & s2 & [-> Hl2s]%lift_inv & H).
  apply l2s_inv in Hl2s as [-> Hdata].
  apply bind_inv in H as (SL & s2 & [-> HSL]%getint_inv & H).
  apply bind_inv in H as ([cdata1 lc1] & s2 & Henc & H).
  apply bind_inv in H as (SL' & s3 & [-> HSL']%getint_inv & H).
  assert (Henc' :
    s2 = s1 ∧ lc1 = len cdata1 ∧ Forall u8 cdata1
    ∧ if truthy (Z.land SL SL_CENC) && (0 <? len data) then
        ∃ icv senc,
          (∀ t, t !! "SENC" = s !! "SENC" →
                t !! "cmdCount" = Some (VInt (n + 1)) →
                SCP03.counterICV 0 t = (Ok icv, t))
          ∧ s !! "SENC" = Some (VStr senc) ∧ AES.key_size_ok senc = true
          ∧ block icv
          ∧ cdata1 = AES.cbc_encrypt (length (pad80 data 16) / 16)
                       (AES.KeyExpansion senc) icv (pad80 data 16)
          ∧ len cdata1 ≤ 0xFF
      else cdata1 = data).
  { destruct (truthy (Z.land SL SL_CENC) && (0 <? len data)).
    - apply bind_inv in Henc as (icv & s4 & Hicv & Henc).
      pose proof Hicv as Hicv'.
      apply counterICV_inv in Hicv' as (-> & senc & Hsenc & Hok & Hblk).
      apply bind_inv in Henc as (senc' & s4 & [-> Hsenc']%getstr_inv & Henc).
      rewrite Hsenc in Hsenc'. injection Hsenc' as <-.
      assert (Hsenc0 : s !! "SENC" = Some (VStr senc))
        by (unfold s1 in Hsenc; by rewrite lookup_insert_ne in Hsenc).
      pose proof (byte_strings_lookup _ _ _ Hbs Hsenc0) as Hus.
      specialize (Hblk Hus).
      apply bind_inv in Henc as (k & s4 & [-> Hk]%lift_inv & Henc).
      apply bind_inv in Henc as (ct & s4 & [-> Hct]%lift_inv & Henc).
      apply bind_inv in Henc as ([] & s4 & [-> Hle]%massert_inv & Henc).
      injection Henc as <- <- <-.
      rewrite (encrypt_CBC_spec _ _ _ _ Hk (proj1 (pad80_length data))) in Hct.
      injection Hct as <-. apply Z.leb_le in Hle.
      destruct (KeyExpansion_blocks senc Hok Hus) as [Hks _].
      destruct (cbc_encrypt_spec (length (pad80 data 16) / 16)
                  (AES.KeyExpansion senc) icv (pad80 data 16) Hks Hblk
                  (pad80_u8 data Hdata)) as [_ Hcu].
      { pose proof (pad80_length data) as [Hm _].
        pose proof (Nat.div_mod_eq (length (pad80 data 16)) 16). lia. }
      split; [done|]. split; [done|]. split; [done|].
      exists icv, senc. split.
      { intros t Ht1 Ht2. rewrite Hsenc0 in Ht1.
        rewrite (counterICV_run 0 t senc (n + 1) Ht1 Ht2).
        rewrite (counterICV_run 0 s1 senc (n + 1) Hsenc) in Hicv
          by apply lookup_insert_eq.
        by injection Hicv as ->. }
      split; [exact Hsenc0|]. split; [exact Hok|]. split; [exact Hblk|].
      split; [reflexivity | exact Hle].
    - injection Henc as <- <- <-.
      split; [done|]. split; [done|]. split; [exact Hdata | reflexivity]. }
  destruct Henc' as (-> & -> & Hcu1 & Henc'). clear Henc.
  assert (HSL0 : s !! "SL" = Some (VInt SL))
    by (unfold s1 in HSL; by rewrite lookup_insert_ne in HSL).
  rewrite HSL in HSL'. injection HSL' as <-.
  apply bind_inv in H as ([cdata2 lc2] & s3 & Hmac & H).
  apply bind_inv in H as (c & s4 & Hc & H).
  pose proof (CLA_state true (Z.land cla 128) s3) as Hs4.
  rewrite Hc in Hs4. cbn [snd] in Hs4. subst s4.
  injection H as <- <-.
  assert (Hhdr : take 3 (drop 1 (cla :: ins :: p1 :: p2 :: b4 :: data))
                 = [ins; p1; p2]) by reflexivity.
  rewrite Hhdr in *. clear Hhdr.
  assert (Hmac' :
    s3 !! "logCh" = s !! "logCh"
    ∧ if truthy (Z.land SL SL_CMAC) then
        ∃ chain smac mac,
          s !! "MACchain" = Some (VStr chain) ∧ s !! "SMAC" = Some (VStr smac)
          ∧ len cdata1 + 8 ≤ 0xFF ∧ Forall u8 [ins; p1; p2]
          ∧ CMAC smac (chain ++ [Z.lor (Z.land cla 0x80) 0x04] ++ [ins; p1; p2]
                       ++ [len cdata1 + 8] ++ cdata1) = Ok mac
          ∧ block mac
          ∧ cdata2 = cdata1 ++ take 8 mac ∧ lc2 = len cdata1 + 8
          ∧ s3 = <["MACchain" := VStr mac]> s1
      else cdata2 = cdata1 ∧ lc2 = len cdata1 ∧ s3 = s1).
  { destruct (truthy (Z.land SL SL_CMAC)).
    - apply bind_inv in Hmac as ([] & s4 & [-> Hle]%massert_inv & Hmac).
      apply bind_inv in Hmac as (chain & s4 & [-> Hchain]%getstr_inv & Hmac).
      apply bind_inv in Hmac as (c1 & s4 & [-> Hc1]%lift_inv & Hmac).
      apply chr_inv in Hc1 as [-> Hu1].
      apply bind_inv in Hmac as (hdr & s4 & [-> Hhdr]%lift_inv & Hmac).
      apply l2s_inv in Hhdr as [-> Huh].
      apply bind_inv in Hmac as (c2 & s4 & [-> Hc2]%lift_inv & Hmac).
      apply chr_inv in Hc2 as [-> Hu2].
      apply bind_inv in Hmac as (smac & s4 & [-> Hsmac]%getstr_inv & Hmac).
      apply bind_inv in Hmac as (mac & s4 & [-> Hcmac]%lift_inv & Hmac).
      apply bind_inv in Hmac as ([] & s4 & Hset & Hmac).
      unfold setattr in Hset. injection Hset as <-.
      apply bind_inv in Hmac as (chain0 & s4 & [-> Hchain0]%getstr_inv & Hmac).
      rewrite lookup_insert_eq in Hchain0. injection Hchain0 as <-.
      injection Hmac as <- <- <-.
      unfold s1 in Hchain, Hsmac.
      rewrite lookup_insert_ne in Hchain by done.
      rewrite lookup_insert_ne in Hsmac by done.
      split.
      { rewrite lookup_insert_ne by done. unfold s1.
        by rewrite lookup_insert_ne. }
      exists chain, smac, mac.
      split; [exact Hchain|]. split; [exact Hsmac|].
      split; [by apply Z.leb_le|]. split; [exact Huh|].
      split; [exact Hcmac|]. split; [|done].
      destruct (CMAC_spec smac
                  (chain ++ [Z.lor (Z.land cla 128) 4] ++ [ins; p1; p2]
                   ++ [len cdata1 + 8] ++ cdata1)) as [Hm Hblk].
      + by apply CMAC_key_ok in Hcmac.
      + by apply (byte_strings_lookup s "SMAC").
      + rewrite !Forall_app. split; [by apply (byte_strings_lookup s "MACchain")|].
        split; [by apply Forall_singleton|]. split; [done|].
        split; [by apply Forall_singleton | done].
      + rewrite Hm in Hcmac. by injection Hcmac as <-.
    - injection Hmac as <- <- <-. split; [|done]. unfold s1.
      by rewrite lookup_insert_ne. }
  destruct Hmac' as [Hlog Hmac']. clear Hmac.
  exists n, SL, c, cdata1.
  split; [done|]. split; [done|]. split; [done|]. split; [done|].
  split; [done|]. split.
  { intros t Ht. apply (CLA_transfer _ _ _ _ _ _ Hc). by rewrite Ht. }
  split; [exact Henc'|].
  destruct (truthy (Z.land SL SL_CMAC)).
  - destruct Hmac' as (chain & smac & mac & H1 & H2 & H3 & H4 & H5 & H6 & -> & -> & ->).
    exists chain, smac, mac. by repeat (split; [done|]).
  - by destruct Hmac' as (-> & -> & ->).
Qed.

Lemma lift_index_Ok {A} (l : list A) k x s :
  l !! k = Some x → lift (index l k) s = (Ok x, s).
Proof. intros H. unfold lift, index. by rewrite H. Qed.

Lemma fst_bind_Ok {A B} (m : M A) (f : A → M B) s a s1 :
  m s = (Ok a, s1) → ((m ≫= f) s).1 = (f a s1).1.
Proof. intros H. by rewrite (bind_Ok _ _ _ _ _ H). Qed.

(** run the first statement of a method whose result is looked at *)
Ltac fstep_with tac :=
  rewrite ?bind_assoc_M; erewrite fst_bind_Ok; [| tac]; cbv beta.
Ltac fstep := fstep_with ltac:(idtac; exec_prim).

Lemma scla_u8 x : u8 (Z.lor (Z.land x 0x80) 0x04).
Proof. destruct (land_0x80 x) as [-> | ->]; by vm_compute. Qed.

Lemma cons5_shape {A} (l : list A) :
  5 ≤ len l → ∃ a b c d e r, l = a :: b :: c :: d :: e :: r.
Proof.
  intros H. destruct l as [|a [|b [|c [|d [|e r]]]]];
    try (unfold len in H; cbn [length] in H; lia).
  by exists a, b, c, d, e, r.
Qed.

Lemma but_last_n_app {A} (l k : list A) n :
  length k = n → but_last_n n (l ++ k) = l.
Proof.
  intros H. unfold but_last_n. rewrite length_app, H.
  replace (length l + n - n)%nat with (length l) by lia.
  by rewrite take_app_length.
Qed.

Lemma last_n_app {A} (l k : list A) n :
  length k = n → last_n n (l ++ k) = k.
Proof.
  intros H. unfold last_n. rewrite length_app, H.
  replace (length l + n - n)%nat with (length l) by lia.
  by rewrite drop_app_length.
Qed.

(** X1. Unwrapping what [wrapAPDU] returned, with [cmdCount] and [MACchain]
    rewound to their values before the wrap, gives the command back: on a
    session with no ['beginRmaSL'] attribute, on a logical channel whose
    secure CLA byte carries bit 0x04, for a command whose CLA byte is the one
    of the channel and whose fifth byte is the length of its data. *)
Theorem unwrapAPDU_wrapAPDU (s s' : session) (apdu w : list Z) (cla ch : Z) :
  byte_strings s →
  s !! "beginRmaSL" = None →
  s !! "logCh" = Some (VInt ch) → 0 ≤ ch < 20 → Z.land ch 4 = 0 →
  apdu !! 0%nat = Some cla →
  (SCP03.CLA false (Z.land cla 0x80) s).1 = Ok cla →
  apdu !! 4%nat = Some (len apdu - 5) →
  SCP03.wrapAPDU apdu s = (Ok w, s') →
  (SCP03.unwrapAPDU w (rewind s s')).1 = Ok apdu.
Proof.
  intros Hbs Hb Hch Hchr Hch4 H0 Hcla H4 Hwrap.
  assert (Hrw : rewind s s' = s).
  { apply rewind_frame. destruct (frame_wrapAPDU apdu s Hb) as [_ Hk].
    by rewrite Hwrap in Hk. }
  rewrite Hrw. clear Hrw.
  pose proof Hwrap as Hck. unfold SCP03.wrapAPDU in Hck.
  apply bind_inv in Hck as (lc & s1 & Hck & Hrest).
  pose proof Hck as Hck'.
  apply checkAPDU_inv in Hck' as (-> & -> & H5 & ins & Hins & HGR & _ & _).
  destruct (Z.eq_dec ins 0xC0) as [->|Hne].
  { (* GET RESPONSE goes through both unchanged *)
    assert (Hi : lift (index apdu 1) s = (Ok 192, s))
      by (unfold lift, index; by rewrite Hins).
    rewrite (bind_Ok _ _ _ _ _ Hi) in Hrest. injection Hrest as <- <-.
    unfold SCP03.unwrapAPDU.
    rewrite (bind_Ok _ _ _ _ _ Hck), (bind_Ok _ _ _ _ _ Hi). reflexivity. }
  clear Hck Hrest HGR.
  destruct (cons5_shape apdu H5) as (a & b & p1 & p2 & b4 & data & ->).
  injection H0 as ->. injection Hins as ->. injection H4 as H4.
  assert (Hb4 : b4 = len data) by (rewrite !len_cons in H4; lia).
  subst b4. clear H4 H5.
  destruct (wrapAPDU_inv _ _ _ _ _ _ _ _ _ Hne Hbs Hb Hwrap)
    as (n & SL & c & cdata1 & Hn & HSL & Hins & Hdata & Hcu1 & HCLA & Henc & Hmac).
  (* the two CLA bytes *)
  pose proof (CLA_run true (Z.land cla 128) s ch Hch) as Hc1.
  rewrite (HCLA s eq_refl) in Hc1. injection Hc1 as Hc1. cbv iota in Hc1.
  pose proof (CLA_run false (Z.land cla 128) s ch Hch) as Hc0.
  rewrite Hc0 in Hcla. cbn [fst] in Hcla. injection Hcla as Hcla.
  cbv iota in Hcla.
  destruct (secure_CLA_bits ch cla Hchr Hch4 (eq_sym Hcla)) as [Hb8 Hbit].
  rewrite <- Hc1 in Hb8, Hbit. clear Hc1.
  assert (HCLA0 : ∀ t, t !! "logCh" = Some (VInt ch) →
            SCP03.CLA false (Z.land cla 128) t = (Ok cla, t)).
  { intros t Ht. rewrite (CLA_run false _ t ch Ht). cbv iota.
    by rewrite Hcla. }
  clear Hc0 Hcla.
  (* the wrapped command *)
  assert (Hw : ∃ cdata2, w = c :: ins :: p1 :: p2 :: len cdata2 :: cdata2
                         ∧ Forall u8 cdata2).
  { destruct (truthy (Z.land SL SL_CMAC)).
    - destruct Hmac as (chain & smac & mac & _ & _ & _ & _ & _ & [Hl Hu] & -> & _).
      exists (cdata1 ++ take 8 mac). split.
      + rewrite len_app. unfold len at 3. rewrite length_take, Hl. done.
      + apply Forall_app. split; [done | by apply Forall_take].
    - destruct Hmac as [-> _]. by exists cdata1. }
  destruct Hw as (cdata2 & Hw & Hcu2).
  unfold SCP03.unwrapAPDU. rewrite Hw.
  assert (Hlw : len (c :: ins :: p1 :: p2 :: len cdata2 :: cdata2) - 5
                = len cdata2) by (rewrite !len_cons; lia).
  assert (Hck : SCP03.checkAPDU (c :: ins :: p1 :: p2 :: len cdata2 :: cdata2) s
                = (Ok (len cdata2), s)).
  { rewrite <- Hlw at 2. apply (checkAPDU_run _ s ins); [done | | done | done |].
    - rewrite !len_cons. pose proof (len_nonneg cdata2). lia.
    - intros _. by rewrite Hlw. }
  rewrite (fst_bind_Ok _ _ _ _ _ Hck). cbv beta. clear Hck Hlw.
  fstep_with ltac:(apply lift_index_Ok; reflexivity).
  destruct (Z.eqb_spec ins 192) as [|_]; [done|].
  rewrite (fst_bind_Ok _ _ _ _ _ (applyBeginRmac_skip s Hb)). cbv beta.
  do 2 fstep.
  fstep_with ltac:(apply lift_index_Ok; reflexivity). cbv zeta.
  rewrite Hbit, Hb8. fstep.
  fstep_with ltac:(apply checkLogCh_run, HCLA; by rewrite lookup_insert_ne).
  assert (Hdrop : drop 5 (c :: ins :: p1 :: p2 :: len cdata2 :: cdata2) = cdata2)
    by (cbn [drop]; apply drop_0).
  rewrite Hdrop, (l2s_u8 cdata2 Hcu2). clear Hdrop.
  assert (Hhdr : take 3 (drop 1 (c :: ins :: p1 :: p2 :: len cdata2 :: cdata2))
                 = [ins; p1; p2]) by reflexivity.
  rewrite Hhdr. clear Hhdr.
  do 2 fstep.
  (* what follows the C-MAC block *)
  lazymatch goal with
  | |- ((_ ≫= ?K) _).1 = ?R =>
      assert (Htail : ∀ st : session,
                st !! "SL" = Some (VInt SL) → st !! "SENC" = s !! "SENC" →
                st !! "cmdCount" = Some (VInt (n + 1)) →
                st !! "logCh" = Some (VInt ch) →
                (K (cdata1, len cdata1) st).1 = R)
  end.
  { intros st H1 H2 H3 H4. cbv beta iota. fstep.
    destruct (truthy (Z.land SL SL_CENC) && (0 <? len data)) eqn:E.
    - destruct Henc as (icv & senc & Hicv & Hsenc & Hok & Hblk & Hc1 & Hle).
      apply andb_true_iff in E as [E1 E2]. apply Z.ltb_lt in E2.
      pose proof (byte_strings_lookup _ _ _ Hbs Hsenc) as Hus.
      destruct (KeyExpansion_blocks senc Hok Hus) as [Hks Hks2].
      pose proof (pad80_length data) as [Hm Hp].
      assert (Hpl : length (pad80 data 16)
                    = (16 * (length (pad80 data 16) / 16))%nat).
      { pose proof (Nat.div_mod_eq (length (pad80 data 16)) 16). lia. }
      destruct (cbc_encrypt_spec (length (pad80 data 16) / 16)
                  (AES.KeyExpansion senc) icv (pad80 data 16) Hks Hblk
                  (pad80_u8 data Hdata) Hpl) as [Hcl _].
      rewrite <- Hc1, <- Hpl in Hcl.
      assert (Hpos : (0 <? len cdata1) = true)
        by (apply Z.ltb_lt; unfold len; lia).
      rewrite E1, Hpos. cbn [andb].
      assert (Hmod : (len cdata1 mod 16 =? 0) = true).
      { apply Z.eqb_eq. unfold len. rewrite Hcl.
        change 16 with (Z.of_nat 16). rewrite <- Nat2Z.inj_mod, Hm. done. }
      rewrite Hmod. fstep.
      fstep_with ltac:(apply Hicv; [by rewrite H2 | done]).
      fstep_with ltac:(apply getstr_Some; by rewrite H2).
      rewrite (new_CBC senc icv Hok (proj1 Hblk)). fstep.
      erewrite decrypt_CBC_spec;
        [| apply (new_CBC senc icv Hok (proj1 Hblk)) | by rewrite Hcl].
      rewrite Hcl, Hc1.
      rewrite (cbc_decrypt_encrypt _ _ _ _ Hks Hks2 Hblk (pad80_u8 data Hdata) Hpl).
      fstep. rewrite unpad80_pad80. fstep.
      rewrite (proj2 (Z.ltb_lt _ _) E2). fstep. fstep. cbv beta iota.
      fstep_with ltac:(by apply HCLA0). reflexivity.
    - subst cdata1. rewrite E. fstep. cbv beta iota.
      fstep_with ltac:(by apply HCLA0). reflexivity. }
  destruct (truthy (Z.land SL SL_CMAC)).
  - destruct Hmac as (chain & smac & mac & Hchain & Hsmac & Hle & Huh & Hcmac
                      & [Hml Hmu] & Hw' & _).
    rewrite Hw in Hw'. injection Hw' as _ ->.
    assert (Hl8 : length (take 8 mac) = 8%nat) by (rewrite length_take; lia).
    rewrite (but_last_n_app _ _ _ Hl8), (last_n_app _ _ _ Hl8).
    assert (Hl2 : len (cdata1 ++ take 8 mac) = len cdata1 + 8)
      by (rewrite len_app; unfold len at 2; by rewrite Hl8).
    rewrite Hl2. clear Hl2.
    pose proof (len_nonneg cdata1) as Hnn.
    rewrite (proj2 (Z.leb_le 8 (len cdata1 + 8)) ltac:(lia)).
    rewrite (chr_u8 _ (scla_u8 cla)), (l2s_u8 _ Huh).
    rewrite (chr_u8 (len cdata1 + 8)) by (unfold u8; lia).
    replace (len cdata1 + 8 - 8) with (len cdata1) by lia.
    do 6 fstep. rewrite Hcmac. do 3 fstep.
    rewrite bool_decide_eq_true_2 by reflexivity. do 2 fstep.
    apply Htail; lookup_solve.
  - destruct Hmac as [Hw' _]. rewrite Hw in Hw'. injection Hw' as _ ->.
    fstep. apply Htail; lookup_solve.
Qed.

Lemma pair_fst_eq {A B} (r : A * B) a : r.1 = a → r = (a, r.2).
Proof. destruct r. simpl. by intros ->. Qed.

Lemma unwrapAPDU_wrapAPDU_witness :
  let s := Test128.scp_auth 3 in
  let w := [0x84; 0xE6; 0x02; 0x00; 0x28;
            0xDF; 0x31; 0x90; 0x7F; 0xC0; 0x27; 0x48; 0x2D;
            0x5D; 0xCB; 0x7D; 0xC0; 0x28; 0x24; 0x5F; 0x7C;
            0x10; 0x8C; 0xA4; 0xD2; 0xAF; 0xF1; 0x22; 0x75;
            0x07; 0x97; 0x68; 0xE1; 0xEF; 0xE9; 0x42; 0x9E;
            0x84; 0x0C; 0x2C; 0x64; 0x24; 0x90; 0xB2; 0x05] in
  let s' := (SCP03.wrapAPDU Test128.apdu_i4l s).2 in
  SCP03.wrapAPDU Test128.apdu_i4l s = (Ok w, s')
  ∧ (SCP03.unwrapAPDU w (rewind s s')).1 = Ok Test128.apdu_i4l.
Proof.
  cbv zeta.
  assert (Hw : SCP03.wrapAPDU Test128.apdu_i4l (Test128.scp_auth 3)
               = (Ok [0x84; 0xE6; 0x02; 0x00; 0x28;
                      0xDF; 0x31; 0x90; 0x7F; 0xC0; 0x27; 0x48; 0x2D;
                      0x5D; 0xCB; 0x7D; 0xC0; 0x28; 0x24; 0x5F; 0x7C;
                      0x10; 0x8C; 0xA4; 0xD2; 0xAF; 0xF1; 0x22; 0x75;
                      0x07; 0x97; 0x68; 0xE1; 0xEF; 0xE9; 0x42; 0x9E;
                      0x84; 0x0C; 0x2C; 0x64; 0x24; 0x90; 0xB2; 0x05],
                  (SCP03.wrapAPDU Test128.apdu_i4l (Test128.scp_auth 3)).2)).
  { apply pair_fst_eq. vm_compute. reflexivity. }
  split; [exact Hw|].
  apply (unwrapAPDU_wrapAPDU (Test128.scp_auth 3) _ Test128.apdu_i4l _ 0x80 0).
  - apply map_Forall_to_list. vm_compute. repeat constructor.
  - vm_compute. reflexivity.
  - vm_compute. reflexivity.
  - lia.
  - reflexivity.
  - reflexivity.
  - vm_compute. reflexivity.
  - reflexivity.
  - exact Hw.
Defined.

(** X2. On the logical channels 4 to 7 and 12 to 15 the secure CLA byte that
    [wrapAPDU] writes has bit 0x04 clear, and [unwrapAPDU] takes that bit for
    the secure-messaging indicator: it refuses every command that [wrapAPDU]
    returned, GET RESPONSE apart. *)
Theorem unwrapAPDU_refuses_channel (s s' : session) (apdu w : list Z) (ch : Z) :
  byte_strings s →
  s !! "beginRmaSL" = None →
  s !! "logCh" = Some (VInt ch) → 4 ≤ ch < 16 → Z.land ch 4 ≠ 0 →
  is_GET_RESPONSE apdu = false →
  SCP03.wrapAPDU apdu s = (Ok w, s') →
  (SCP03.unwrapAPDU w (rewind s s')).1
  = Raise (AssertionError "Secure messaging missing").
Proof.
  intros Hbs Hb Hch Hchr Hch4 Hgr Hwrap.
  assert (Hrw : rewind s s' = s).
  { apply rewind_frame. destruct (frame_wrapAPDU apdu s Hb) as [_ Hk].
    by rewrite Hwrap in Hk. }
  rewrite Hrw. clear Hrw.
  pose proof Hwrap as Hck. unfold SCP03.wrapAPDU in Hck.
  apply bind_inv in Hck as (lc & s1 & Hck & _).
  apply checkAPDU_inv in Hck as (-> & -> & H5 & ins & Hi & _).
  destruct (cons5_shape apdu H5) as (cla & b & p1 & p2 & b4 & data & ->).
  injection Hi as ->.
  unfold is_GET_RESPONSE in Hgr. apply bool_decide_eq_false in Hgr.
  assert (Hne : ins ≠ 0xC0) by (intros ->; by apply Hgr).
  destruct (wrapAPDU_inv _ _ _ _ _ _ _ _ _ Hne Hbs Hb Hwrap)
    as (n & SL & c & cdata1 & Hn & HSL & Hins & Hdata & Hcu1 & HCLA & Henc & Hmac).
  pose proof (CLA_run true (Z.land cla 128) s ch Hch) as Hc1.
  rewrite (HCLA s eq_refl) in Hc1. injection Hc1 as Hc1. cbv iota in Hc1.
  assert (Hbit : truthy (Z.land c 4) = false).
  { subst c. pose proof (channel_cases ch ltac:(lia)) as Hc.
    cbv [seq fmap list_fmap] in Hc.
    destruct (land_0x80 cla) as [Hb8 | Hb8]; rewrite Hb8;
      repeat (apply elem_of_cons in Hc as [-> | Hc];
              [first [lia | done | by vm_compute]|]);
      by apply elem_of_nil in Hc. }
  assert (Hw : ∃ cdata2, w = c :: ins :: p1 :: p2 :: len cdata2 :: cdata2).
  { destruct (truthy (Z.land SL SL_CMAC)).
    - destruct Hmac as (chain & smac & mac & _ & _ & _ & _ & _ & [Hl Hu] & -> & _).
      exists (cdata1 ++ take 8 mac).
      rewrite len_app. unfold len at 3. rewrite length_take, Hl. done.
    - destruct Hmac as [-> _]. by exists cdata1. }
  destruct Hw as (cdata2 & Hw).
  unfold SCP03.unwrapAPDU. rewrite Hw.
  assert (Hlw : len (c :: ins :: p1 :: p2 :: len cdata2 :: cdata2) - 5
                = len cdata2) by (rewrite !len_cons; lia).
  assert (Hck : SCP03.checkAPDU (c :: ins :: p1 :: p2 :: len cdata2 :: cdata2) s
                = (Ok (len cdata2), s)).
  { rewrite <- Hlw at 2. apply (checkAPDU_run _ s ins); [done | | done | done |].
    - rewrite !len_cons. pose proof (len_nonneg cdata2). lia.
    - intros _. by rewrite Hlw. }
  rewrite (fst_bind_Ok _ _ _ _ _ Hck). cbv beta. clear Hck Hlw.
  fstep_with ltac:(apply lift_index_Ok; reflexivity).
  destruct (Z.eqb_spec ins 192) as [|_]; [done|].
  rewrite (fst_bind_Ok _ _ _ _ _ (applyBeginRmac_skip s Hb)). cbv beta.
  do 2 fstep.
  fstep_with ltac:(apply lift_index_Ok; reflexivity). cbv zeta.
  rewrite Hbit. reflexivity.
Qed.

Lemma unwrapAPDU_refuses_channel_witness :
  let s := session_on 4 1 in
  let apdu := [0xC0; 0xE6; 0x02; 0x00; 0x00] in
  let w := [0xE0; 0xE6; 0x02; 0x00; 0x08;
            0x1A; 0x7A; 0x8B; 0xE9; 0x24; 0xAD; 0xDB; 0xAA] in
  let s' := (SCP03.wrapAPDU apdu s).2 in
  SCP03.wrapAPDU apdu s = (Ok w, s')
  ∧ (SCP03.unwrapAPDU w (rewind s s')).1
    = Raise (AssertionError "Secure messaging missing").
Proof.
  cbv zeta.
  assert (Hw : SCP03.wrapAPDU [0xC0; 0xE6; 0x02; 0x00; 0x00] (session_on 4 1)
               = (Ok [0xE0; 0xE6; 0x02; 0x00; 0x08;
                      0x1A; 0x7A; 0x8B; 0xE9; 0x24; 0xAD; 0xDB; 0xAA],
                  (SCP03.wrapAPDU [0xC0; 0xE6; 0x02; 0x00; 0x00]
                     (session_on 4 1)).2)).
  { apply pair_fst_eq. vm_compute. reflexivity. }
  split; [exact Hw|].
  apply (unwrapAPDU_refuses_channel (session_on 4 1) _
           [0xC0; 0xE6; 0x02; 0x00; 0x00] _ 4).
  - apply map_Forall_to_list. vm_compute. repeat constructor.
  - vm_compute. reflexivity.
  - vm_compute. reflexivity.
  - lia.
  - discriminate.
  - reflexivity.
  - exact Hw.
Defined.


(** * Wrapping a response and unwrapping it again *)

(** [wrapResp] writes no attribute at all. *)
Lemma modifies_wrapResp resp sw1 sw2 : modifies [] (SCP03.wrapResp resp sw1 sw2).
Proof. unfold SCP03.wrapResp. frame_auto. Qed.

Lemma wrapResp_state resp sw1 sw2 s : (SCP03.wrapResp resp sw1 sw2 s).2 = s.
Proof. apply modifies_nil_eq, modifies_wrapResp. Qed.

Lemma len_0_nil {A} (l : list A) : len l = 0 → l = [].
Proof. unfold len. destruct l; [done | simpl; lia]. Qed.

(** X3. The response that [wrapResp] returns is unwrapped by [unwrapResp], on the
    same session, to the response and status bytes that were wrapped. *)
Theorem unwrapResp_wrapResp
  (s s' : session) (resp w : list Z) (sw1 sw2 sw1' sw2' : Z) :
  byte_strings s →
  SCP03.wrapResp resp sw1 sw2 s = (Ok (w, sw1', sw2'), s') →
  SCP03.unwrapResp w sw1' sw2' s' = (Ok (resp, sw1, sw2), s').
Proof.
  intros Hbs H.
  assert (s' = s) as ->
    by (rewrite <- (wrapResp_state resp sw1 sw2 s); by rewrite H).
  rewrite (pair_fst_eq (SCP03.unwrapResp w sw1' sw2' s) (Ok (resp, sw1, sw2)));
    [by rewrite unwrapResp_state|].
  unfold SCP03.wrapResp in H. unfold SCP03.unwrapResp.
  cbv zeta in *.
  destruct (negb ((Z.shiftl sw1 8 + sw2 =? 36864) || bool_decide (sw1 ∈ [98; 99])))
    eqn:Esw.
  { apply bind_inv in H as ([] & s1 & [-> Hl]%massert_inv & H).
    injection H as <- <- <-. rewrite Esw. apply Z.eqb_eq, len_0_nil in Hl.
    by subst resp. }
  apply bind_inv in H as (dresp & s1 & [-> Hd]%lift_inv & H).
  apply l2s_inv in Hd as [-> Hur].
  apply bind_inv in H as (SL & s1 & [-> HSL]%getint_inv & H).
  apply bind_inv in H as (rSL & s1 & [-> HrSL]%getint_inv & H).
  apply bind_inv in H as (d1 & s1 & Henc & H).
  assert (s1 = s) as ->.
  { lazymatch type of Henc with
    | ?m _ = _ => assert (Hfr : modifies [] m) by frame_auto
    end.
    pose proof (modifies_nil_eq _ s Hfr) as Hst. by rewrite Henc in Hst. }
  apply bind_inv in H as (SL' & s2 & [-> HSL']%getint_inv & H).
  apply bind_inv in H as (rSL' & s2 & [-> HrSL']%getint_inv & H).
  rewrite HSL in HSL'. injection HSL' as <-.
  rewrite HrSL in HrSL'. injection HrSL' as <-.
  apply bind_inv in H as (d2 & s3 & Hmac & H).
  assert (s3 = s) as ->.
  { lazymatch type of Hmac with
    | ?m _ = _ => assert (Hfr : modifies [] m) by frame_auto
    end.
    pose proof (modifies_nil_eq _ s Hfr) as Hst. by rewrite Hmac in Hst. }
  apply lift_inv in H as [_ H]. injection H as <- <- <-.
  (* the R-ENC block of [wrapResp] *)
  assert (Henc' :
    Forall u8 d1
    ∧ if truthy (Z.land (Z.lor SL rSL) SL_RENC) && (0 <? len resp) then
        ∃ icv senc,
          SCP03.counterICV 0x8000000000000000 s = (Ok icv, s)
          ∧ s !! "SENC" = Some (VStr senc) ∧ AES.key_size_ok senc = true
          ∧ block icv
          ∧ d1 = AES.cbc_encrypt (length (pad80 resp 16) / 16)
                   (AES.KeyExpansion senc) icv (pad80 resp 16)
      else d1 = resp).
  { destruct (truthy (Z.land (Z.lor SL rSL) SL_RENC) && (0 <? len resp)).
    - apply bind_inv in Henc as ([] & s4 & [-> Hle]%massert_inv & Henc).
      apply bind_inv in Henc as (icv & s4 & Hicv & Henc).
      pose proof Hicv as Hicv'.
      apply counterICV_inv in Hicv' as (-> & senc & Hsenc & Hok & Hblk).
      apply bind_inv in Henc as (senc' & s4 & [-> Hsenc']%getstr_inv & Henc).
      rewrite Hsenc in Hsenc'. injection Hsenc' as <-.
      pose proof (byte_strings_lookup _ _ _ Hbs Hsenc) as Hus.
      specialize (Hblk Hus).
      apply bind_inv in Henc as (k & s4 & [-> Hk]%lift_inv & Henc).
      apply lift_inv in Henc as [_ Hct].
      rewrite (encrypt_CBC_spec _ _ _ _ Hk (proj1 (pad80_length resp))) in Hct.
      injection Hct as <-.
      destruct (KeyExpansion_blocks senc Hok Hus) as [Hks _].
      destruct (cbc_encrypt_spec (length (pad80 resp 16) / 16)
                  (AES.KeyExpansion senc) icv (pad80 resp 16) Hks Hblk
                  (pad80_u8 resp Hur)) as [_ Hcu].
      { pose proof (pad80_length resp) as [Hm _].
        pose proof (Nat.div_mod_eq (length (pad80 resp 16)) 16). lia. }
      split; [exact Hcu|]. exists icv, senc.
      split; [exact Hicv|]. split; [exact Hsenc|]. split; [exact Hok|].
      split; [exact Hblk | reflexivity].
    - apply lift_inv in Henc as [_ Henc]. injection Henc as <-. by split. }
  destruct Henc' as [Hu1 Henc']. clear Henc.
  (* the R-MAC block of [wrapResp] *)
  assert (Hmac' :
    Forall u8 d2
    ∧ if truthy (Z.land (Z.lor SL rSL) SL_RMAC) then
        ∃ chain srmac mac,
          s !! "MACchain" = Some (VStr chain) ∧ s !! "SRMAC" = Some (VStr srmac)
          ∧ u8 sw1 ∧ u8 sw2
          ∧ CMAC srmac (chain ++ d1 ++ [sw1] ++ [sw2]) = Ok mac
          ∧ block mac ∧ d2 = d1 ++ take 8 mac
      else d2 = d1).
  { destruct (truthy (Z.land (Z.lor SL rSL) SL_RMAC)).
    - apply bind_inv in Hmac as ([] & s4 & [-> Hle]%massert_inv & Hmac).
      apply bind_inv in Hmac as (chain & s4 & [-> Hchain]%getstr_inv & Hmac).
      apply bind_inv in Hmac as (c1 & s4 & [-> Hc1]%lift_inv & Hmac).
      apply chr_inv in Hc1 as [-> Hu1'].
      apply bind_inv in Hmac as (c2 & s4 & [-> Hc2]%lift_inv & Hmac).
      apply chr_inv in Hc2 as [-> Hu2'].
      apply bind_inv in Hmac as (srmac & s4 & [-> Hsrmac]%getstr_inv & Hmac).
      apply bind_inv in Hmac as (mac & s4 & [-> Hcmac]%lift_inv & Hmac).
      cbv zeta in Hmac. apply lift_inv in Hmac as [_ Hmac].
      injection Hmac as <-.
      destruct (CMAC_spec srmac (chain ++ d1 ++ [sw1] ++ [sw2])) as [Hm Hblk].
      + by apply CMAC_key_ok in Hcmac.
      + by apply (byte_strings_lookup s "SRMAC").
      + rewrite !Forall_app.
        split; [by apply (byte_strings_lookup s "MACchain")|].
        split; [done|]. split; by apply Forall_singleton.
      + rewrite Hm in Hcmac. injection Hcmac as <-.
        split; [apply Forall_app; split; [done | apply Forall_take, Hblk]|].
        exists chain, srmac, (spec_CMAC srmac (chain ++ d1 ++ [sw1] ++ [sw2])).
        split; [exact Hchain|]. split; [exact Hsrmac|]. split; [exact Hu1'|].
        split; [exact Hu2'|]. split; [exact Hm|]. split; [exact Hblk | reflexivity].
    - apply lift_inv in Hmac as [_ Hmac]. injection Hmac as <-. by split. }
  destruct Hmac' as [Hu2 Hmac']. clear Hmac.
  (* [unwrapResp] *)
  rewrite Esw. unfold s2l. rewrite (l2s_u8 d2 Hu2). do 3 fstep.
  lazymatch goal with
  | |- ((_ ≫= ?K) _).1 = ?R => assert (Htail : (K d1 s).1 = R)
  end.
  { cbv beta. do 2 fstep.
    destruct (truthy (Z.land (Z.lor SL rSL) SL_RENC) && (0 <? len resp)) eqn:E.
    - destruct Henc' as (icv & senc & Hicv & Hsenc & Hok & Hblk & Hc1).
      apply andb_true_iff in E as [E1 E2]. apply Z.ltb_lt in E2.
      pose proof (byte_strings_lookup _ _ _ Hbs Hsenc) as Hus.
      destruct (KeyExpansion_blocks senc Hok Hus) as [Hks Hks2].
      pose proof (pad80_length resp) as [Hm Hp].
      assert (Hpl : length (pad80 resp 16)
                    = (16 * (length (pad80 resp 16) / 16))%nat).
      { pose proof (Nat.div_mod_eq (length (pad80 resp 16)) 16). lia. }
      destruct (cbc_encrypt_spec (length (pad80 resp 16) / 16)
                  (AES.KeyExpansion senc) icv (pad80 resp 16) Hks Hblk
                  (pad80_u8 resp Hur) Hpl) as [Hcl _].
      rewrite <- Hc1, <- Hpl in Hcl.
      assert (Hpos : (0 <? len d1) = true)
        by (apply Z.ltb_lt; unfold len; lia).
      rewrite E1, Hpos. cbn [andb].
      assert (Hmod : (len d1 mod 16 =? 0) = true).
      { apply Z.eqb_eq. unfold len. rewrite Hcl.
        change 16 with (Z.of_nat 16). rewrite <- Nat2Z.inj_mod, Hm. done. }
      rewrite Hmod. fstep.
      fstep_with ltac:(exact Hicv).
      fstep.
      rewrite (new_CBC senc icv Hok (proj1 Hblk)). fstep.
      erewrite decrypt_CBC_spec;
        [| apply (new_CBC senc icv Hok (proj1 Hblk)) | by rewrite Hcl].
      rewrite Hcl, Hc1.
      rewrite (cbc_decrypt_encrypt _ _ _ _ Hks Hks2 Hblk (pad80_u8 resp Hur) Hpl).
      fstep. rewrite unpad80_pad80. fstep.
      rewrite (proj2 (Z.ltb_lt _ _) E2). fstep. fstep. reflexivity.
    - subst d1. rewrite E. fstep. reflexivity. }
  destruct (truthy (Z.land (Z.lor SL rSL) SL_RMAC)).
  - destruct Hmac' as (chain & srmac & mac & Hchain & Hsrmac & Hs1 & Hs2 & Hcmac
                       & [Hml Hmu] & ->).
    assert (Hl8 : length (take 8 mac) = 8%nat) by (rewrite length_take; lia).
    rewrite (but_last_n_app _ _ _ Hl8), (last_n_app _ _ _ Hl8).
    assert (Hl2 : (8 <=? len (d1 ++ take 8 mac)) = true).
    { apply Z.leb_le. rewrite len_app. unfold len at 2. rewrite Hl8.
      pose proof (len_nonneg d1). lia. }
    rewrite Hl2, (chr_u8 _ Hs1), (chr_u8 _ Hs2).
    do 5 fstep. cbv zeta. rewrite Hcmac. fstep.
    rewrite bool_decide_eq_true_2 by reflexivity. do 2 fstep.
    exact Htail.
  - subst d2. fstep. exact Htail.
Qed.

Lemma unwrapResp_wrapResp_witness :
  let s := Test128.scp_auth 0x33 in
  let w := [0x08; 0x5F; 0x64; 0xB5; 0x7A; 0x0E; 0x9C; 0x17;
            0x20; 0x36; 0x12; 0xEB; 0x63; 0x64; 0x52; 0xB1;
            0xB7; 0x1F; 0x02; 0x66; 0xBD; 0xEA; 0x4D; 0xC9] in
  SCP03.wrapResp [1; 2; 3] 0x90 0x00 s = (Ok (w, 0x90, 0x00), s)
  ∧ SCP03.unwrapResp w 0x90 0x00 s = (Ok ([1; 2; 3], 0x90, 0x00), s).
Proof.
  cbv zeta.
  assert (Hw : SCP03.wrapResp [1; 2; 3] 0x90 0x00 (Test128.scp_auth 0x33)
               = (Ok ([0x08; 0x5F; 0x64; 0xB5; 0x7A; 0x0E; 0x9C; 0x17;
                       0x20; 0x36; 0x12; 0xEB; 0x63; 0x64; 0x52; 0xB1;
                       0xB7; 0x1F; 0x02; 0x66; 0xBD; 0xEA; 0x4D; 0xC9],
                      0x90, 0x00), Test128.scp_auth 0x33)).
  { rewrite (pair_fst_eq (SCP03.wrapResp [1; 2; 3] 0x90 0x00
                            (Test128.scp_auth 0x33))
               (Ok ([0x08; 0x5F; 0x64; 0xB5; 0x7A; 0x0E; 0x9C; 0x17;
                     0x20; 0x36; 0x12; 0xEB; 0x63; 0x64; 0x52; 0xB1;
                     0xB7; 0x1F; 0x02; 0x66; 0xBD; 0xEA; 0x4D; 0xC9],
                    0x90, 0x00)));
      [by rewrite wrapResp_state | vm_compute; reflexivity]. }
  split; [exact Hw|].
  apply (unwrapResp_wrapResp (Test128.scp_auth 0x33) _ [1; 2; 3] _ 0x90 0x00);
    [|exact Hw].
  apply map_Forall_to_list. vm_compute. repeat constructor.
Defined.


(** * Keys: the DEK, the constructor, the derivation function *)

(** invert the first statement of a method that returned *)
Ltac inv1 H :=
  let a := fresh "a" in
  let st := fresh "st" in
  let H1 := fresh "Hs" in
  apply bind_inv in H as (a & st & H1 & H);
  first [ apply massert_inv in H1 as [-> H1]
        | apply getint_inv in H1 as [-> H1]
        | apply getstr_inv in H1 as [-> H1]
        | apply getattr_inv in H1 as [-> H1]
        | progress unfold setattr in H1; injection H1 as <- <-
        | apply lift_inv in H1 as [-> H1]
        | idtac ].

(** X9. [DEK.decrypt] undoes [DEK.encrypt] up to the padding, which it leaves
    in place; input that is not a whole number of blocks is refused. *)
Theorem DEK_decrypt_encrypt (key data : bytes) (dek : DEK.t) :
  DEK.new key = Ok dek → all_u8 key = true → all_u8 data = true →
  (∃ ct, DEK.encrypt dek data = Ok ct
         ∧ DEK.decrypt dek ct = Ok (dek_padded data))
  ∧ (∀ ct, (length ct mod 16 ≠ 0)%nat →
           DEK.decrypt dek ct
           = Raise (AssertionError "Data length not multiple of 16")).
Proof.
  intros Hnew Hkey Hdata. apply all_u8_Forall in Hkey, Hdata.
  unfold DEK.new in Hnew.
  destruct (AES.key_size_ok key) eqn:Hok; [|discriminate].
  injection Hnew as <-. split.
  - destruct (dek_padded_length data) as [Hmod Hlen].
    destruct (KeyExpansion_blocks key Hok Hkey) as [Hks Hks2].
    assert (Hpad : Forall u8 (dek_padded data)).
    { unfold dek_padded. destruct (length data mod 16 =? 0)%nat; [done|].
      rewrite !Forall_app. split; [done|]. split; [|apply Forall_u8_replicate].
      apply Forall_singleton. unfold u8. lia. }
    assert (Hiv : block (replicate 16 0)).
    { split; [apply length_replicate | apply Forall_u8_replicate]. }
    assert (Hpl : length (dek_padded data)
                  = (16 * (length (dek_padded data) / 16))%nat).
    { pose proof (Nat.div_mod_eq (length (dek_padded data)) 16). lia. }
    destruct (cbc_encrypt_spec (length (dek_padded data) / 16)
                (AES.KeyExpansion key) (replicate 16 0) (dek_padded data)
                Hks Hiv Hpad Hpl) as [Hl _].
    rewrite <- Hpl in Hl.
    pose proof (new_CBC key (replicate 16 0) Hok (length_replicate _ _)) as Hnew.
    eexists. split.
    + unfold DEK.encrypt. cbn [DEK.keyValue]. rewrite Hnew, rbind_Ok.
      replace (if (0 <? length data mod 16)%nat
               then data ++ [128] ++ replicate (15 - length data mod 16) 0
               else data) with (dek_padded data).
      2:{ unfold dek_padded.
          destruct (length data mod 16)%nat eqn:E; reflexivity. }
      apply (encrypt_CBC_spec key (replicate 16 0) _ _ Hnew Hmod).
    + unfold DEK.decrypt. cbn [DEK.keyValue]. rewrite Hl, Hmod.
      cbn [Nat.eqb assert]. rewrite rbind_Ok, Hnew, rbind_Ok.
      rewrite (decrypt_CBC_spec key (replicate 16 0) _ _ Hnew)
        by (by rewrite Hl).
      rewrite Hl. f_equal.
      by apply cbc_decrypt_encrypt.
  - intros ct Hct. unfold DEK.decrypt.
    apply Nat.eqb_neq in Hct. by rewrite Hct.
Qed.

Lemma DEK_decrypt_encrypt_witness :
  let key := [0x98; 0x76; 0x54; 0x32; 0x10] ++ take 11 Test128.at_to_O in
  let dek := DEK.mk key true in
  let data := [0x01; 0x02; 0x03] in
  (∃ ct, DEK.encrypt dek data = Ok ct
         ∧ DEK.decrypt dek ct = Ok (dek_padded data))
  ∧ (∀ ct, (length ct mod 16 ≠ 0)%nat →
           DEK.decrypt dek ct
           = Raise (AssertionError "Data length not multiple of 16")).
Proof.
  cbv zeta.
  apply (DEK_decrypt_encrypt
           ([0x98; 0x76; 0x54; 0x32; 0x10] ++ take 11 Test128.at_to_O)
           [0x01; 0x02; 0x03]); reflexivity.
Defined.

Lemma init_key_inv kw k s s' :
  SCP03.init_key kw k s = (Ok tt, s') →
  ∃ v, kw !! k = Some (VStr v) ∧ AES.key_size_ok v = true
       ∧ s' = <[k := VStr v]> s.
Proof.
  intros H. unfold SCP03.init_key in H.
  inv1 H. inv1 H. inv1 H. unfold setattr in H. injection H as <-.
  apply bool_decide_eq_true in Hs as [v Hv].
  unfold SCP03.kw_get in Hs0. rewrite Hv in Hs0. cbn [default] in Hs0.
  destruct v as [| b |]; try discriminate. injection Hs0 as <-.
  by exists b.
Qed.

Lemma init_session_inv (kw : gmap string pyval) (s : session) :
  SCP03.__init__ kw ∅ = (Ok tt, s) →
  (∃ i, s !! "i" = Some (VInt i) ∧ 0 ≤ i < 0x100 ∧ legal_i i = true)
  ∧ (∃ aid, s !! "SD_AID" = Some (VStr aid) ∧ 5 ≤ len aid ≤ 16)
  ∧ (∀ k, k ∈ ["keyENC"; "keyMAC"; "keyDEK"] →
          ∃ v, kw !! k = Some (VStr v) ∧ s !! k = Some (VStr v)
               ∧ AES.key_size_ok v = true)
  ∧ (∃ n, s !! "seqCounter" = Some (VInt n) ∧ 0 ≤ n < 0x1000000)
  ∧ (∃ dd, s !! "diverData" = Some (VStr dd) ∧ len dd = 10)
  ∧ (∀ k, k ∈ ["logCh"; "host_challenge"; "SL"; "cmdCount"; "MACchain";
               "SENC"; "SMAC"; "SRMAC"; "beginRmaSL"] → s !! k = None).
Proof.
  intros H. unfold SCP03.__init__ in H.
  inv1 H. inv1 H. inv1 H. inv1 H. inv1 H. inv1 H. inv1 H.
  apply bind_inv in H as ([] & s1 & (kE & HkE & HokE & ->)%init_key_inv & H).
  apply bind_inv in H as ([] & s1 & (kM & HkM & HokM & ->)%init_key_inv & H).
  apply bind_inv in H as ([] & s1 & (kD & HkD & HokD & ->)%init_key_inv & H).
  inv1 H. inv1 H. inv1 H. inv1 H. inv1 H. inv1 H.
  apply massert_inv in H as [-> Hdd].
  rewrite lookup_insert_eq in Hs2.
  rewrite lookup_insert_eq in Hs6.
  apply andb_true_iff in Hs3 as [Ha1%Z.leb_le Ha2%Z.leb_le].
  apply andb_true_iff in Hs5 as [Hn1%Z.leb_le Hn2%Z.ltb_lt].
  apply Z.eqb_eq in Hdd.
  split.
  { exists (a mod 256). split; [by simplify_map_eq|].
    split; [apply Z.mod_pos_bound; lia|].
    unfold legal_i. by rewrite Hs0, Hs1. }
  split.
  { exists a2. split; [|done].
    rewrite !lookup_insert_ne by done. by rewrite lookup_insert_eq. }
  split.
  { intros k Hk.
    apply elem_of_cons in Hk as [-> | Hk]; [exists kE; by simplify_map_eq|].
    apply elem_of_cons in Hk as [-> | Hk]; [exists kM; by simplify_map_eq|].
    apply elem_of_cons in Hk as [-> | Hk]; [exists kD; by simplify_map_eq|].
    by apply elem_of_nil in Hk. }
  split.
  { exists a4. split; [by simplify_map_eq | done]. }
  split.
  { exists a6. split; [|done]. by rewrite lookup_insert_eq. }
  intros k Hk.
  repeat (apply elem_of_cons in Hk as [-> | Hk]; [by simplify_map_eq|]).
  by apply elem_of_nil in Hk.
Qed.

Lemma SCP03_new_inv (kw : gmap string pyval) (s : session) :
  SCP03.new kw = Ok s → SCP03.__init__ kw ∅ = (Ok tt, s).
Proof.
  unfold SCP03.new. destruct (SCP03.__init__ kw ∅) as [[[]|e] s0];
    [|discriminate]. by intros [= <-].
Qed.

(** X10. What the constructor guarantees of a session it returns: a legal [i],
    an AID of 5 to 16 bytes, the three static keys of the keyword arguments
    with an AES key length, a 24-bit sequence counter, 10 bytes of
    diversification data, and no attribute of an open session. *)
Theorem new_session_invariant (kw : gmap string pyval) (s : session) :
  SCP03.new kw = Ok s →
  (∃ i, s !! "i" = Some (VInt i) ∧ 0 ≤ i < 0x100 ∧ legal_i i = true)
  ∧ (∃ aid, s !! "SD_AID" = Some (VStr aid) ∧ 5 ≤ len aid ≤ 16)
  ∧ (∀ k, k ∈ ["keyENC"; "keyMAC"; "keyDEK"] →
          ∃ v, kw !! k = Some (VStr v) ∧ s !! k = Some (VStr v)
               ∧ AES.key_size_ok v = true)
  ∧ (∃ n, s !! "seqCounter" = Some (VInt n) ∧ 0 ≤ n < 0x1000000)
  ∧ (∃ dd, s !! "diverData" = Some (VStr dd) ∧ len dd = 10)
  ∧ (∀ k, k ∈ ["logCh"; "host_challenge"; "SL"; "cmdCount"; "MACchain";
               "SENC"; "SMAC"; "SRMAC"; "beginRmaSL"] → s !! k = None).
Proof. intros H. by apply init_session_inv, SCP03_new_inv. Qed.

Lemma new_session_invariant_witness :
  let s := Test128.scp_new in
  SCP03.new Test128.scp_par = Ok s
  ∧ (∃ i, s !! "i" = Some (VInt i) ∧ 0 ≤ i < 0x100 ∧ legal_i i = true)
  ∧ (∃ aid, s !! "SD_AID" = Some (VStr aid) ∧ 5 ≤ len aid ≤ 16)
  ∧ (∀ k, k ∈ ["keyENC"; "keyMAC"; "keyDEK"] →
          ∃ v, Test128.scp_par !! k = Some (VStr v) ∧ s !! k = Some (VStr v)
               ∧ AES.key_size_ok v = true)
  ∧ (∃ n, s !! "seqCounter" = Some (VInt n) ∧ 0 ≤ n < 0x1000000)
  ∧ (∃ dd, s !! "diverData" = Some (VStr dd) ∧ len dd = 10)
  ∧ (∀ k, k ∈ ["logCh"; "host_challenge"; "SL"; "cmdCount"; "MACchain";
               "SENC"; "SMAC"; "SRMAC"; "beginRmaSL"] → s !! k = None).
Proof.
  cbv zeta.
  assert (H : SCP03.new Test128.scp_par = Ok Test128.scp_new).
  { unfold SCP03.new, Test128.scp_new.
    assert (E : (SCP03.__init__ Test128.scp_par ∅).1 = Ok tt)
      by (vm_compute; reflexivity).
    destruct (SCP03.__init__ Test128.scp_par ∅) as [[u|e] s0];
      [reflexivity | discriminate E]. }
  split; [exact H|]. exact (new_session_invariant _ _ H).
Defined.

(** X11. [getDEK] on a session the constructor returned gives the DEK that holds
    the [keyDEK] of the keyword arguments, and leaves the session as it is. *)
Theorem getDEK_of_new (kw : gmap string pyval) (s : session) :
  SCP03.new kw = Ok s →
  ∃ key, kw !! "keyDEK" = Some (VStr key)
         ∧ SCP03.getDEK s = (Ok (DEK.mk key true), s).
Proof.
  intros H%SCP03_new_inv%init_session_inv. destruct H as (_ & _ & Hk & _).
  destruct (Hk "keyDEK" ltac:(names_solve)) as (key & Hkw & Hs & Hok).
  exists key. split; [exact Hkw|].
  unfold SCP03.getDEK. rewrite (bind_Ok _ _ _ _ _ (getstr_Some _ _ _ Hs)).
  unfold DEK.new. by rewrite Hok.
Qed.

Lemma getDEK_of_new_witness :
  ∃ key, Test128.scp_par !! "keyDEK" = Some (VStr key)
         ∧ SCP03.getDEK Test128.scp_new = (Ok (DEK.mk key true), Test128.scp_new).
Proof.
  apply (getDEK_of_new Test128.scp_par Test128.scp_new).
  unfold SCP03.new, Test128.scp_new.
  assert (E : (SCP03.__init__ Test128.scp_par ∅).1 = Ok tt)
    by (vm_compute; reflexivity).
  destruct (SCP03.__init__ Test128.scp_par ∅) as [[u|e] s0];
    [reflexivity | discriminate E].
Defined.


(** * [KDF]: the length of the output, and the limit of the block counter *)





(** * [deriveKeys] *)

Lemma KDF_loop_key_ok key c L ctx i ixs res r :
  KDF_loop key c L ctx (i :: ixs) res = Ok r → AES.key_size_ok key = true.
Proof.
  cbn [KDF_loop]. intros (hdr & _ & H)%rbind_inv.
  apply rbind_inv in H as (m & Hm & _). by apply CMAC_key_ok in Hm.
Qed.

(** a derived key has the length of the key it is derived from *)
Lemma KDF_same_length key c ctx k :
  Forall u8 key → Forall u8 ctx → u8 c →
  KDF key c (8 * len key) ctx = Ok k → length k = length key ∧ Forall u8 k.
Proof.
  intros Hkey Hctx Hc Hk.
  destruct (length key) as [|n] eqn:El.
  - unfold KDF in Hk. unfold len in Hk. rewrite El in Hk.
    cbn in Hk. injection Hk as <-. by split.
  - assert (Hok : AES.key_size_ok key = true).
    { unfold KDF in Hk. apply rbind_inv in Hk as (r & Hr & _).
      assert (Hn : (1 ≤ Z.to_nat ((8 * len key + 127) / 128))%nat).
      { unfold len. rewrite El. assert (1 ≤ (8 * Z.of_nat (S n) + 127) / 128)
          by dlia. lia. }
      destruct (Z.to_nat ((8 * len key + 127) / 128)) as [|m]; [lia|].
      cbn [seq] in Hr. by apply KDF_loop_key_ok in Hr. }
    destruct (KDF_key key c ctx k Hok Hkey Hctx Hc Hk) as [Hkok Hku].
    split; [|done]. rewrite <- El.
    pose proof Hok as Hl. apply key_size_ok_spec in Hl.
    destruct (KDF_Ok key c (8 * len key) ctx Hok Hkey Hctx Hc
                (key_bits_range _ Hok)) as (r & Hr & Hrl & _).
    rewrite Hk in Hr. injection Hr as <-. rewrite Hrl. unfold len.
    rewrite Z.mul_comm, Z.div_mul by lia. apply Nat2Z.id.
Qed.

Lemma KDF_64_length key c ctx k :
  Forall u8 key → Forall u8 ctx → u8 c →
  KDF key c 64 ctx = Ok k → length k = 8%nat ∧ Forall u8 k.
Proof.
  intros Hkey Hctx Hc Hk.
  assert (Hok : AES.key_size_ok key = true).
  { unfold KDF in Hk. apply rbind_inv in Hk as (r & Hr & _).
    change (Z.to_nat ((64 + 127) / 128)) with 1%nat in Hr. cbn [seq] in Hr.
    by apply KDF_loop_key_ok in Hr. }
  destruct (KDF_Ok key c 64 ctx Hok Hkey Hctx Hc ltac:(lia)) as (r & Hr & Hrl & Hu).
  rewrite Hk in Hr. injection Hr as <-. by split.
Qed.

Lemma byte_strings_insert k v (s : session) :
  byte_strings s → is_bytes v = true → byte_strings (<[k := v]> s).
Proof. intros Hs Hv. by apply map_Forall_insert_2. Qed.

(** What [deriveKeys] has established when it returns: the card challenge
    (the one given, if one is given), the three session keys with the
    lengths of the static keys they are derived from, both cryptograms of 8
    bytes, and no MAC chaining value. *)
Lemma deriveKeys_inv (carg : pyval) (s s' : session) :
  byte_strings s → is_bytes carg = true →
  SCP03.deriveKeys carg s = (Ok tt, s') →
  ∃ keyENC keyMAC hc chal senc smac srmac ccr hcr,
    s !! "keyENC" = Some (VStr keyENC) ∧ s !! "keyMAC" = Some (VStr keyMAC)
    ∧ s' !! "host_challenge" = Some (VStr hc)
    ∧ (∀ h, s !! "host_challenge" = Some h → h = VStr hc)
    ∧ s' !! "card_challenge" = Some (VStr chal)
    ∧ (carg ≠ VNone → carg = VStr chal)
    ∧ KDF keyENC DDC.S_ENC (8 * len keyENC) (hc ++ chal) = Ok senc
    ∧ KDF keyMAC DDC.S_MAC (8 * len keyMAC) (hc ++ chal) = Ok smac
    ∧ KDF keyMAC DDC.S_RMAC (8 * len keyMAC) (hc ++ chal) = Ok srmac
    ∧ KDF smac DDC.CardCrypto 0x0040 (hc ++ chal) = Ok ccr
    ∧ KDF smac DDC.HostCrypto 0x0040 (hc ++ chal) = Ok hcr
    ∧ s' !! "SENC" = Some (VStr senc) ∧ s' !! "SMAC" = Some (VStr smac)
    ∧ s' !! "SRMAC" = Some (VStr srmac)
    ∧ s' !! "card_cryptogram" = Some (VStr ccr)
    ∧ s' !! "host_cryptogram" = Some (VStr hcr)
    ∧ s' !! "MACchain" = Some VNone
    ∧ Forall u8 hc ∧ Forall u8 chal ∧ length chal = 8%nat
    ∧ (∀ k, k ∉ ["host_challenge"; "card_challenge"; "SENC"; "SMAC"; "SRMAC";
                 "card_cryptogram"; "host_cryptogram"; "MACchain"] →
            s' !! k = s !! k)
    ∧ ∃ i, s !! "i" = Some (VInt i)
           ∧ (truthy (Z.land i M_PSEUDO) = true →
              ∃ n aid, s !! "seqCounter" = Some (VInt n)
                       ∧ s !! "SD_AID" = Some (VStr aid)
                       ∧ pseudo_card_challenge keyENC aid n = Ok chal).
Proof.
  intros Hbs Hcarg H.
  assert (Hframe : ∀ k, k ∉ ["host_challenge"; "card_challenge"; "SENC"; "SMAC";
                             "SRMAC"; "card_cryptogram"; "host_cryptogram";
                             "MACchain"] → s' !! k = s !! k).
  { destruct (frame_deriveKeys (fun _ => True) carg ltac:(done) s I) as [_ Hk].
    by rewrite H in Hk. }
  unfold SCP03.deriveKeys in H.
  apply bind_inv in H as (b & s0 & Hb & H).
  unfold in_dict in Hb. injection Hb as <- <-.
  apply bind_inv in H as ([] & s1 & Hhc & H).
  assert (Hs1 : (∀ h, s !! "host_challenge" = Some h →
                      s1 !! "host_challenge" = Some h)
                ∧ (∀ k, k ≠ "host_challenge" → s1 !! k = s !! k)
                ∧ byte_strings s1).
  { destruct (s !! "host_challenge") as [h|] eqn:E.
    - rewrite bool_decide_eq_true_2 in Hhc by eauto.
      cbn [negb when] in Hhc. injection Hhc as <-. by rewrite E.
    - rewrite bool_decide_eq_false_2 in Hhc by (by intros [? ?]).
      cbn [negb when] in Hhc. unfold setattr in Hhc. injection Hhc as <-.
      split; [done|]. split; [intros k Hk; by apply lookup_insert_ne|].
      apply byte_strings_insert; [done | reflexivity]. }
  destruct Hs1 as (Hh1 & Hk1 & Hbs1). clear Hhc.
  apply bind_inv in H as (i & s2 & [-> Hi]%getint_inv & H).
  apply bind_inv in H as ([] & s2 & Hblk & H).
  assert (Hs2 : ∃ chal, s2 = <["card_challenge" := VStr chal]> s1
                        ∧ (Forall u8 chal ∧ length chal = 8%nat)
                        ∧ (carg ≠ VNone → carg = VStr chal)
                        ∧ (truthy (Z.land i M_PSEUDO) = true →
                           ∃ n aid kE0,
                             s1 !! "seqCounter" = Some (VInt n)
                             ∧ s1 !! "SD_AID" = Some (VStr aid)
                             ∧ s1 !! "keyENC" = Some (VStr kE0)
                             ∧ pseudo_card_challenge kE0 aid n = Ok chal)).
  { destruct (truthy (Z.land i M_PSEUDO)).
    - apply bind_inv in Hblk as (sc & s3 & [-> Hsc]%getint_inv & Hblk).
      apply bind_inv in Hblk as (sc4 & s3 & [-> Hsc4]%lift_inv & Hblk).
      cbv zeta in Hblk.
      apply bind_inv in Hblk as (kE & s3 & [-> HkE]%getstr_inv & Hblk).
      apply bind_inv in Hblk as (aid & s3 & [-> Haid]%getstr_inv & Hblk).
      apply bind_inv in Hblk as (cc & s3 & [-> Hcc]%lift_inv & Hblk).
      apply bind_inv in Hblk as ([] & s3 & Hset & Hblk).
      unfold setattr in Hset. injection Hset as <-.
      assert (Hpc : pseudo_card_challenge kE aid sc = Ok cc).
      { unfold pseudo_card_challenge. by rewrite Hsc4, rbind_Ok. }
      apply pack_uint_inv in Hsc4 as [_ Hu4].
      destruct (KDF_64_length kE DDC.CardChallenge (drop 1 sc4 ++ aid) cc)
        as [Hlcc Hucc]; [by apply (byte_strings_lookup s1 "keyENC") | |
                      apply u8_DDC; names_solve | done |].
      { apply Forall_app. split; [by apply Forall_drop|].
        by apply (byte_strings_lookup s1 "SD_AID"). }
      exists cc.
      destruct (decide (carg = VNone)) as [->|Hne].
      + injection Hblk as <-.
        split; [done|]. split; [done|]. split; [done|].
        intros _. by exists sc, aid, kE.
      + rewrite (bool_decide_eq_false_2 _ Hne) in Hblk.
        cbn [negb] in Hblk. rewrite when_true in Hblk.
        apply bind_inv in Hblk as (cc' & s3 & [-> Hcc']%getattr_inv & Hblk).
        rewrite lookup_insert_eq in Hcc'. injection Hcc' as <-.
        apply massert_inv in Hblk as [-> Heq%bool_decide_eq_true].
        split; [done|]. split; [done|]. split; [done|].
        intros _. by exists sc, aid, kE.
    - apply bind_inv in Hblk as (cc & s3 & [-> Hcc]%lift_inv & Hblk).
      apply bind_inv in Hblk as ([] & s3 & [-> Hl]%massert_inv & Hblk).
      unfold setattr in Hblk. injection Hblk as <-.
      destruct carg as [| c |]; try discriminate. injection Hcc as <-.
      apply Z.eqb_eq in Hl. unfold len in Hl.
      exists c. split; [done|]. split; [|split; [done | intros [=]]].
      split; [by apply all_u8_Forall | lia]. }
  destruct Hs2 as (chal & -> & [Huc Hlc] & Hcarg' & Hps). clear Hblk.
  apply bind_inv in H as (hc & s3 & [-> Hhc]%getstr_inv & H).
  apply bind_inv in H as (chal' & s3 & [-> Hchal]%getstr_inv & H).
  rewrite lookup_insert_eq in Hchal. injection Hchal as <-.
  cbv zeta in H.
  apply bind_inv in H as (kE & s3 & [-> HkE]%getstr_inv & H).
  apply bind_inv in H as (senc & s3 & [-> Hsenc]%lift_inv & H).
  apply bind_inv in H as ([] & s3 & Hset & H).
  unfold setattr in Hset. injection Hset as <-.
  apply bind_inv in H as (kM & s3 & [-> HkM]%getstr_inv & H).
  apply bind_inv in H as (smac & s3 & [-> Hsmac]%lift_inv & H).
  apply bind_inv in H as ([] & s3 & Hset & H).
  unfold setattr in Hset. injection Hset as <-.
  apply bind_inv in H as (kM' & s3 & [-> HkM']%getstr_inv & H).
  apply bind_inv in H as (srmac & s3 & [-> Hsrmac]%lift_inv & H).
  apply bind_inv in H as ([] & s3 & Hset & H).
  unfold setattr in Hset. injection Hset as <-.
  apply bind_inv in H as (smac' & s3 & [-> Hsmac']%getstr_inv & H).
  apply bind_inv in H as (ccr & s3 & [-> Hccr]%lift_inv & H).
  apply bind_inv in H as ([] & s3 & Hset & H).
  unfold setattr in Hset. injection Hset as <-.
  apply bind_inv in H as (smac'' & s3 & [-> Hsmac'']%getstr_inv & H).
  apply bind_inv in H as (hcr & s3 & [-> Hhcr]%lift_inv & H).
  apply bind_inv in H as ([] & s3 & Hset & H).
  unfold setattr in Hset. injection Hset as <-.
  unfold setattr in H. injection H as <-.
  rewrite !lookup_insert_ne in Hhc by done.
  rewrite !lookup_insert_ne in HkE by done.
  rewrite !lookup_insert_ne in HkM by done.
  rewrite !lookup_insert_ne in HkM' by done.
  rewrite HkM in HkM'. injection HkM' as <-.
  rewrite !lookup_insert_ne in Hsmac' by done.
  rewrite lookup_insert_eq in Hsmac'. injection Hsmac' as <-.
  rewrite !lookup_insert_ne in Hsmac'' by done.
  rewrite lookup_insert_eq in Hsmac''. injection Hsmac'' as <-.
  exists kE, kM, hc, chal, senc, smac, srmac, ccr, hcr.
  split; [by rewrite <- Hk1|]. split; [by rewrite <- Hk1|].
  split; [by simplify_map_eq|].
  split.
  { intros h Hh. apply Hh1 in Hh. rewrite Hhc in Hh. by injection Hh as <-. }
  split; [by simplify_map_eq|]. split; [exact Hcarg'|].
  split; [exact Hsenc|]. split; [exact Hsmac|]. split; [exact Hsrmac|].
  split; [exact Hccr|]. split; [exact Hhcr|].
  split; [by simplify_map_eq|]. split; [by simplify_map_eq|].
  split; [by simplify_map_eq|]. split; [by simplify_map_eq|].
  split; [by simplify_map_eq|]. split; [by simplify_map_eq|].
  split; [by apply (byte_strings_lookup s1 "host_challenge")|].
  split; [done|]. split; [done|]. split; [exact Hframe|].
  exists i. split; [by rewrite <- Hk1|]. intros Hp.
  destruct (Hps Hp) as (n & aid & kE0 & Hn & Haid & HkE0 & Hpc).
  rewrite HkE in HkE0. injection HkE0 as <-.
  exists n, aid. split; [by rewrite <- Hk1|]. split; [by rewrite <- Hk1 | done].
Qed.

(** X7. What [deriveKeys] has established when it returns: the card challenge
    (the one given, if one is given) of 8 bytes, the three session keys with
    the lengths of the static keys they are derived from, both cryptograms
    of 8 bytes, no MAC chaining value; and nothing else is written. *)
Theorem deriveKeys_establishes (carg : pyval) (s s' : session) :
  byte_strings s → is_bytes carg = true →
  SCP03.deriveKeys carg s = (Ok tt, s') →
  ∃ keyENC keyMAC senc smac srmac chal ccr hcr,
    s !! "keyENC" = Some (VStr keyENC) ∧ s !! "keyMAC" = Some (VStr keyMAC)
    ∧ s' !! "SENC" = Some (VStr senc) ∧ length senc = length keyENC
    ∧ s' !! "SMAC" = Some (VStr smac) ∧ length smac = length keyMAC
    ∧ s' !! "SRMAC" = Some (VStr srmac) ∧ length srmac = length keyMAC
    ∧ s' !! "card_challenge" = Some (VStr chal) ∧ length chal = 8%nat
    ∧ (carg ≠ VNone → carg = VStr chal)
    ∧ s' !! "card_cryptogram" = Some (VStr ccr) ∧ length ccr = 8%nat
    ∧ s' !! "host_cryptogram" = Some (VStr hcr) ∧ length hcr = 8%nat
    ∧ s' !! "MACchain" = Some VNone
    ∧ (∀ k, k ∉ ["host_challenge"; "card_challenge"; "SENC"; "SMAC"; "SRMAC";
                 "card_cryptogram"; "host_cryptogram"; "MACchain"] →
            s' !! k = s !! k).
Proof.
  intros Hbs Hcarg H.
  destruct (deriveKeys_inv carg s s' Hbs Hcarg H)
    as (kE & kM & hc & chal & senc & smac & srmac & ccr & hcr & HkE & HkM & _ & _
        & Hchal & Hc & Hsenc & Hsmac & Hsrmac & Hccr & Hhcr & H1 & H2 & H3 & H4
        & H5 & H6 & Huh & Huc & Hlc & Hfr & _).
  pose proof (byte_strings_lookup _ _ _ Hbs HkE) as HuE.
  pose proof (byte_strings_lookup _ _ _ Hbs HkM) as HuM.
  assert (Hctx : Forall u8 (hc ++ chal)) by (by apply Forall_app).
  destruct (KDF_same_length kE DDC.S_ENC _ _ HuE Hctx
              ltac:(apply u8_DDC; names_solve) Hsenc) as [Hl1 _].
  destruct (KDF_same_length kM DDC.S_MAC _ _ HuM Hctx
              ltac:(apply u8_DDC; names_solve) Hsmac) as [Hl2 Hus].
  destruct (KDF_same_length kM DDC.S_RMAC _ _ HuM Hctx
              ltac:(apply u8_DDC; names_solve) Hsrmac) as [Hl3 _].
  destruct (KDF_64_length smac DDC.CardCrypto _ _ Hus Hctx
              ltac:(apply u8_DDC; names_solve) Hccr) as [Hl4 _].
  destruct (KDF_64_length smac DDC.HostCrypto _ _ Hus Hctx
              ltac:(apply u8_DDC; names_solve) Hhcr) as [Hl5 _].
  exists kE, kM, senc, smac, srmac, chal, ccr, hcr.
  repeat (split; [assumption|]). exact Hfr.
Qed.

Lemma deriveKeys_establishes_witness :
  let s := Test128.scp_init in
  let s' := (SCP03.deriveKeys VNone s).2 in
  ∃ keyENC keyMAC senc smac srmac chal ccr hcr,
    s !! "keyENC" = Some (VStr keyENC) ∧ s !! "keyMAC" = Some (VStr keyMAC)
    ∧ s' !! "SENC" = Some (VStr senc) ∧ length senc = length keyENC
    ∧ s' !! "SMAC" = Some (VStr smac) ∧ length smac = length keyMAC
    ∧ s' !! "SRMAC" = Some (VStr srmac) ∧ length srmac = length keyMAC
    ∧ s' !! "card_challenge" = Some (VStr chal) ∧ length chal = 8%nat
    ∧ (VNone ≠ VNone → VNone = VStr chal)
    ∧ s' !! "card_cryptogram" = Some (VStr ccr) ∧ length ccr = 8%nat
    ∧ s' !! "host_cryptogram" = Some (VStr hcr) ∧ length hcr = 8%nat
    ∧ s' !! "MACchain" = Some VNone
    ∧ (∀ k, k ∉ ["host_challenge"; "card_challenge"; "SENC"; "SMAC"; "SRMAC";
                 "card_cryptogram"; "host_cryptogram"; "MACchain"] →
            s' !! k = s !! k).
Proof.
  cbv zeta.
  apply (deriveKeys_establishes VNone Test128.scp_init).
  - apply map_Forall_to_list. vm_compute. repeat constructor.
  - reflexivity.
  - apply pair_fst_eq. vm_compute. reflexivity.
Defined.


(** * The card's response to INITIALIZE UPDATE, read by the host *)











(** * The AID and the static keys are written by the constructor only *)

Lemma modifies_keeps_static {A} (m : M A) ns :
  modifies ns m →
  (∀ k, k ∈ ["SD_AID"; "keyENC"; "keyMAC"; "keyDEK"] → k ∉ ns) →
  keeps_static m.
Proof. intros Hm Hns s k Hk. apply (Hm s I). by apply Hns. Qed.

Ltac static_solve :=
  let k := fresh "k" in
  let Hk := fresh "Hk" in
  intros k Hk;
  repeat (apply elem_of_cons in Hk as [-> | Hk];
          [apply (bool_decide_unpack _); vm_compute; exact I|]);
  by apply elem_of_nil in Hk.

Ltac frame_all :=
  repeat first
    [ apply frame_CLA | apply frame_checkAPDU | apply frame_counterICV
    | apply frame_checkLogCh
    | apply modifies_applyBeginRmac; names_solve
    | frame_step ].

(** X12. No method overwrites the AID or a static key, whether it returns or
    raises. *)
Theorem static_keys_kept :
  (∀ hc ch, keeps_static (SCP03.initUpdate hc ch))
  ∧ (∀ cc, keeps_static (SCP03.initUpdateResp cc))
  ∧ (∀ apdu, keeps_static (SCP03.parseInitUpdate apdu))
  ∧ (∀ resp, keeps_static (SCP03.parseInitUpdateResp resp))
  ∧ (∀ cc, keeps_static (SCP03.deriveKeys cc))
  ∧ (∀ SL, keeps_static (SCP03.extAuth SL))
  ∧ (∀ apdu, keeps_static (SCP03.parseExtAuth apdu))
  ∧ (∀ rmacSL salt, keeps_static (SCP03.beginRMAC rmacSL salt))
  ∧ (∀ apdu, keeps_static (SCP03.wrapAPDU apdu))
  ∧ (∀ apdu, keeps_static (SCP03.unwrapAPDU apdu))
  ∧ (∀ resp sw1 sw2, keeps_static (SCP03.wrapResp resp sw1 sw2))
  ∧ (∀ resp sw1 sw2, keeps_static (SCP03.unwrapResp resp sw1 sw2))
  ∧ keeps_static SCP03.getDEK.
Proof.
  set (ns := ["i"; "keyVer"; "diverData"; "seqCounter"; "logCh";
              "host_challenge"; "card_challenge"; "SENC"; "SMAC"; "SRMAC";
              "card_cryptogram"; "host_cryptogram"; "MACchain"; "SL"; "rmacSL";
              "cmdCount"; "beginRmacSL"]).
  assert (Hns : ∀ k, k ∈ ["SD_AID"; "keyENC"; "keyMAC"; "keyDEK"] → k ∉ ns)
    by static_solve.
  assert (Hdk : ∀ cc, modifies ns (SCP03.deriveKeys cc)).
  { intros cc. unfold SCP03.deriveKeys. frame_all. }
  assert (Hea : ∀ SL, modifies ns (SCP03.extAuth SL)).
  { intros SL. unfold SCP03.extAuth. repeat first [apply Hdk | frame_all]. }
  assert (Hwa : ∀ apdu, modifies ns (SCP03.wrapAPDU apdu)).
  { intros apdu. unfold SCP03.wrapAPDU. frame_all. }
  repeat split; intros; (eapply modifies_keeps_static; [|exact Hns]).
  - unfold SCP03.initUpdate. frame_all.
  - unfold SCP03.initUpdateResp. repeat first [apply Hdk | frame_all].
  - unfold SCP03.parseInitUpdate. frame_all.
  - unfold SCP03.parseInitUpdateResp.
    repeat first [apply Hdk | progress frame_all
                 | rewrite partition_resp; cbv iota].
  - apply Hdk.
  - apply Hea.
  - unfold SCP03.parseExtAuth. repeat first [apply Hea | frame_all].
  - unfold SCP03.beginRMAC. repeat first [apply Hwa | frame_all].
  - apply Hwa.
  - unfold SCP03.unwrapAPDU. frame_all.
  - unfold SCP03.wrapResp. frame_all.
  - unfold SCP03.unwrapResp. frame_all.
  - unfold SCP03.getDEK. frame_all.
Qed.

(** * The CLA byte and the logical channel *)

(** X15. On the logical channels 0 to 15 [logCh] reads back from the CLA byte the
    channel that [SCP03.CLA] wrote into it, secured or not, with bit 8 set
    or clear; bit 8 is kept and the byte is a u8. *)
Theorem logCh_of_CLA (s : session) (ch b8 : Z) (zSecure : bool) :
  s !! "logCh" = Some (VInt ch) → 0 ≤ ch < 16 → b8 = 0 ∨ b8 = 0x80 →
  ∃ c, SCP03.CLA zSecure b8 s = (Ok c, s)
       ∧ logCh c = ch ∧ Z.land c 0x80 = b8 ∧ 0 ≤ c < 0x100.
Proof.
  intros Hs Hch Hb8. rewrite (CLA_run zSecure b8 s ch Hs).
  eexists. split; [reflexivity|].
  pose proof (channel_cases ch ltac:(lia)) as Hc.
  cbv [seq fmap list_fmap] in Hc.
  destruct Hb8 as [-> | ->]; destruct zSecure;
    repeat (apply elem_of_cons in Hc as [-> | Hc];
            [first [lia | by vm_compute]|]);
    by apply elem_of_nil in Hc.
Qed.

Lemma logCh_of_CLA_witness :
  ∃ c, SCP03.CLA true 0x80 (session_on 4 1) = (Ok c, session_on 4 1)
       ∧ logCh c = 4 ∧ Z.land c 0x80 = 0x80 ∧ 0 ≤ c < 0x100.
Proof.
  apply (logCh_of_CLA (session_on 4 1) 4 0x80 true);
    [vm_compute; reflexivity | lia | by right].
Defined.

(** * [checkAPDU] *)

(** X13. [checkAPDU] returns exactly on the APDUs of 5 bytes or more whose INS
    has no high nibble 6 or 9 (for INS [0xC0]: that are 5 bytes with P1 and
    P2 zero) and whose fifth byte, when data follows, is the length of the
    data; it returns that length and writes nothing. An APDU of less than 2
    bytes raises [IndexError], before any assertion. *)
Theorem checkAPDU_accepts (apdu : list Z) (s : session) :
  (∀ lc s',
     SCP03.checkAPDU apdu s = (Ok lc, s')
     ↔ s' = s ∧ lc = len apdu - 5 ∧ 5 ≤ len apdu
       ∧ ∃ ins, apdu !! 1%nat = Some ins
           ∧ (ins = 0xC0 → len apdu = 5 ∧ take 2 (drop 2 apdu) = [0; 0])
           ∧ (ins ≠ 0xC0 → Z.land ins 0xF0 ∉ [0x60; 0x90])
           ∧ (len apdu ≠ 5 → apdu !! 4%nat = Some lc))
  ∧ (len apdu < 2 → SCP03.checkAPDU apdu s = (Raise IndexError, s))
  ∧ (2 ≤ len apdu < 5 → ∃ e, SCP03.checkAPDU apdu s = (Raise (AssertionError e), s)).
Proof.
  split; [|split].
  - intros lc s'. split.
    + apply checkAPDU_inv.
    + intros (-> & -> & H5 & ins & Hins & Ha & Hb & Hc).
      by apply (checkAPDU_run apdu s ins).
  - intros Hl. unfold SCP03.checkAPDU.
    assert (Hi : apdu !! 1%nat = None)
      by (apply lookup_ge_None; unfold len in Hl; lia).
    unfold index. by rewrite Hi.
  - intros Hl. pose proof (checkAPDU_state apdu s) as Hst.
    destruct (SCP03.checkAPDU apdu s) as [[lc|e] s1] eqn:E; cbn [snd] in Hst;
      subst s1.
    + apply checkAPDU_inv in E as (_ & _ & H5 & _). lia.
    + unfold SCP03.checkAPDU in E.
      destruct (apdu !! 1%nat) as [ins|] eqn:Hins.
      2:{ apply lookup_ge_None in Hins. unfold len in Hl. lia. }
      rewrite (bind_Ok _ _ _ _ _ (lift_index_Ok _ _ _ _ Hins)) in E.
      remember (if ins =? 192
                then massert ((len apdu =? 5)
                              && bool_decide (take 2 (drop 2 apdu) = [0; 0]))
                       "Wrong Get response APDU"
                else massert (negb (bool_decide (Z.land ins 240 ∈ [96; 144])))
                       "Wrong INS byte %02X") as m eqn:Em.
      assert (Hm : ∃ b msg, m = massert b msg)
        by (destruct (ins =? 192); subst m; eauto).
      destruct Hm as (b & msg & ->). clear Em.
      destruct b.
      * rewrite (bind_Ok _ _ _ _ _ (massert_true _ _)) in E. cbv zeta in E.
        rewrite (proj2 (Z.leb_gt _ _)) in E by lia.
        rewrite (bind_Raise _ _ _ _ _ (massert_false _ _)) in E.
        injection E as <-. eauto.
      * rewrite (bind_Raise _ _ _ _ _ (massert_false _ _)) in E.
        injection E as <-. eauto.
Qed.

Lemma checkAPDU_accepts_witness :
  SCP03.checkAPDU Test128.apdu_i4l Test128.scp_new = (Ok 21, Test128.scp_new)
  ∧ SCP03.checkAPDU [0x80] Test128.scp_new = (Raise IndexError, Test128.scp_new)
  ∧ ∃ e, SCP03.checkAPDU [0x80; 0xE6; 0x02] Test128.scp_new
         = (Raise (AssertionError e), Test128.scp_new).
Proof.
  split; [|split].
  - apply (proj1 (checkAPDU_accepts Test128.apdu_i4l Test128.scp_new)).
    split; [reflexivity|]. split; [reflexivity|].
    split; [vm_compute; discriminate|].
    exists 0xE6. split; [reflexivity|]. split; [discriminate|].
    split; [|reflexivity].
    intros _. vm_compute. intros H. inversion H as [|? ? ? H']; subst.
    inversion H' as [|? ? ? H'']; subst. inversion H''.
  - apply (proj1 (proj2 (checkAPDU_accepts [0x80] Test128.scp_new))).
    vm_compute. reflexivity.
  - apply (proj2 (proj2 (checkAPDU_accepts [0x80; 0xE6; 0x02] Test128.scp_new))).
    vm_compute. split; [discriminate | reflexivity].
Defined.

(** * The length of a wrapped command *)

Lemma pad80_len (data : bytes) : len (pad80 data 16) = 16 * (len data / 16 + 1).
Proof.
  destruct (pad80_length data) as [Hm Hb]. unfold len.
  pose proof (Nat.div_mod_eq (length (pad80 data 16)) 16) as Hp.
  rewrite Hm in Hp.
  assert (Hq : Z.of_nat (length data) / 16 = Z.of_nat (length data / 16))
    by (by rewrite Nat2Z.inj_div).
  rewrite Hq.
  pose proof (Nat.div_mod_eq (length data) 16) as Hd.
  pose proof (Nat.mod_upper_bound (length data) 16 ltac:(lia)) as Hr.
  lia.
Qed.

(** X14. A command that [wrapAPDU] returns (GET RESPONSE apart) has the data
    padded to the next multiple of 16 when they are encrypted, 8 more bytes
    when it is MACed, and its fifth byte is the length of what follows; with
    C-MAC that length is at most 255, and [cmdCount] is one more. *)
Theorem wrapAPDU_length (s s' : session) (apdu w : list Z) (SL n : Z) :
  byte_strings s → s !! "beginRmaSL" = None →
  s !! "SL" = Some (VInt SL) → s !! "cmdCount" = Some (VInt n) →
  is_GET_RESPONSE apdu = false →
  SCP03.wrapAPDU apdu s = (Ok w, s') →
  let lc := len apdu - 5 in
  let lc1 := if truthy (Z.land SL SL_CENC) && (0 <? lc)
             then 16 * (lc / 16 + 1) else lc in
  let lc2 := if truthy (Z.land SL SL_CMAC) then lc1 + 8 else lc1 in
  len w = 5 + lc2 ∧ w !! 4%nat = Some lc2
  ∧ (truthy (Z.land SL SL_CENC) && (0 <? lc) = true → lc1 ≤ 0xFF)
  ∧ (truthy (Z.land SL SL_CMAC) = true → lc2 ≤ 0xFF)
  ∧ s' !! "cmdCount" = Some (VInt (n + 1)).
Proof.
  intros Hbs Hb HSL Hn Hgr Hwrap.
  pose proof Hwrap as Hck. unfold SCP03.wrapAPDU in Hck.
  apply bind_inv in Hck as (lc0 & s1 & Hck & _).
  apply checkAPDU_inv in Hck as (-> & -> & H5 & ins & Hi & _).
  destruct (cons5_shape apdu H5) as (cla & b & p1 & p2 & b4 & data & ->).
  injection Hi as ->.
  unfold is_GET_RESPONSE in Hgr. apply bool_decide_eq_false in Hgr.
  assert (Hne : ins ≠ 0xC0) by (intros ->; by apply Hgr).
  destruct (wrapAPDU_inv _ _ _ _ _ _ _ _ _ Hne Hbs Hb Hwrap)
    as (n' & SL' & c & cdata1 & Hn' & HSL' & Hins & Hdata & Hcu1 & HCLA & Henc
        & Hmac).
  rewrite Hn in Hn'. injection Hn' as <-.
  rewrite HSL in HSL'. injection HSL' as <-.
  assert (Hlen : len (cla :: ins :: p1 :: p2 :: b4 :: data) - 5 = len data)
    by (rewrite !len_cons; lia).
  cbv zeta. rewrite Hlen. clear Hlen.
  assert (Hl1 : len cdata1
                = (if truthy (Z.land SL SL_CENC) && (0 <? len data)
                   then 16 * (len data / 16 + 1) else len data)
                ∧ (truthy (Z.land SL SL_CENC) && (0 <? len data) = true →
                   len cdata1 ≤ 0xFF)).
  { destruct (truthy (Z.land SL SL_CENC) && (0 <? len data)).
    - destruct Henc as (icv & senc & _ & Hsenc & Hok & Hblk & Hc1 & Hle).
      split; [|done].
      pose proof (byte_strings_lookup _ _ _ Hbs Hsenc) as Hus.
      destruct (KeyExpansion_blocks senc Hok Hus) as [Hks _].
      destruct (pad80_length data) as [Hm _].
      assert (Hpl : length (pad80 data 16)
                    = (16 * (length (pad80 data 16) / 16))%nat).
      { pose proof (Nat.div_mod_eq (length (pad80 data 16)) 16). lia. }
      destruct (cbc_encrypt_spec (length (pad80 data 16) / 16)
                  (AES.KeyExpansion senc) icv (pad80 data 16) Hks Hblk
                  (pad80_u8 data Hdata) Hpl) as [Hcl _].
      rewrite <- Hc1, <- Hpl in Hcl.
      rewrite <- pad80_len. unfold len. by rewrite Hcl.
    - subst cdata1. split; [done | discriminate]. }
  destruct Hl1 as [Hl1 Hle1]. rewrite <- Hl1.
  destruct (truthy (Z.land SL SL_CMAC)).
  - destruct Hmac as (chain & smac & mac & _ & _ & Hle & _ & _ & [Hml _] & -> & ->).
    split.
    { rewrite !len_cons, len_app. unfold len at 2. rewrite length_take, Hml.
      change (Z.of_nat (8 `min` 16)) with 8. lia. }
    split; [reflexivity|]. split; [exact Hle1|]. split; [done|].
    rewrite lookup_insert_ne by done. apply lookup_insert_eq.
  - destruct Hmac as [-> ->].
    split; [rewrite !len_cons; lia|].
    split; [reflexivity|]. split; [exact Hle1|]. split; [discriminate|].
    apply lookup_insert_eq.
Qed.

Lemma wrapAPDU_length_witness :
  let s := Test128.scp_auth 3 in
  let w := [0x84; 0xE6; 0x02; 0x00; 0x28;
            0xDF; 0x31; 0x90; 0x7F; 0xC0; 0x27; 0x48; 0x2D;
            0x5D; 0xCB; 0x7D; 0xC0; 0x28; 0x24; 0x5F; 0x7C;
            0x10; 0x8C; 0xA4; 0xD2; 0xAF; 0xF1; 0x22; 0x75;
            0x07; 0x97; 0x68; 0xE1; 0xEF; 0xE9; 0x42; 0x9E;
            0x84; 0x0C; 0x2C; 0x64; 0x24; 0x90; 0xB2; 0x05] in
  let s' := (SCP03.wrapAPDU Test128.apdu_i4l s).2 in
  SCP03.wrapAPDU Test128.apdu_i4l s = (Ok w, s')
  ∧ len w = 5 + (16 * (21 / 16 + 1) + 8)
  ∧ w !! 4%nat = Some (16 * (21 / 16 + 1) + 8)
  ∧ s' !! "cmdCount" = Some (VInt (0 + 1)).
Proof.
  cbv zeta.
  assert (Hw : SCP03.wrapAPDU Test128.apdu_i4l (Test128.scp_auth 3)
               = (Ok [0x84; 0xE6; 0x02; 0x00; 0x28;
                      0xDF; 0x31; 0x90; 0x7F; 0xC0; 0x27; 0x48; 0x2D;
                      0x5D; 0xCB; 0x7D; 0xC0; 0x28; 0x24; 0x5F; 0x7C;
                      0x10; 0x8C; 0xA4; 0xD2; 0xAF; 0xF1; 0x22; 0x75;
                      0x07; 0x97; 0x68; 0xE1; 0xEF; 0xE9; 0x42; 0x9E;
                      0x84; 0x0C; 0x2C; 0x64; 0x24; 0x90; 0xB2; 0x05],
                  (SCP03.wrapAPDU Test128.apdu_i4l (Test128.scp_auth 3)).2)).
  { apply pair_fst_eq. vm_compute. reflexivity. }
  split; [exact Hw|].
  assert (Hbs : byte_strings (Test128.scp_auth 3))
    by (apply map_Forall_to_list; vm_compute; repeat constructor).
  destruct (wrapAPDU_length (Test128.scp_auth 3) _ Test128.apdu_i4l _ 3 0 Hbs
              ltac:(vm_compute; reflexivity) ltac:(vm_compute; reflexivity)
              ltac:(vm_compute; reflexivity) eq_refl Hw)
    as (H1 & H2 & _ & _ & H3).
  split; [exact H1|]. split; [exact H2 | exact H3].
Defined.

(** * INITIALIZE UPDATE, built by the host and parsed by the card *)

Lemma initUpdate_inv hc ch s apdu s' :
  SCP03.initUpdate hc ch s = (Ok apdu, s') →
  0 ≤ ch < 20 ∧ len hc = 8
  ∧ ∃ kv, s !! "keyVer" = Some (VInt kv)
          ∧ apdu = [spec_CLA ch false; INS_INIT_UPDATE; kv; 0; 8] ++ hc
          ∧ s' = <["host_challenge" := VStr hc]> (<["logCh" := VInt ch]> s).
Proof.
  intros H. unfold SCP03.initUpdate in H.
  apply bind_inv in H as ([] & s1 & [-> Hch]%massert_inv & H).
  apply bind_inv in H as ([] & s1 & Hset & H).
  unfold setattr in Hset. injection Hset as <-.
  apply bind_inv in H as ([] & s1 & [-> Hl]%massert_inv & H).
  apply bind_inv in H as ([] & s1 & Hset & H).
  unfold setattr in Hset. injection Hset as <-.
  apply andb_true_iff in Hch as [H1%Z.leb_le H2%Z.ltb_lt].
  apply Z.eqb_eq in Hl.
  rewrite (bind_Ok _ _ _ _ _
             (spec_CLA_eq ch false
                (<["host_challenge" := VStr hc]> (<["logCh" := VInt ch]> s))
                ltac:(lia) ltac:(lookup_solve))) in H.
  apply bind_inv in H as (kv & s1 & [-> Hkv]%getint_inv & H).
  apply bind_inv in H as (hc' & s1 & [-> Hhc]%getstr_inv & H).
  rewrite lookup_insert_eq in Hhc. injection Hhc as <-.
  injection H as <- <-.
  rewrite !lookup_insert_ne in Hkv by done.
  split; [lia|]. split; [done|]. by exists kv.
Qed.

(** X16. The card that holds the host's key version reads the INITIALIZE UPDATE
    command of [initUpdate] back: on the logical channels 0 to 15 it stores
    the host's channel and host challenge; for the channels 16 to 18 it
    stores the channel less 16; the command for channel 19 is refused. *)
Theorem parseInitUpdate_initUpdate
  (s s' t : session) (hc : bytes) (ch : Z) (apdu : list Z) :
  all_u8 hc = true → t !! "keyVer" = s !! "keyVer" →
  SCP03.initUpdate hc ch s = (Ok apdu, s') →
  (ch < 19 →
   SCP03.parseInitUpdate apdu t
   = (Ok tt, <["host_challenge" := VStr hc]> (<["logCh" := VInt (ch mod 16)]> t)))
  ∧ (ch = 19 →
     SCP03.parseInitUpdate apdu t = (Raise (AssertionError "Wrong CLA"), t)).
Proof.
  intros Hu Hkv (Hch & Hl & kv & Hkv' & -> & _)%initUpdate_inv.
  apply all_u8_Forall in Hu. rewrite Hkv' in Hkv.
  unfold SCP03.parseInitUpdate.
  rewrite (bind_Ok _ _ _ _ _
             (lift_index_Ok ([spec_CLA ch false; INS_INIT_UPDATE; kv; 0; 8] ++ hc)
                0 (spec_CLA ch false) t eq_refl)).
  pose proof (channel_cases ch Hch) as Hc. cbv [seq fmap list_fmap] in Hc.
  split.
  - intros H19.
    assert (Hcla : ((128 <=? spec_CLA ch false) && (spec_CLA ch false <=? 131))
                   || ((192 <=? spec_CLA ch false) && (spec_CLA ch false <? 207))
                   = true).
    { repeat (apply elem_of_cons in Hc as [-> | Hc]; [first [lia | done]|]).
      by apply elem_of_nil in Hc. }
    rewrite Hcla. clear Hc Hcla.
    eapply exec_bind; [apply massert_true|].
    eapply exec_bind; [by apply lift_index_Ok|]. cbv beta.
    rewrite Z.eqb_refl.
    eapply exec_bind; [apply massert_true|].
    eapply exec_bind; [by apply lift_index_Ok|].
    eapply exec_bind; [by apply getattr_Some|]. cbv beta.
    rewrite bool_decide_eq_true_2 by done.
    eapply exec_bind; [apply massert_true|].
    eapply exec_bind; [by apply lift_index_Ok|]. cbv beta.
    assert (Hlen : len ([spec_CLA ch false; INS_INIT_UPDATE; kv; 0; 8] ++ hc) - 5
                   = 8) by (cbn [app]; rewrite !len_cons; lia).
    rewrite Hlen. cbn [Z.eqb Pos.eqb andb].
    eapply exec_bind; [apply massert_true|].
    rewrite (logCh_CLA_mod16 ch false Hch).
    eapply exec_bind; [apply setattr_eq|].
    assert (Hdrop : drop 5 ([spec_CLA ch false; INS_INIT_UPDATE; kv; 0; 8] ++ hc)
                    = hc) by (cbn [app drop]; apply drop_0).
    rewrite Hdrop, (l2s_u8 hc Hu).
    eapply exec_bind; [apply lift_Ok|]. apply setattr_eq.
  - intros ->. reflexivity.
Qed.

Lemma parseInitUpdate_initUpdate_witness :
  let s := Test128.scp_new in
  let apdu := [0x80; 0x50; 0x30; 0x00; 0x08;
               0x08; 0x07; 0x06; 0x05; 0x04; 0x03; 0x02; 0x01] in
  SCP03.parseInitUpdate apdu s
  = (Ok tt, <["host_challenge" := VStr Test128.host_challenge]>
              (<["logCh" := VInt (0 mod 16)]> s)).
Proof.
  cbv zeta.
  assert (H : SCP03.initUpdate Test128.host_challenge 0 Test128.scp_new
              = (Ok [0x80; 0x50; 0x30; 0x00; 0x08;
                     0x08; 0x07; 0x06; 0x05; 0x04; 0x03; 0x02; 0x01],
                 (SCP03.initUpdate Test128.host_challenge 0 Test128.scp_new).2)).
  { apply pair_fst_eq. vm_compute. reflexivity. }
  apply (proj1 (parseInitUpdate_initUpdate Test128.scp_new _ Test128.scp_new
                  Test128.host_challenge 0 _ eq_refl eq_refl H)). lia.
Defined.

(** * EXTERNAL AUTHENTICATE, parsed *)

Lemma slices_eq (a b : list Z) :
  take 5 a = take 5 b → take 8 (drop 5 a) = take 8 (drop 5 b) →
  drop 13 a = drop 13 b → a = b.
Proof.
  intros H1 H2 H3.
  rewrite <- (take_drop 5 a), <- (take_drop 5 b). f_equal; [done|].
  rewrite <- (take_drop 8 (drop 5 a)), <- (take_drop 8 (drop 5 b)).
  f_equal; [done|]. by rewrite !drop_drop.
Qed.

(** X17. [parseExtAuth] returns exactly on the 21-byte command that [extAuth]
    builds, on the same session, for the level in its P1 byte; it then
    ends in the session that this [extAuth] leaves. *)
Theorem parseExtAuth_accepts (apdu : list Z) (s s' : session) :
  SCP03.parseExtAuth apdu s = (Ok tt, s')
  ↔ len apdu = 21
    ∧ ∃ SL, apdu !! 2%nat = Some SL ∧ SCP03.extAuth SL s = (Ok apdu, s').
Proof.
  unfold SCP03.parseExtAuth. split.
  - intros H.
    apply bind_inv in H as ([] & s1 & [-> Hl%Z.eqb_eq]%massert_inv & H).
    apply bind_inv in H as (SL & s1 & [-> HSL]%index_inv & H).
    apply bind_inv in H as (wapdu & s1 & Hext & H).
    apply bind_inv in H as ([] & s2 & [-> H1%bool_decide_eq_true]%massert_inv & H).
    apply bind_inv in H as ([] & s2 & [-> H2%bool_decide_eq_true]%massert_inv & H).
    apply bind_inv in H as ([] & s2 & [-> H3%bool_decide_eq_true]%massert_inv & H).
    apply bind_inv in H as (SL' & s2 & [-> HSL']%index_inv & H).
    rewrite HSL in HSL'. injection HSL' as <-.
    unfold setattr in H. injection H as <-.
    assert (apdu = wapdu) as -> by by apply slices_eq.
    split; [done|]. exists SL. split; [done|].
    rewrite Hext. f_equal.
    (* [extAuth] has stored this very level *)
    apply map_eq. intros k. destruct (decide (k = "SL")) as [->|Hk].
    + rewrite lookup_insert_eq. symmetry.
      unfold SCP03.extAuth in Hext.
      do 3 (apply bind_inv in Hext as (? & ? & _ & Hext)).
      apply bind_inv in Hext as ([] & s3 & Hset & Hext).
      unfold setattr in Hset. injection Hset as <-.
      lazymatch type of Hext with
      | ?m _ = _ =>
          assert (Hfr : frame (fun st : session => st !! "SL" = Some (VInt SL))
                          ["rmacSL"; "cmdCount"; "host_challenge";
                           "card_challenge"; "SENC"; "SMAC"; "SRMAC";
                           "card_cryptogram"; "host_cryptogram"; "MACchain"] m)
      end.
      { unfold SCP03.deriveKeys.
        repeat first
          [ apply frame_CLA
          | apply frame_setattr;
            [names_solve | intros; by rewrite lookup_insert_ne]
          | frame_step ]. }
      lazymatch type of Hext with
      | _ ?st = _ => destruct (Hfr st) as [Hk _]; [apply lookup_insert_eq|]
      end.
      by rewrite Hext in Hk.
    + by rewrite lookup_insert_ne.
  - intros (Hl & SL & HSL & Hext).
    rewrite (proj2 (Z.eqb_eq _ _) Hl).
    eapply exec_bind; [apply massert_true|].
    eapply exec_bind; [by apply lift_index_Ok|].
    eapply exec_bind; [exact Hext|]. cbv beta.
    rewrite !bool_decide_eq_true_2 by done.
    do 3 (eapply exec_bind; [apply massert_true|]).
    eapply exec_bind; [by apply lift_index_Ok|].
    rewrite setattr_eq. f_equal.
    apply map_eq. intros k. destruct (decide (k = "SL")) as [->|Hk].
    + rewrite lookup_insert_eq.
      unfold SCP03.extAuth in Hext.
      do 3 (apply bind_inv in Hext as (? & ? & _ & Hext)).
      apply bind_inv in Hext as ([] & s3 & Hset & Hext).
      unfold setattr in Hset. injection Hset as <-.
      lazymatch type of Hext with
      | ?m _ = _ =>
          assert (Hfr : frame (fun st : session => st !! "SL" = Some (VInt SL))
                          ["rmacSL"; "cmdCount"; "host_challenge";
                           "card_challenge"; "SENC"; "SMAC"; "SRMAC";
                           "card_cryptogram"; "host_cryptogram"; "MACchain"] m)
      end.
      { unfold SCP03.deriveKeys.
        repeat first
          [ apply frame_CLA
          | apply frame_setattr;
            [names_solve | intros; by rewrite lookup_insert_ne]
          | frame_step ]. }
      lazymatch type of Hext with
      | _ ?st = _ => destruct (Hfr st) as [Hk _]; [apply lookup_insert_eq|]
      end.
      by rewrite Hext in Hk.
    + by rewrite lookup_insert_ne.
Qed.

Lemma parseExtAuth_accepts_witness :
  let apdu := [0x84; 0x82; 0x03; 0x00; 0x10;
               0xAE; 0xB8; 0xDA; 0xD1; 0x86; 0x5B; 0x85; 0xE2;
               0x58; 0x95; 0x9C; 0x22; 0xA5; 0x7F; 0xE9; 0x61] in
  SCP03.parseExtAuth apdu Test128.scp_keys = (Ok tt, Test128.scp_auth 3).
Proof.
  cbv zeta.
  apply (proj2 (parseExtAuth_accepts _ Test128.scp_keys (Test128.scp_auth 3))).
  split; [reflexivity|]. exists 3. split; [reflexivity|].
  unfold Test128.scp_auth. apply pair_fst_eq. vm_compute. reflexivity.
Defined.

(** * BEGIN R-MAC *)

Lemma rmacSL_cases r :
  Z.land r (Z.lnot (Z.lor SL_RMAC SL_RENC)) = 0 → r ∈ [0; 16; 32; 48].
Proof.
  change (Z.lor SL_RMAC SL_RENC) with 48. intros H.
  rewrite <- Z.sub_land_same_l in H.
  assert (Hr : r = Z.land r 48) by lia.
  assert (E : Z.land r 48 = Z.land (r mod 64) 48).
  { change 48 with (Z.land 63 48) at 1. rewrite Z.land_assoc.
    change 63 with (Z.ones 6). by rewrite Z.land_ones by lia. }
  rewrite E in Hr. clear E H.
  pose proof (Z.mod_pos_bound r 64 ltac:(lia)) as Hb.
  assert (Hx : r mod 64 ∈ (Z.of_nat <$> seq 0 64)).
  { apply list_elem_of_fmap. exists (Z.to_nat (r mod 64)). split; [lia|].
    apply elem_of_seq. lia. }
  rewrite Hr. clear Hr Hb. generalize dependent (r mod 64). intros x Hx.
  cbv [seq fmap list_fmap] in Hx.
  repeat (apply elem_of_cons in Hx as [-> | Hx]; [names_solve|]).
  by apply elem_of_nil in Hx.
Qed.

Lemma when_inv b (m : M unit) s s' :
  when b m s = (Ok tt, s') → if b then m s = (Ok tt, s') else s' = s.
Proof. destruct b; [done|]. by intros [= <-]. Qed.

(** X18. [beginRMAC] returns only for a level 0x10 or 0x30 that raises the
    response security of the session: from C-MAC, with or without C-ENC, to
    R-MAC; from C-MAC and C-ENC, with or without R-MAC, to R-MAC and R-ENC;
    and only if the [i] parameter offers it. It then leaves the level in
    [beginRmacSL]. *)
Theorem beginRMAC_accepts_only
  (s s' : session) (rmacSL SL : Z) (salt : option bytes) (w : list Z) :
  s !! "SL" = Some (VInt SL) → SL ∈ SCP03.accepted_SL →
  SCP03.beginRMAC rmacSL salt s = (Ok w, s') →
  (SL, rmacSL) ∈ [(0x01, 0x10); (0x03, 0x10); (0x03, 0x30); (0x13, 0x30)]
  ∧ (∃ i, s !! "i" = Some (VInt i) ∧ Z.land i M_RMAC ≠ 0
          ∧ (rmacSL = 0x30 → Z.land i 0x40 ≠ 0))
  ∧ s' !! "beginRmacSL" = Some (VInt rmacSL).
Proof.
  intros HSL Hacc H. unfold SCP03.beginRMAC in H.
  apply bind_inv in H as ([] & s1 & Hw1 & H).
  assert (s1 = s) as ->.
  { lazymatch type of Hw1 with
    | ?m _ = _ => assert (Hfr : modifies [] m) by frame_auto
    end.
    pose proof (modifies_nil_eq _ s Hfr) as Hst. by rewrite Hw1 in Hst. }
  apply bind_inv in H as ([] & s1 & Hw2 & H).
  assert (s1 = s) as ->.
  { lazymatch type of Hw2 with
    | ?m _ = _ => assert (Hfr : modifies [] m) by frame_auto
    end.
    pose proof (modifies_nil_eq _ s Hfr) as Hst. by rewrite Hw2 in Hst. }
  apply bind_inv in H as ([] & s1 & [-> H1%Z.eqb_eq]%massert_inv & H).
  apply bind_inv in H as ([] & s1 & [-> H2]%massert_inv & H).
  apply bind_inv in H as (SL1 & s1 & [-> HSL1]%getint_inv & H).
  rewrite HSL in HSL1. injection HSL1 as <-.
  apply bind_inv in H as ([] & s1 & [-> H3]%massert_inv & H).
  apply bind_inv in H as (SL1 & s1 & [-> HSL1]%getint_inv & H).
  rewrite HSL in HSL1. injection HSL1 as <-.
  apply bind_inv in H as ([] & s1 & [-> H4]%massert_inv & H).
  apply bind_inv in H as (SL1 & s1 & [-> HSL1]%getint_inv & H).
  rewrite HSL in HSL1. injection HSL1 as <-.
  apply bind_inv in H as ([] & s1 & [-> H5]%massert_inv & H).
  apply bind_inv in H as (SL1 & s1 & [-> HSL1]%getint_inv & H).
  rewrite HSL in HSL1. injection HSL1 as <-.
  apply bind_inv in H as ([] & s1 & [-> H6]%massert_inv & H).
  apply bind_inv in H as (data & s1 & _ & H).
  cbv zeta in H.
  apply bind_inv in H as (wapdu & s2 & _ & H).
  apply bind_inv in H as ([] & s3 & Hset & H).
  unfold setattr in Hset. injection Hset as <-. injection H as _ <-.
  apply when_inv in Hw1, Hw2.
  apply rmacSL_cases in H1.
  assert (Hr : rmacSL = 16 ∨ rmacSL = 48).
  { repeat (apply elem_of_cons in H1 as [-> | H1]; [first [discriminate H2 | auto]|]).
    by apply elem_of_nil in H1. }
  clear H1 H2.
  assert (Hpair : (SL, rmacSL) ∈ [(1, 16); (3, 16); (3, 48); (19, 48)]).
  { unfold SCP03.accepted_SL in Hacc.
    destruct Hr as [-> | ->];
      repeat (apply elem_of_cons in Hacc as [-> | Hacc];
              [first [discriminate H3 | discriminate H4 | discriminate H5
                     | discriminate H6 | names_solve]|]);
      by apply elem_of_nil in Hacc. }
  split; [exact Hpair|]. split; [|apply lookup_insert_eq].
  assert (Hb1 : truthy (Z.land rmacSL SL_RMAC) = true)
    by (destruct Hr as [-> | ->]; reflexivity).
  rewrite Hb1 in Hw1.
  apply bind_inv in Hw1 as (i & t1 & [-> Hi]%getint_inv & Hw1).
  apply massert_inv in Hw1 as [_ Hi1].
  exists i. split; [exact Hi|]. split.
  { unfold truthy in Hi1. by apply negb_true_iff, Z.eqb_neq in Hi1. }
  intros ->. cbn in Hw2.
  apply bind_inv in Hw2 as (i' & t2 & [-> Hi']%getint_inv & Hw2).
  rewrite Hi in Hi'. injection Hi' as <-.
  apply massert_inv in Hw2 as [_ Hi2].
  unfold truthy in Hi2. by apply negb_true_iff, Z.eqb_neq in Hi2.
Qed.

Lemma beginRMAC_accepts_only_witness :
  let s := Test128.scp_auth 1 in
  let s' := (SCP03.beginRMAC 0x10 None s).2 in
  SCP03.beginRMAC 0x10 None s
  = (Ok [0x84; 0x7A; 0x10; 0x01; 0x08;
         0x54; 0x75; 0x33; 0x63; 0x3C; 0x32; 0x3C; 0xAA], s')
  ∧ (0x01, 0x10) ∈ [(0x01, 0x10); (0x03, 0x10); (0x03, 0x30); (0x13, 0x30)]
  ∧ (∃ i, s !! "i" = Some (VInt i) ∧ Z.land i M_RMAC ≠ 0
          ∧ (0x10 = 0x30 → Z.land i 0x40 ≠ 0))
  ∧ s' !! "beginRmacSL" = Some (VInt 0x10).
Proof.
  cbv zeta.
  assert (Hw : SCP03.beginRMAC 0x10 None (Test128.scp_auth 1)
               = (Ok [0x84; 0x7A; 0x10; 0x01; 0x08;
                      0x54; 0x75; 0x33; 0x63; 0x3C; 0x32; 0x3C; 0xAA],
                  (SCP03.beginRMAC 0x10 None (Test128.scp_auth 1)).2)).
  { apply pair_fst_eq. vm_compute. reflexivity. }
  split; [exact Hw|].
  eapply (beginRMAC_accepts_only (Test128.scp_auth 1) _ 0x10 0x01 None);
    [vm_compute; reflexivity | names_solve | exact Hw].
Defined.

